(** * DirectoryMirror: a shallow embedding of the scan-diff-dispatch loop

    The development follows the Go sources of the repository
    (the file that defines [RunScanLoop], [processChanges],
    [validateDirExistance], [writeFile], [copyFile], [deleteFile] and
    [getDirFiles], and [config.go] for the configuration record).

    Part I holds the model: the Go library calls the program makes
    ([strings.Replace], [filepath.Clean], [filepath.Join], [filepath.Dir],
    [filepath.Walk], the [os] calls on a file tree, [sync.WaitGroup]) and
    then the program's own functions, each written after its source.
    Part II holds the properties. *)

From Stdlib Require Import ZArith Ascii String List Lia.
From stdpp Require Import base tactics option list functions gmap strings pretty fin_maps fin_sets.

Local Open Scope Z_scope.

(* ===================================================================== *)
(** * Part I. The model                                                    *)
(* ===================================================================== *)

(** ** Outcomes of a Go call

    A call returns, or panics (an unrecovered panic ends the whole process),
    or, for the one recursive function of the program that has no structural
    measure, runs out of the fuel the model gives it. *)

Inductive Outcome (A : Type) : Type :=
| Returns (a : A)
| Panics (msg : string)
| OutOfFuel.
Arguments Returns {A} a.
Arguments Panics {A} msg.
Arguments OutOfFuel {A}.

#[global] Instance Outcome_ret : MRet Outcome := fun A a => Returns a.

#[global] Instance Outcome_bind : MBind Outcome := fun A B k m =>
  match m with
  | Returns a => k a
  | Panics msg => Panics msg
  | OutOfFuel => OutOfFuel
  end.

(** ** Package [strings] *)

Module strings.

(** [strings.HasPrefix]. *)
Fixpoint HasPrefix (s prefix : string) {struct prefix} : bool :=
  match prefix, s with
  | EmptyString, _ => true
  | String _ _, EmptyString => false
  | String a prefix', String b s' =>
      if Ascii.eqb a b then HasPrefix s' prefix' else false
  end.

(** The loop of [strings.Replace] for a non-empty [old]: walk [s] from the
    left; [skip] counts the bytes of a matched occurrence still to drop,
    [n] the replacements left ([None]: no limit). *)
Fixpoint replace_from (s old new : string) (skip : nat) (n : option nat)
  : string :=
  match s with
  | EmptyString => EmptyString
  | String c s' =>
      match skip with
      | S k => replace_from s' old new k n
      | O =>
          match n with
          | Some O => s
          | _ =>
              if HasPrefix s old
              then new +:+ replace_from s' old new (String.length old - 1)
                                       (option_map Nat.pred n)
              else String c (replace_from s' old new O n)
          end
      end
  end.

(** The loop of [strings.Replace] for an empty [old]: it matches before each
    byte (each rune, for text that is ASCII) and at the end. *)
Fixpoint replace_empty (s new : string) (n : option nat) : string :=
  match n with
  | Some O => s
  | _ =>
      match s with
      | EmptyString => new
      | String c s' =>
          new +:+ String c (replace_empty s' new (option_map Nat.pred n))
      end
  end.

(** [strings.Replace(s, old, new, n)]: the first [n] non-overlapping
    instances of [old] replaced by [new]; no limit when [n < 0]. *)
Definition Replace (s old new : string) (n : Z) : string :=
  if bool_decide (old = new) || (n =? 0) then s
  else
    let limit := if n <? 0 then None else Some (Z.to_nat n) in
    match old with
    | EmptyString => replace_empty s new limit
    | String _ _ => replace_from s old new O limit
    end.

(** [strings.Split(s, "/")]. *)
Fixpoint split_slash (s : string) : list string :=
  match s with
  | EmptyString => [EmptyString]
  | String c s' =>
      if Ascii.eqb c "/" then EmptyString :: split_slash s'
      else match split_slash s' with
           | x :: xs => String c x :: xs
           | [] => [String c EmptyString]
           end
  end.

(** [strings.Join(elems, "/")]. *)
Fixpoint join_slash (elems : list string) : string :=
  match elems with
  | [] => EmptyString
  | [x] => x
  | x :: rest => x +:+ "/" +:+ join_slash rest
  end.

End strings.

(** ** Package [io/fs]: file modes, file information, errors *)

Inductive Errno := ENOENT | EEXIST | ENOTDIR | EISDIR | ENOTEMPTY | EBADF.

(** Go's [error] values the program meets: the two sentinels of
    [filepath.Walk] and the [*fs.PathError] of a failed [os] call. *)
Inductive error :=
| SkipDir
| SkipAll
| PathError (op path : string) (errno : Errno).

#[global] Instance Errno_eq_dec : EqDecision Errno.
Proof. solve_decision. Defined.
#[global] Instance error_eq_dec : EqDecision error.
Proof. solve_decision. Defined.

Module fs.

(** The bits of [fs.FileMode], a [uint32]. *)
Definition ModeDir : Z := 2 ^ 31.
Definition ModeSymlink : Z := 2 ^ 27.
Definition ModeDevice : Z := 2 ^ 26.
Definition ModeNamedPipe : Z := 2 ^ 25.
Definition ModeSocket : Z := 2 ^ 24.
Definition ModeSetuid : Z := 2 ^ 23.
Definition ModeSetgid : Z := 2 ^ 22.
Definition ModeCharDevice : Z := 2 ^ 21.
Definition ModeSticky : Z := 2 ^ 20.
Definition ModeIrregular : Z := 2 ^ 19.
Definition ModeType : Z :=
  Z.lor ModeDir (Z.lor ModeSymlink (Z.lor ModeNamedPipe (Z.lor ModeSocket
    (Z.lor ModeDevice (Z.lor ModeCharDevice ModeIrregular))))).
Definition ModePerm : Z := 511. (* 0777 *)

(** [FileMode.IsDir], [FileMode.IsRegular], [FileMode.Perm]. *)
Definition IsDir (m : Z) : bool := negb (Z.land m ModeDir =? 0).
Definition IsRegular (m : Z) : bool := Z.land m ModeType =? 0.
Definition Perm (m : Z) : Z := Z.land m ModePerm.

(** What [os.Stat] and [os.Lstat] return on success. [ModTime] stands for
    the [time.Time] of the file, as nanoseconds since the epoch: both times
    the program compares with [==] come from a stat call, for which [==]
    is equality of the instants. *)
Record fileStat := { Size : Z; Mode : Z; ModTime : Z }.

(** [errors.Is(err, fs.ErrNotExist)]. *)
Definition IsNotExist (err : error) : bool :=
  match err with
  | PathError _ _ ENOENT => true
  | _ => false
  end.

Definition errno_text (e : Errno) : string :=
  match e with
  | ENOENT => "no such file or directory"
  | EEXIST => "file exists"
  | ENOTDIR => "not a directory"
  | EISDIR => "is a directory"
  | ENOTEMPTY => "directory not empty"
  | EBADF => "bad file descriptor"
  end.

(** [err.Error()], the text [panic(err)] prints. *)
Definition Error (err : error) : string :=
  match err with
  | SkipDir => "skip this directory"
  | SkipAll => "skip everything and stop the walk"
  | PathError op path errno => op +:+ " " +:+ path +:+ ": " +:+ errno_text errno
  end.

End fs.

(** The interface [os.FileInfo]: a [fileStat], or the nil interface. A method
    call on nil is a nil dereference, which panics. *)
Abbreviation FileInfo := (option fs.fileStat).

Definition nil_dereference : string :=
  "runtime error: invalid memory address or nil pointer dereference".

Definition FileInfo_IsDir (fi : FileInfo) : Outcome bool :=
  match fi with
  | Some st => Returns (fs.IsDir (fs.Mode st))
  | None => Panics nil_dereference
  end.

Definition FileInfo_ModTime (fi : FileInfo) : Outcome Z :=
  match fi with
  | Some st => Returns (fs.ModTime st)
  | None => Panics nil_dereference
  end.

Definition FileInfo_Mode (fi : FileInfo) : Outcome Z :=
  match fi with
  | Some st => Returns (fs.Mode st)
  | None => Panics nil_dereference
  end.

(** The result of a Go call that returns a value and an [error]. *)
Inductive Result (A : Type) : Type :=
| Ok (a : A)
| Err (err : error).
Arguments Ok {A} a.
Arguments Err {A} err.

(** ** Package [path/filepath] (Unix: the separator is [/], no volume names) *)

Module filepath.

(** One element of a path read by [Clean], the cleaned elements so far kept
    last-first in [out]. An empty element and [.] are dropped; [..] removes
    the element before it, is dropped at the top of a rooted path, and is
    kept at the top of a relative one. *)
Definition clean_elem (rooted : bool) (out : list string) (e : string)
  : list string :=
  if bool_decide (e = "") || bool_decide (e = ".") then out
  else if bool_decide (e = "..") then
    match out with
    | top :: below =>
        if bool_decide (top = "..") then e :: out else below
    | [] => if rooted then [] else [e]
    end
  else e :: out.

Definition clean_elems (rooted : bool) (elems : list string) : list string :=
  rev (fold_left (clean_elem rooted) elems []).

(** [filepath.Clean]. *)
Definition Clean (path : string) : string :=
  let rooted := strings.HasPrefix path "/" in
  let out := strings.join_slash (clean_elems rooted (strings.split_slash path)) in
  if rooted then "/" +:+ out
  else if bool_decide (out = "") then "." else out.

(** [filepath.Join]: the elements from the first non-empty one on, joined
    by the separator, and cleaned; the empty string when all are empty. *)
Fixpoint Join (elem : list string) : string :=
  match elem with
  | [] => ""
  | e :: rest =>
      if bool_decide (e = "") then Join rest
      else Clean (strings.join_slash elem)
  end.

Fixpoint has_separator (s : string) : bool :=
  match s with
  | EmptyString => false
  | String c s' => Ascii.eqb c "/" || has_separator s'
  end.

(** [path[:i+1]] for [i] the index of the last separator of [path]. *)
Fixpoint through_last_separator (path : string) : string :=
  match path with
  | EmptyString => EmptyString
  | String c s' =>
      if has_separator path then String c (through_last_separator s')
      else EmptyString
  end.

(** [filepath.Dir]. *)
Definition Dir (path : string) : string :=
  Clean (through_last_separator path).

(** What [filepath.Walk] finds at a path: [Lstat] fails, or it gives the
    file information; for a directory, reading its names fails or gives
    the entries, in the order [Walk] visits them. *)
Inductive Tree :=
| LstatFails (err : error)
| Node (info : fs.fileStat) (readdir : option error) (entries : Forest)
with Forest :=
| NoEntries
| Entry (name : string) (t : Tree) (rest : Forest).

Definition is_skip (e : error) : bool :=
  match e with
  | SkipDir | SkipAll => true
  | PathError _ _ _ => false
  end.

Section Walk.
Context {S : Type}.
(** A [filepath.WalkFunc] that updates a state of type [S]. *)
Variable fn : string -> FileInfo -> option error -> S -> option error * S.

(** [walk] of [path/filepath]: [walk path (Node info ..)] is Go's
    [walk(path, info, walkFn)], and [walk_names] is its loop over the
    names of the directory. *)
Fixpoint walk (path : string) (t : Tree) (s : S) {struct t}
  : option error * S :=
  match t with
  | LstatFails err => fn path None (Some err) s
  | Node info readdir entries =>
      if negb (fs.IsDir (fs.Mode info)) then fn path (Some info) None s
      else
        let '(err1, s) := fn path (Some info) readdir s in
        if bool_decide (is_Some readdir) || bool_decide (is_Some err1)
        then (err1, s)
        else walk_names path entries s
  end
with walk_names (path : string) (names : Forest) (s : S) {struct names}
  : option error * S :=
  match names with
  | NoEntries => (None, s)
  | Entry name t rest =>
      let filename := Join [path; name] in
      match t with
      | LstatFails err =>
          let '(r, s) := fn filename None (Some err) s in
          match r with
          | Some e => if is_skip e then walk_names path rest s else (Some e, s)
          | None => walk_names path rest s
          end
      | Node info _ _ =>
          let '(r, s) := walk filename t s in
          match r with
          | Some e =>
              if negb (fs.IsDir (fs.Mode info)) || negb (is_skip e)
              then (Some e, s)
              else walk_names path rest s
          | None => walk_names path rest s
          end
      end
  end.

(** [filepath.Walk(root, fn)]. *)
Definition Walk (root : string) (t : Tree) (s : S) : option error * S :=
  let '(err, s) :=
    match t with
    | LstatFails err => fn root None (Some err) s
    | Node _ _ _ => walk root t s
    end in
  match err with
  | Some e => if is_skip e then (None, s) else (Some e, s)
  | None => (None, s)
  end.
End Walk.

End filepath.


(** ** Package [sync]: the counter of a [WaitGroup] *)

Module sync.

Definition WaitGroup := Z.

(** [var wg sync.WaitGroup]. *)
Definition zero : WaitGroup := 0.

(** [wg.Add(delta)]: a counter that goes negative panics. *)
Definition Add (delta : Z) (wg : WaitGroup) : Outcome WaitGroup :=
  let v := wg + delta in
  if v <? 0 then Panics "sync: negative WaitGroup counter" else Returns v.

(** [wg.Done()]. *)
Definition Done (wg : WaitGroup) : Outcome WaitGroup := Add (-1) wg.

(** [wg.Wait()] returns when the counter is zero. *)
Definition Wait_returns (wg : WaitGroup) : Prop := wg = 0.

End sync.

(** ** [config.go] *)

Record GeneralConfigurations := {
  SourceDirectory : string;
  DestinationDirectory : string;
  LoopIntervalMS : Z;
  MaxConcurrentWorkers : Z
}.

Record Configurations := { General : GeneralConfigurations }.

(** ** The operations of a cycle

    [processChanges] returns closures; each is one of two calls with its
    arguments captured ([p1], [p2], [p3] in the source). *)
Inductive jobFunc :=
| func_writeFile (p1 : string) (p2 : FileInfo) (p3 : string)
| func_deleteFile (p1 : FileInfo) (p2 : string).

#[global] Instance fileStat_eq_dec : EqDecision fs.fileStat.
Proof. solve_decision. Defined.
#[global] Instance jobFunc_eq_dec : EqDecision jobFunc.
Proof. solve_decision. Defined.

(** A [for ... range] loop whose body may panic. *)
Fixpoint for_range {St A : Type} (body : St -> A -> Outcome St)
  (l : list A) (st : St) : Outcome St :=
  match l with
  | [] => Returns st
  | x :: rest => st' ← body st x; for_range body rest st'
  end.

(** ** [getDirFiles] *)

(** The function literal [getDirFiles] passes to [filepath.Walk]; [files] is
    the map it closes over. *)
Definition getDirFiles_func (srcDir : string)
  (path : string) (info : FileInfo) (err : option error)
  (files : gmap string FileInfo) : option error * gmap string FileInfo :=
  let files :=
    if bool_decide (srcDir <> path) then
      let relativePath := strings.Replace path srcDir "" 1 in
      <[relativePath := info]> files
    else files in
  (None, files).

(** [getDirFiles srcDir]; [tree] is what the file system holds at [srcDir]
    when [filepath.Walk] runs. *)
Definition getDirFiles (srcDir : string) (tree : filepath.Tree)
  : Outcome (gmap string FileInfo) :=
  let files : gmap string FileInfo := ∅ in
  let '(err, files) :=
    filepath.Walk (getDirFiles_func srcDir) srcDir tree files in
  match err with
  | Some e => Panics (fs.Error e)
  | None => Returns files
  end.

(** ** [processChanges] *)

Section processChanges.

(** The order in which a [range] over a Go map yields its entries: one
    order per map, left open. *)
Variable range : gmap string FileInfo -> list (string * FileInfo).

(** The body of the loop over [srcFiles]. *)
Definition processChanges_src (configs : Configurations)
  (st : gmap string FileInfo * sync.WaitGroup * list jobFunc)
  (entry : string * FileInfo)
  : Outcome (gmap string FileInfo * sync.WaitGroup * list jobFunc) :=
  let '(destFiles, wg, jobFunctions) := st in
  let '(srcPath, srcFile) := entry in
  '(destFiles, wg) ←
    (if bool_decide (is_Some (destFiles !! srcPath)) then
       wg ← sync.Done wg;
       mret (delete srcPath destFiles, wg)
     else mret (destFiles, wg));
  let p1 := filepath.Join [SourceDirectory (General configs); srcPath] in
  let p2 := srcFile in
  let p3 := DestinationDirectory (General configs) +:+ srcPath in
  mret (destFiles, wg, jobFunctions ++ [func_writeFile p1 p2 p3]).

(** The body of the loop over what is left of [destFiles]. *)
Definition processChanges_dest (configs : Configurations)
  (jobFunctions : list jobFunc) (entry : string * FileInfo)
  : Outcome (list jobFunc) :=
  let '(dstPath, dstFile) := entry in
  let p1 := dstFile in
  let p2 := filepath.Join [DestinationDirectory (General configs); dstPath] in
  mret (jobFunctions ++ [func_deleteFile p1 p2]).

Definition processChanges (configs : Configurations)
  (srcFiles destFiles : gmap string FileInfo) (wg : sync.WaitGroup)
  : Outcome (list jobFunc * sync.WaitGroup) :=
  let jobFunctions : list jobFunc := [] in
  '(destFiles, wg, jobFunctions) ←
    for_range (processChanges_src configs) (range srcFiles)
              (destFiles, wg, jobFunctions);
  jobFunctions ←
    for_range (processChanges_dest configs) (range destFiles) jobFunctions;
  mret (jobFunctions, wg).

(** Lines 26 to 31 of [RunScanLoop]: a fresh [WaitGroup], [wg.Add] of the
    two lengths, then [processChanges]. *)
Definition planCycle (configs : Configurations)
  (srcFiles destFiles : gmap string FileInfo)
  : Outcome (list jobFunc * sync.WaitGroup) :=
  wg ← sync.Add (Z.of_nat (size srcFiles) + Z.of_nat (size destFiles)) sync.zero;
  processChanges configs srcFiles destFiles wg.

End processChanges.

(** ** Package [os] on a model of the file system

    A file is found under the list of the names that lead to it from the
    root directory. The model has directories, regular files and special
    files (named pipes, sockets, devices); it has no symbolic links, so
    [os.Stat] and [os.Lstat] agree, and it checks no access rights: a call
    fails only for the shape of the tree (a missing file, a file where a
    directory is needed, a directory where a file is needed). *)

Module os.

Record inode := {
  i_mode : Z;                   (* an [fs.FileMode] *)
  i_modTime : Z;
  i_size : Z;                   (* the size a stat call reports *)
  i_data : list Byte.byte       (* the bytes a reader gets *)
}.

(** A line of [fmt.Printf("%v | <action> | %s\r\n", time.Now()..., path)]. *)
Record LogLine := { log_time : Z; log_action : string; log_path : string }.

Record World := {
  files : gmap (list string) inode;
  cwd : list string;            (* the working directory *)
  umask : Z;                    (* the file mode creation mask *)
  now : Z;                      (* what [time.Now()] reads *)
  stdout : list LogLine
}.

Definition set_files (w : World) (fsys : gmap (list string) inode) : World :=
  {| files := fsys; cwd := cwd w; umask := umask w; now := now w;
     stdout := stdout w |}.

(** [fmt.Printf] of a log line. *)
Definition Printf (action path : string) (w : World) : World :=
  {| files := files w; cwd := cwd w; umask := umask w; now := now w;
     stdout := stdout w ++ [{| log_time := now w; log_action := action;
                               log_path := path |}] |}.

(** Name resolution, element by element, the names so far last-first. *)
Definition resolve_elem (out : list string) (e : string) : list string :=
  if bool_decide (e = "") || bool_decide (e = ".") then out
  else if bool_decide (e = "..") then tail out
  else e :: out.

Definition resolve (w : World) (name : string) : list string :=
  let start := if strings.HasPrefix name "/" then [] else rev (cwd w) in
  rev (fold_left resolve_elem (strings.split_slash name) start).

Definition parent (key : list string) : list string := removelast key.

Definition stat_of (i : inode) : fs.fileStat :=
  {| fs.Size := i_size i; fs.Mode := i_mode i; fs.ModTime := i_modTime i |}.

Definition is_dir (i : inode) : bool := fs.IsDir (i_mode i).

(** [os.Stat(name)]. *)
Definition Stat (w : World) (name : string) : Result fs.fileStat :=
  match files w !! resolve w name with
  | Some i => Ok (stat_of i)
  | None => Err (PathError "stat" name ENOENT)
  end.

(** The bits [os.Chmod] sets: permission, setuid, setgid and sticky. *)
Definition chmod_bits : Z :=
  Z.lor fs.ModePerm (Z.lor fs.ModeSetuid (Z.lor fs.ModeSetgid fs.ModeSticky)).

Definition chmod_inode (mode : Z) (i : inode) : inode :=
  {| i_mode := Z.lor (Z.ldiff (i_mode i) chmod_bits) (Z.land mode chmod_bits);
     i_modTime := i_modTime i; i_size := i_size i; i_data := i_data i |}.

(** [os.Chmod(name, mode)]. *)
Definition Chmod (w : World) (name : string) (mode : Z) : Result World :=
  match files w !! resolve w name with
  | Some i => Ok (set_files w (<[resolve w name := chmod_inode mode i]> (files w)))
  | None => Err (PathError "chmod" name ENOENT)
  end.

Definition chtimes_inode (mtime : Z) (i : inode) : inode :=
  {| i_mode := i_mode i; i_modTime := mtime; i_size := i_size i;
     i_data := i_data i |}.

(** [os.Chtimes(name, atime, mtime)]; access times are not modelled. *)
Definition Chtimes (w : World) (name : string) (atime mtime : Z)
  : Result World :=
  match files w !! resolve w name with
  | Some i => Ok (set_files w (<[resolve w name := chtimes_inode mtime i]> (files w)))
  | None => Err (PathError "chtimes" name ENOENT)
  end.

Definition new_dir (w : World) (perm : Z) : inode :=
  {| i_mode := Z.lor fs.ModeDir (Z.ldiff (Z.land perm chmod_bits) (umask w));
     i_modTime := now w; i_size := 0; i_data := [] |}.

(** [mkdir(2)] on a resolved name. *)
Definition mkdir_key (w : World) (name : string) (key : list string)
  (perm : Z) : Result World :=
  match files w !! key with
  | Some _ => Err (PathError "mkdir" name EEXIST)
  | None =>
      match files w !! parent key with
      | None => Err (PathError "mkdir" name ENOENT)
      | Some d =>
          if is_dir d then Ok (set_files w (<[key := new_dir w perm]> (files w)))
          else Err (PathError "mkdir" name ENOTDIR)
      end
  end.

(** [os.Mkdir(name, perm)]. *)
Definition Mkdir (w : World) (name : string) (perm : Z) : Result World :=
  mkdir_key w name (resolve w name) perm.

(** [os.MkdirAll], on a resolved name given last-first: done when the
    name is a directory, an error when it is another file; else make the
    parent the same way, then [mkdir] the name (and accept a directory
    that is there after a failed [mkdir]). *)
Fixpoint mkdirAll_rev (w : World) (name : string) (rkey : list string)
  (perm : Z) : Result World :=
  match files w !! rev rkey with
  | Some i =>
      if is_dir i then Ok w else Err (PathError "mkdir" name ENOTDIR)
  | None =>
      let made_parent :=
        match rkey with
        | [] => Ok w
        | _ :: rparent => mkdirAll_rev w name rparent perm
        end in
      match made_parent with
      | Err e => Err e
      | Ok w' =>
          match mkdir_key w' name (rev rkey) perm with
          | Ok w'' => Ok w''
          | Err e =>
              match files w' !! rev rkey with
              | Some i => if is_dir i then Ok w' else Err e
              | None => Err e
              end
          end
      end
  end.

(** [os.MkdirAll(path, perm)]. *)
Definition MkdirAll (w : World) (path : string) (perm : Z) : Result World :=
  mkdirAll_rev w path (rev (resolve w path)) perm.

(** An open file, [*os.File]: the resolved name it was opened under. *)
Abbreviation File := (list string).

(** [os.Open(name)]. *)
Definition Open (w : World) (name : string) : Result File :=
  match files w !! resolve w name with
  | Some _ => Ok (resolve w name)
  | None => Err (PathError "open" name ENOENT)
  end.

Definition new_file (w : World) : inode :=
  {| i_mode := Z.ldiff 438 (umask w); (* 0666 &^ umask *)
     i_modTime := now w; i_size := 0; i_data := [] |}.

Definition truncate_inode (w : World) (i : inode) : inode :=
  {| i_mode := i_mode i; i_modTime := now w; i_size := 0; i_data := [] |}.

(** [os.Create(name)]: the file is made with mode 0666 before umask, or
    truncated when it exists. *)
Definition Create (w : World) (name : string) : Result (File * World) :=
  let key := resolve w name in
  match files w !! key with
  | Some i =>
      if is_dir i then Err (PathError "open" name EISDIR)
      else Ok (key, set_files w (<[key := truncate_inode w i]> (files w)))
  | None =>
      match files w !! parent key with
      | None => Err (PathError "open" name ENOENT)
      | Some d =>
          if is_dir d then Ok (key, set_files w (<[key := new_file w]> (files w)))
          else Err (PathError "open" name ENOTDIR)
      end
  end.

Definition append_inode (w : World) (bytes : list Byte.byte) (i : inode)
  : inode :=
  {| i_mode := i_mode i; i_modTime := now w;
     i_size := Z.of_nat (length (i_data i ++ bytes));
     i_data := i_data i ++ bytes |}.

(** [io.Copy(dst, src)]: every byte [src] yields is written to [dst]; the
    count of bytes written is returned. *)
Definition Copy (w : World) (dst src : File) : Result (Z * World) :=
  match files w !! src, files w !! dst with
  | Some from, Some to =>
      Ok (Z.of_nat (length (i_data from)),
          set_files w (<[dst := append_inode w (i_data from) to]> (files w)))
  | _, _ => Err (PathError "copy" "" EBADF)
  end.

(** [os.Remove(name)]. *)
Definition Remove (w : World) (name : string) : Result World :=
  let key := resolve w name in
  match files w !! key with
  | None => Err (PathError "remove" name ENOENT)
  | Some i =>
      if is_dir i &&
         bool_decide (map_Exists (fun k _ => key <> k /\ key `prefix_of` k) (files w))
      then Err (PathError "remove" name ENOTEMPTY)
      else Ok (set_files w (delete key (files w)))
  end.

(** [os.RemoveAll(path)]: the file and everything below it; no error when
    there is nothing at [path]. *)
Definition RemoveAll (w : World) (path : string) : Result World :=
  let key := resolve w path in
  Ok (set_files w (filter (fun kv => ¬ key `prefix_of` kv.1) (files w))).

End os.

(** ** The file operations of the program *)

Definition panic_err {A : Type} (err : error) : Outcome A := Panics (fs.Error err).

(** [validateDirExistance]. The recursion climbs from [srcPath] to its
    parent as long as the source path is not a directory; [fuel] bounds the
    climb. *)
Fixpoint validateDirExistance (fuel : nat) (srcPath destPath : string)
  (w : os.World) : Outcome os.World :=
  match fuel with
  | O => OutOfFuel
  | S fuel' =>
      match os.Stat w srcPath with
      | Err err => panic_err err
      | Ok srcPathInfo =>
          if fs.IsDir (fs.Mode srcPathInfo) then
            match os.Stat w destPath with
            | Ok _ =>
                match os.Chmod w destPath (fs.Perm (fs.Mode srcPathInfo)) with
                | Err err => panic_err err
                | Ok w => Returns w
                end
            | Err err =>
                if fs.IsNotExist err then
                  match os.MkdirAll w destPath (fs.Perm (fs.Mode srcPathInfo)) with
                  | Err err => panic_err err
                  | Ok w => Returns (os.Printf "Write" destPath w)
                  end
                else panic_err err
            end
          else
            validateDirExistance fuel' (filepath.Dir srcPath)
                                 (filepath.Dir destPath) w
      end
  end.

Definition size_mismatch (written size : Z) : string :=
  "written != sourceFileStat.Size(); " +:+ pretty written +:+ " != " +:+ pretty size.

(** [copyFile]. *)
Definition copyFile (src dst : string) (w : os.World) : Outcome os.World :=
  match os.Stat w src with
  | Err err => panic_err err
  | Ok sourceFileStat =>
      if negb (fs.IsRegular (fs.Mode sourceFileStat)) then Returns w
      else
        match os.Open w src with
        | Err err => panic_err err
        | Ok source =>
            match os.Create w dst with
            | Err err => panic_err err
            | Ok (destination, w) =>
                match os.Copy w destination source with
                | Err err => panic_err err
                | Ok (written, w) =>
                    if bool_decide (written <> fs.Size sourceFileStat)
                    then Panics (size_mismatch written (fs.Size sourceFileStat))
                    else Returns w
                end
            end
        end
  end.

(** The body of [writeFile], before the deferred [wg.Done()]. *)
Definition writeFile_body (fuel : nat) (srcPath : string) (srcFile : FileInfo)
  (path : string) (w : os.World) : Outcome os.World :=
  w ← validateDirExistance fuel srcPath path w;
  isDir ← FileInfo_IsDir srcFile;
  if negb isDir then
    srcFileModTime ← FileInfo_ModTime srcFile;
    unchanged ←
      match os.Stat w path with
      | Ok file => mret (bool_decide (fs.ModTime file = srcFileModTime))
      | Err err => if negb (fs.IsNotExist err) then panic_err err else mret false
      end;
    if (unchanged : bool) then mret w
    else
      w ← copyFile srcPath path w;
      mode ← FileInfo_Mode srcFile;
      match os.Chmod w path (fs.Perm mode) with
      | Err err => panic_err err
      | Ok w =>
          match os.Chtimes w path srcFileModTime srcFileModTime with
          | Err err => panic_err err
          | Ok w => mret (os.Printf "Write" path w)
          end
      end
  else mret w.

(** [writeFile]: the body, then [wg.Done()]. When the body panics the
    deferred call still runs, and then the process ends. *)
Definition writeFile (fuel : nat) (srcPath : string) (srcFile : FileInfo)
  (path : string) (wg : sync.WaitGroup) (w : os.World)
  : Outcome (os.World * sync.WaitGroup) :=
  w ← writeFile_body fuel srcPath srcFile path w;
  wg ← sync.Done wg;
  mret (w, wg).

(** [deleteFile]. *)
Definition deleteFile (file : FileInfo) (path : string)
  (wg : sync.WaitGroup) (w : os.World) : Outcome (os.World * sync.WaitGroup) :=
  isDir ← FileInfo_IsDir file;
  w ← (match (if (isDir : bool) then os.RemoveAll w path else os.Remove w path) with
       | Err err => panic_err err
       | Ok w => mret w
       end);
  let w := os.Printf "Remove" path w in
  wg ← sync.Done wg;
  mret (w, wg).

(** Calling a closure of [processChanges]. *)
Definition call (fuel : nat) (job : jobFunc) (wg : sync.WaitGroup)
  (w : os.World) : Outcome (os.World * sync.WaitGroup) :=
  match job with
  | func_writeFile p1 p2 p3 => writeFile fuel p1 p2 p3 wg w
  | func_deleteFile p1 p2 => deleteFile p1 p2 wg w
  end.

(** ** [RunScanLoop] as a transition system

    One [RunScanLoop] goroutine (the driver) and the goroutines it starts,
    under interleaving: a step is one action of one goroutine. What an
    operation does to the files is left out here; an operation starts, and
    then returns (its deferred [wg.Done()] is its last action) or panics
    (which ends the process). The [WaitGroup] and the two channels are
    declared inside the loop body, so each cycle has its own. *)

(** A goroutine of line 38, [go jobFunc()]. *)
Inductive TaskState :=
| TaskReady          (* started, [jobFunc()] not yet entered *)
| TaskRunning        (* inside [jobFunc()] *)
| TaskReturned.

(** A goroutine of lines 53 to 65. *)
Inductive WorkerState :=
| WorkerSelect                   (* at the [select] of line 56 *)
| WorkerRunning (job : jobFunc)  (* inside [jobFunc()], line 59 *)
| WorkerReturned.                (* after the [return] of line 62 *)

Inductive Goroutine :=
| Task (cycle : nat) (job : jobFunc) (st : TaskState)
| Worker (cycle : nat) (st : WorkerState).

(** Where the driver stands in the loop body. *)
Inductive DriverPC :=
| AtScan                                  (* line 22 *)
| AtGo (rest : list jobFunc)              (* the loop of lines 36 to 39 *)
| AtSpawn (i : Z) (jobFuncs : list jobFunc) (* the loop of lines 51 to 66 *)
| AtSend (rest : list jobFunc)            (* the loop of lines 69 to 71 *)
| AtWait                                  (* [wg.Wait()], line 42 or 74 *)
| AtSignal (i : Z)                        (* the loop of lines 77 to 79 *)
| AtSleep.                                (* line 83 *)

Record LoopState := {
  cycle : nat;
  pc : DriverPC;
  wg : nat -> sync.WaitGroup;           (* the [wg] of each cycle *)
  workerChannels : nat -> list jobFunc; (* the buffer of each cycle's channel *)
  goroutines : list Goroutine;
  jobFuncs : nat -> list jobFunc;       (* what [processChanges] returned *)
  finished : nat -> list jobFunc;       (* the operations that have returned *)
  crashed : bool                        (* a panic has ended the process *)
}.

Definition initial : LoopState :=
  {| cycle := 0; pc := AtScan; wg := fun _ => sync.zero;
     workerChannels := fun _ => []; goroutines := [];
     jobFuncs := fun _ => []; finished := fun _ => []; crashed := false |}.

Definition crash (s : LoopState) : LoopState :=
  {| cycle := cycle s; pc := pc s; wg := wg s;
     workerChannels := workerChannels s; goroutines := goroutines s;
     jobFuncs := jobFuncs s; finished := finished s; crashed := true |}.

Definition with_pc (p : DriverPC) (s : LoopState) : LoopState :=
  {| cycle := cycle s; pc := p; wg := wg s;
     workerChannels := workerChannels s; goroutines := goroutines s;
     jobFuncs := jobFuncs s; finished := finished s; crashed := crashed s |}.

Definition with_goroutines (gs : list Goroutine) (s : LoopState) : LoopState :=
  {| cycle := cycle s; pc := pc s; wg := wg s;
     workerChannels := workerChannels s; goroutines := gs;
     jobFuncs := jobFuncs s; finished := finished s; crashed := crashed s |}.

Definition with_channel (c : nat) (buf : list jobFunc) (s : LoopState)
  : LoopState :=
  {| cycle := cycle s; pc := pc s; wg := wg s;
     workerChannels := <[c := buf]> (workerChannels s);
     goroutines := goroutines s;
     jobFuncs := jobFuncs s; finished := finished s; crashed := crashed s |}.

(** A new cycle's plan: its [WaitGroup], its operations, its empty channel. *)
Definition planned (jobs : list jobFunc) (n : sync.WaitGroup) (p : DriverPC)
  (s : LoopState) : LoopState :=
  {| cycle := cycle s; pc := p; wg := <[cycle s := n]> (wg s);
     workerChannels := <[cycle s := []]> (workerChannels s);
     goroutines := goroutines s;
     jobFuncs := <[cycle s := jobs]> (jobFuncs s); finished := finished s;
     crashed := crashed s |}.

(** An operation of cycle [c] has returned: its [wg.Done()] left [n]. *)
Definition returned (c : nat) (job : jobFunc) (n : sync.WaitGroup)
  (gs : list Goroutine) (s : LoopState) : LoopState :=
  {| cycle := cycle s; pc := pc s; wg := <[c := n]> (wg s);
     workerChannels := workerChannels s; goroutines := gs;
     jobFuncs := jobFuncs s;
     finished := <[c := finished s c ++ [job]]> (finished s);
     crashed := crashed s |}.

Definition next_cycle (s : LoopState) : LoopState :=
  {| cycle := S (cycle s); pc := AtScan; wg := wg s;
     workerChannels := workerChannels s; goroutines := goroutines s;
     jobFuncs := jobFuncs s; finished := finished s; crashed := crashed s |}.

Section RunScanLoop.

Variable range : gmap string FileInfo -> list (string * FileInfo).
Variable configs : Configurations.

Let maxWorkers : Z := MaxConcurrentWorkers (General configs).

Inductive step : LoopState -> LoopState -> Prop :=
(* lines 22 to 34: the two scans, the WaitGroup, the plan *)
| step_plan s srcTree destTree srcFiles destFiles jobs n :
    crashed s = false -> pc s = AtScan ->
    getDirFiles (SourceDirectory (General configs)) srcTree = Returns srcFiles ->
    getDirFiles (DestinationDirectory (General configs)) destTree = Returns destFiles ->
    planCycle range configs srcFiles destFiles = Returns (jobs, n) ->
    step s (planned jobs n
              (if maxWorkers <? 1 then AtGo jobs else AtSpawn 0 jobs) s)
| step_plan_panics s srcTree destTree srcFiles destFiles msg :
    crashed s = false -> pc s = AtScan ->
    getDirFiles (SourceDirectory (General configs)) srcTree = Returns srcFiles ->
    getDirFiles (DestinationDirectory (General configs)) destTree = Returns destFiles ->
    planCycle range configs srcFiles destFiles = Panics msg ->
    step s (crash s)
| step_scan_panics s dir tree msg :
    crashed s = false -> pc s = AtScan ->
    dir = SourceDirectory (General configs) \/
    dir = DestinationDirectory (General configs) ->
    getDirFiles dir tree = Panics msg ->
    step s (crash s)
(* lines 36 to 39: [go jobFunc()] *)
| step_go s job rest :
    crashed s = false -> pc s = AtGo (job :: rest) ->
    step s (with_pc (AtGo rest)
              (with_goroutines (goroutines s ++ [Task (cycle s) job TaskReady]) s))
| step_go_end s :
    crashed s = false -> pc s = AtGo [] ->
    step s (with_pc AtWait s)
(* a goroutine of line 38 *)
| step_task_starts s gs1 gs2 c job :
    crashed s = false ->
    goroutines s = gs1 ++ Task c job TaskReady :: gs2 ->
    step s (with_goroutines (gs1 ++ Task c job TaskRunning :: gs2) s)
| step_task_returns s gs1 gs2 c job n :
    crashed s = false ->
    goroutines s = gs1 ++ Task c job TaskRunning :: gs2 ->
    sync.Done (wg s c) = Returns n ->
    step s (returned c job n (gs1 ++ Task c job TaskReturned :: gs2) s)
| step_task_panics s gs1 gs2 c job :
    crashed s = false ->
    goroutines s = gs1 ++ Task c job TaskRunning :: gs2 ->
    step s (crash s)
(* lines 47 to 66: the channel and the workers *)
| step_spawn s i jobs :
    crashed s = false -> pc s = AtSpawn i jobs -> i < maxWorkers ->
    step s (with_pc (AtSpawn (i + 1) jobs)
              (with_goroutines (goroutines s ++ [Worker (cycle s) WorkerSelect]) s))
| step_spawn_end s i jobs :
    crashed s = false -> pc s = AtSpawn i jobs -> ~ i < maxWorkers ->
    step s (with_pc (AtSend jobs) s)
(* lines 69 to 71: a send blocks while the buffer is full *)
| step_send s job rest :
    crashed s = false -> pc s = AtSend (job :: rest) ->
    Z.of_nat (length (workerChannels s (cycle s))) < maxWorkers ->
    step s (with_pc (AtSend rest)
              (with_channel (cycle s) (workerChannels s (cycle s) ++ [job]) s))
| step_send_end s :
    crashed s = false -> pc s = AtSend [] ->
    step s (with_pc AtWait s)
(* a worker, lines 55 to 64 *)
| step_worker_receives s gs1 gs2 c job buf :
    crashed s = false ->
    goroutines s = gs1 ++ Worker c WorkerSelect :: gs2 ->
    workerChannels s c = job :: buf ->
    step s (with_channel c buf
              (with_goroutines (gs1 ++ Worker c (WorkerRunning job) :: gs2) s))
| step_worker_returns s gs1 gs2 c job n :
    crashed s = false ->
    goroutines s = gs1 ++ Worker c (WorkerRunning job) :: gs2 ->
    sync.Done (wg s c) = Returns n ->
    step s (returned c job n (gs1 ++ Worker c WorkerSelect :: gs2) s)
| step_worker_panics s gs1 gs2 c job :
    crashed s = false ->
    goroutines s = gs1 ++ Worker c (WorkerRunning job) :: gs2 ->
    step s (crash s)
(* an operation whose [wg.Done()] panics *)
| step_done_panics s g c job msg :
    crashed s = false -> g ∈ goroutines s ->
    g = Task c job TaskRunning \/ g = Worker c (WorkerRunning job) ->
    sync.Done (wg s c) = Panics msg ->
    step s (crash s)
(* line 42 or 74: [wg.Wait()] returns when the counter is zero *)
| step_wait s :
    crashed s = false -> pc s = AtWait ->
    sync.Wait_returns (wg s (cycle s)) ->
    step s (with_pc (if maxWorkers <? 1 then AtSleep else AtSignal 0) s)
(* lines 77 to 79: a send on the unbuffered [doneSignal] meets a worker
   at its [select] *)
| step_signal s i gs1 gs2 :
    crashed s = false -> pc s = AtSignal i -> i < maxWorkers ->
    goroutines s = gs1 ++ Worker (cycle s) WorkerSelect :: gs2 ->
    step s (with_pc (AtSignal (i + 1))
              (with_goroutines (gs1 ++ Worker (cycle s) WorkerReturned :: gs2) s))
| step_signal_end s i :
    crashed s = false -> pc s = AtSignal i -> ~ i < maxWorkers ->
    step s (with_pc AtSleep s)
(* line 83, and back to line 22 *)
| step_sleep s :
    crashed s = false -> pc s = AtSleep ->
    step s (next_cycle s).

Inductive reachable : LoopState -> Prop :=
| reachable_initial : reachable initial
| reachable_step s s' : reachable s -> step s s' -> reachable s'.

End RunScanLoop.

(** ** Notions used to state the properties *)

(** The operation of cycle [c] a goroutine holds: one it is about to run or
    is running. *)
Definition held_by (c : nat) (g : Goroutine) : list jobFunc :=
  match g with
  | Task c' job TaskReady | Task c' job TaskRunning
  | Worker c' (WorkerRunning job) => if decide (c' = c) then [job] else []
  | Task _ _ TaskReturned | Worker _ WorkerSelect | Worker _ WorkerReturned => []
  end.

Definition held (c : nat) (gs : list Goroutine) : list jobFunc :=
  flat_map (held_by c) gs.

(** The operations of cycle [c] the driver has not handed out yet. *)
Definition undispatched (s : LoopState) (c : nat) : list jobFunc :=
  if decide (c = cycle s) then
    match pc s with
    | AtGo rest | AtSend rest | AtSpawn _ rest => rest
    | AtScan | AtWait | AtSignal _ | AtSleep => []
    end
  else [].

(** The operations of cycle [c] that have not returned: with the driver, in
    the channel, or held by a goroutine. *)
Definition in_flight (s : LoopState) (c : nat) : list jobFunc :=
  undispatched s c ++ workerChannels s c ++ held c (goroutines s).

(** The driver is past [wg.Wait()] in the loop body. *)
Definition past_barrier (p : DriverPC) : bool :=
  match p with
  | AtSignal _ | AtSleep => true
  | AtScan | AtGo _ | AtSpawn _ _ | AtSend _ | AtWait => false
  end.

(** Cycle [c] is behind the barrier: the driver has passed its
    [wg.Wait()], or is in a later cycle (whose scan comes first). *)
Definition behind_barrier (s : LoopState) (c : nat) : Prop :=
  (c < cycle s)%nat \/ (c = cycle s /\ past_barrier (pc s) = true).

(** A cycle that has not been planned yet. *)
Definition unplanned (s : LoopState) (c : nat) : Prop :=
  (cycle s < c)%nat \/ (c = cycle s /\ pc s = AtScan).

Definition cycle_of (g : Goroutine) : nat :=
  match g with Task c _ _ | Worker c _ => c end.

(** A goroutine that is inside a call of an operation. *)
Definition is_running (g : Goroutine) : bool :=
  match g with
  | Task _ _ TaskRunning | Worker _ (WorkerRunning _) => true
  | _ => false
  end.

(** The number of operations executing at this instant. *)
Definition running (s : LoopState) : nat :=
  length (List.filter is_running (goroutines s)).

Definition is_task (g : Goroutine) : bool :=
  match g with Task _ _ _ => true | Worker _ _ => false end.

(** A worker of cycle [c] that has not returned. *)
Definition live_worker (c : nat) (g : Goroutine) : bool :=
  match g with
  | Worker c' WorkerSelect | Worker c' (WorkerRunning _) => bool_decide (c' = c)
  | _ => false
  end.

Definition workers (s : LoopState) (c : nat) : nat :=
  length (List.filter (live_worker c) (goroutines s)).

(** The operations the task goroutines of cycle [c] were started for, in
    the order they were started. *)
Definition task_of (c : nat) (g : Goroutine) : list jobFunc :=
  match g with
  | Task c' job _ => if decide (c' = c) then [job] else []
  | Worker _ _ => []
  end.

Definition tasks (s : LoopState) (c : nat) : list jobFunc :=
  flat_map (task_of c) (goroutines s).

(** The number of live workers the loop body has at each of its points. *)
Definition workers_expected (maxWorkers : Z) (s : LoopState) (c : nat) : Z :=
  if decide (c = cycle s) then
    match pc s with
    | AtSpawn i _ => i
    | AtSend _ | AtWait => Z.max maxWorkers 0
    | AtSignal i => Z.max maxWorkers 0 - i
    | AtScan | AtGo _ | AtSleep => 0
    end
  else 0.

(** The invariant of the loop behind the barrier property. *)
Record barrier_invariant (s : LoopState) : Prop := {
  inv_accounted : forall c, jobFuncs s c ≡ₚ finished s c ++ in_flight s c;
  inv_counter : forall c, wg s c = Z.of_nat (length (in_flight s c));
  inv_unplanned : forall c, unplanned s c ->
    jobFuncs s c = [] /\ finished s c = [] /\ workerChannels s c = []
    /\ (forall g, g ∈ goroutines s -> cycle_of g <> c);
  inv_settled : forall c, behind_barrier s c -> in_flight s c = []
}.

(** The invariant of the loop behind the bounds of the worker pool. *)
Record pool_invariant (maxWorkers : Z) (s : LoopState) : Prop := {
  pool_mode : if maxWorkers <? 1
              then (forall g, g ∈ goroutines s -> is_task g = true)
                   /\ (forall c, workerChannels s c = [])
                   /\ match pc s with
                      | AtSpawn _ _ | AtSend _ | AtSignal _ => False
                      | _ => True
                      end
              else (forall g, g ∈ goroutines s -> is_task g = false)
                   /\ match pc s with AtGo _ => False | _ => True end;
  pool_index : match pc s with
               | AtSpawn i _ | AtSignal i => 0 <= i <= Z.max maxWorkers 0
               | _ => True
               end;
  pool_workers : forall c,
    Z.of_nat (workers s c) = workers_expected maxWorkers s c;
  pool_channel : forall c,
    Z.of_nat (length (workerChannels s c)) <= Z.max maxWorkers 0;
  pool_tasks : forall c,
    maxWorkers < 1 -> tasks s c ++ undispatched s c = jobFuncs s c
}.

(** The closures the two loops of [processChanges] build from an entry of
    a snapshot (a relative path and its file information). *)
Definition write_of (configs : Configurations) (entry : string * FileInfo)
  : jobFunc :=
  func_writeFile
    (filepath.Join [SourceDirectory (General configs); entry.1])
    entry.2
    (DestinationDirectory (General configs) +:+ entry.1).

Definition delete_of (configs : Configurations) (entry : string * FileInfo)
  : jobFunc :=
  func_deleteFile entry.2
    (filepath.Join [DestinationDirectory (General configs); entry.1]).

Definition is_write (job : jobFunc) : bool :=
  match job with func_writeFile _ _ _ => true | func_deleteFile _ _ => false end.

Definition is_delete (job : jobFunc) : bool := negb (is_write job).

(** How often a relative path occurs among entries. *)
Definition occurrences (p : string) (entries : list (string * FileInfo)) : nat :=
  length (filter (fun e => e.1 = p) entries).

(** Every name on the way to [key], [key] included, is a directory where
    it exists, and the root directory exists: what [os.MkdirAll] needs to
    succeed at [key]. *)
Definition dir_ready (w : os.World) (key : list string) : bool :=
  bool_decide (is_Some (os.files w !! []))
  && forallb (fun n => match os.files w !! take n key with
                       | Some i => os.is_dir i
                       | None => true
                       end)
             (seq 0 (S (length key))).

(** The file at [key] mirrors a source file: its bytes, and the permission
    bits and modification time of the source record; the last line printed
    reports the Write of [path]. *)
Definition mirrored (w : os.World) (key : list string) (path : string)
  (data : list Byte.byte) (srcFile : fs.fileStat) : Prop :=
  exists i,
    os.files w !! key = Some i
    /\ os.i_data i = data
    /\ os.i_size i = Z.of_nat (length data)
    /\ fs.Perm (os.i_mode i) = fs.Perm (fs.Mode srcFile)
    /\ os.i_modTime i = fs.ModTime srcFile
    /\ last (os.stdout w)
       = Some {| os.log_time := os.now w; os.log_action := "Write";
                 os.log_path := path |}.

(** The file at [key] keeps the bytes and the type it had in [old], and
    has the permission bits and modification time of the source record;
    the last line printed reports the Write of [path]. *)
Definition restamped (w : os.World) (key : list string) (path : string)
  (old : os.inode) (srcFile : fs.fileStat) : Prop :=
  exists i,
    os.files w !! key = Some i
    /\ os.i_data i = os.i_data old
    /\ os.i_size i = os.i_size old
    /\ Z.land (os.i_mode i) fs.ModeType = Z.land (os.i_mode old) fs.ModeType
    /\ fs.Perm (os.i_mode i) = fs.Perm (fs.Mode srcFile)
    /\ os.i_modTime i = fs.ModTime srcFile
    /\ last (os.stdout w)
       = Some {| os.log_time := os.now w; os.log_action := "Write";
                 os.log_path := path |}.

(** [w'] differs from [w] in its files at most. *)
Definition same_env (w w' : os.World) : Prop :=
  os.cwd w' = os.cwd w /\ os.umask w' = os.umask w /\ os.now w' = os.now w
  /\ os.stdout w' = os.stdout w.

Scheme Tree_Forest_ind := Induction for filepath.Tree Sort Prop
  with Forest_Tree_ind := Induction for filepath.Forest Sort Prop.
Combined Scheme Tree_Forest_mutind from Tree_Forest_ind, Forest_Tree_ind.

(** A directory tree for examples: a directory that holds one regular
    file. *)
Definition a_directory : fs.fileStat :=
  {| fs.Size := 4096; fs.Mode := Z.lor fs.ModeDir 493; fs.ModTime := 1000 |}.

Definition a_regular_file : fs.fileStat :=
  {| fs.Size := 1; fs.Mode := 420; fs.ModTime := 2000 |}.

Definition tree_with_one_file (name : string) : filepath.Tree :=
  filepath.Node a_directory None
    (filepath.Entry name (filepath.Node a_regular_file None filepath.NoEntries)
       filepath.NoEntries).

(** The same directory when reading its names fails. *)
Definition unreadable_directory (name : string) : filepath.Tree :=
  filepath.Node a_directory (Some (PathError "open" name ENOENT))
    (filepath.Entry "a.txt" (filepath.Node a_regular_file None filepath.NoEntries)
       filepath.NoEntries).

(** A file system for examples. Under [/s]: the directories [a] (mode
    0700) and [a/b] (0755), the regular file [a/b/f] and the named pipes
    [pipe] and [fifo]. Under [/d]: the directories [a] (0755) and [a/b]
    (0711), an older [a/b/f] and an older [fifo]. *)
Definition dir_inode (perm : Z) : os.inode :=
  {| os.i_mode := Z.lor fs.ModeDir perm; os.i_modTime := 100;
     os.i_size := 4096; os.i_data := [] |}.

Definition file_inode (perm mtime : Z) (data : list Byte.byte) : os.inode :=
  {| os.i_mode := perm; os.i_modTime := mtime;
     os.i_size := Z.of_nat (length data); os.i_data := data |}.

Definition pipe_inode (perm mtime : Z) : os.inode :=
  {| os.i_mode := Z.lor fs.ModeNamedPipe perm; os.i_modTime := mtime;
     os.i_size := 0; os.i_data := [] |}.

Definition example_world : os.World :=
  {| os.files := list_to_map
       [ ([], dir_inode 493);
         (["s"], dir_inode 493);
         (["s"; "a"], dir_inode 448);
         (["s"; "a"; "b"], dir_inode 493);
         (["s"; "a"; "b"; "f"], file_inode 420 2000 [Byte.x58]);
         (["s"; "pipe"], pipe_inode 420 3000);
         (["s"; "fifo"], pipe_inode 416 3000);
         (["d"; "fifo"], pipe_inode 420 1500);
         (["d"], dir_inode 493);
         (["d"; "a"], dir_inode 493);
         (["d"; "a"; "b"], dir_inode 457);
         (["d"; "a"; "b"; "f"], file_inode 384 1500 [Byte.x6f; Byte.x6c; Byte.x64]) ];
     os.cwd := []; os.umask := 18; os.now := 5000; os.stdout := [] |}.

(** The records a scan of [/s] gives for [a/b/f] and for [pipe]. *)
Definition f_record : fs.fileStat :=
  {| fs.Size := 1; fs.Mode := 420; fs.ModTime := 2000 |}.

Definition pipe_record : fs.fileStat :=
  {| fs.Size := 0; fs.Mode := Z.lor fs.ModeNamedPipe 420; fs.ModTime := 3000 |}.

Definition fifo_record : fs.fileStat :=
  {| fs.Size := 0; fs.Mode := Z.lor fs.ModeNamedPipe 416; fs.ModTime := 3000 |}.

(** Snapshots and a configuration for examples. *)
Definition example_configs : Configurations :=
  {| General := {| SourceDirectory := "/s"; DestinationDirectory := "/d";
                   LoopIntervalMS := 60000; MaxConcurrentWorkers := 2 |} |}.

Definition example_srcFiles : gmap string FileInfo :=
  list_to_map [ ("/a", Some (os.stat_of (dir_inode 448)));
                ("/a/b", Some (os.stat_of (dir_inode 493)));
                ("/a/b/f", Some f_record);
                ("/pipe", Some pipe_record) ].

Definition example_destFiles : gmap string FileInfo :=
  list_to_map [ ("/a", Some (os.stat_of (dir_inode 493)));
                ("/a/b", Some (os.stat_of (dir_inode 457)));
                ("/old", Some (os.stat_of (file_inode 420 1500 []))) ].

(** Two runs of the loop for examples. The source directory holds the one
    file [a.txt] and the destination directory does not exist, so a cycle
    has one operation. *)
Definition example_unbounded : Configurations :=
  {| General := {| SourceDirectory := "/s"; DestinationDirectory := "/d";
                   LoopIntervalMS := 60000; MaxConcurrentWorkers := 0 |} |}.

Definition example_job : jobFunc :=
  func_writeFile "/s/a.txt" (Some a_regular_file) "/d/a.txt".

(** Without a limit: the plan, the goroutine of the operation, its run and
    return, the barrier, the sleep, and the start of cycle 1. *)
Definition unbounded_1 : LoopState :=
  planned [example_job] 1 (AtGo [example_job]) initial.
Definition unbounded_2 : LoopState :=
  with_pc (AtGo [])
    (with_goroutines (goroutines unbounded_1 ++ [Task 0 example_job TaskReady])
       unbounded_1).
Definition unbounded_3 : LoopState := with_pc AtWait unbounded_2.
Definition unbounded_4 : LoopState :=
  with_goroutines ([] ++ Task 0 example_job TaskRunning :: []) unbounded_3.
Definition unbounded_5 : LoopState :=
  returned 0 example_job 0 ([] ++ Task 0 example_job TaskReturned :: [])
    unbounded_4.
Definition unbounded_6 : LoopState := with_pc AtSleep unbounded_5.
Definition unbounded_7 : LoopState := next_cycle unbounded_6.

(** With two workers: the plan, the two workers, the send, and the first
    worker inside the operation. *)
Definition bounded_1 : LoopState :=
  planned [example_job] 1 (AtSpawn 0 [example_job]) initial.
Definition bounded_2 : LoopState :=
  with_pc (AtSpawn (0 + 1) [example_job])
    (with_goroutines (goroutines bounded_1 ++ [Worker 0 WorkerSelect]) bounded_1).
Definition bounded_3 : LoopState :=
  with_pc (AtSpawn (0 + 1 + 1) [example_job])
    (with_goroutines (goroutines bounded_2 ++ [Worker 0 WorkerSelect]) bounded_2).
Definition bounded_4 : LoopState := with_pc (AtSend [example_job]) bounded_3.
Definition bounded_5 : LoopState :=
  with_pc (AtSend [])
    (with_channel 0 (workerChannels bounded_4 0 ++ [example_job]) bounded_4).
Definition bounded_6 : LoopState :=
  with_channel 0 []
    (with_goroutines ([] ++ Worker 0 (WorkerRunning example_job)
                         :: [Worker 0 WorkerSelect]) bounded_5).

(** ** [config.go]: reading the configurations, and [main]

    [config.go] works on the global viper of package [viper]. The model
    keeps the calls made on it, in order; what [viper.ReadInConfig] and
    [viper.Unmarshal] return is decided by that library and by the files
    it finds, and is left open here: a function of the calls made so
    far. *)

Module viper.

Inductive Call :=
| AddConfigPath (p : string)
| SetConfigName (n : string)
| SetConfigType (t : string)
| ReadInConfig
| SetDefault (key : string) (value : Z)
| Unmarshal.

End viper.

(** The two bytes a Go string literal writes as a carriage return and a
    line feed. *)
Definition CRLF : string := String "013" (String "010" EmptyString).

Section config.

(** [viper.ReadInConfig()]: nil, or an error, given by its text. *)
Variable readInConfig : list viper.Call -> option string.
(** [viper.Unmarshal(&config)]: the record decoded, or the text of an
    error. *)
Variable unmarshal : list viper.Call -> Configurations + string.

(** [fromFile]. *)
Definition fromFile (name : string) (v : list viper.Call)
  : Outcome (Configurations * list viper.Call) :=
  let configDir := filepath.Dir name in
  let v :=
    if (String.length configDir <? 1)%nat then
      v ++ [viper.AddConfigPath "."; viper.SetConfigName name]
    else
      let configFileName := strings.Replace name configDir "" 1 in
      v ++ [viper.AddConfigPath configDir; viper.SetConfigName configFileName] in
  let v := v ++ [viper.SetConfigType "yml"] in
  match readInConfig v with
  | Some err => Panics ("Error reading config file; " +:+ err +:+ CRLF)
  | None =>
      let v := v ++ [viper.ReadInConfig;
                     viper.SetDefault "general.loopIntervalMS" 60000;
                     viper.SetDefault "general.maxConcurrentWorkers" 100] in
      match unmarshal v with
      | inr err => Panics ("Error decoding config file; " +:+ err +:+ CRLF)
      | inl config =>
          if (String.length (DestinationDirectory (General config)) <? 1)%nat
          then Panics "Destination directory is not configured"
          else if (String.length (SourceDirectory (General config)) <? 1)%nat
          then Panics "Source directory is not configured"
          else Returns (config, v ++ [viper.Unmarshal])
      end
  end.

(** [ReadFromFile]. *)
Definition ReadFromFile (filePaths : list string) (v : list viper.Call)
  : Outcome (list Configurations * list viper.Call) :=
  let configs : list Configurations := [] in
  for_range (fun '(configs, v) arg =>
               '(config, v) ← fromFile arg v;
               mret (configs ++ [config], v))
            filePaths (configs, v).

(** [main], up to the [fmt.Scanln()] it then blocks in: the
    configurations of the [RunScanLoop] goroutines it has started, in the
    order of their [go] statements, and the line it has printed. *)
Definition main (Args : list string) (v : list viper.Call)
  : Outcome (list Configurations * list string) :=
  if (length Args <? 2)%nat then Panics "Config file name argument is missing"
  else
    let configFiles := drop 1 Args in
    '(configs, v) ← ReadFromFile configFiles v;
    started ← for_range (fun started config => mret (started ++ [config]))
                        configs [];
    mret (started, ["Running, press Enter key to terminate"]).

End config.

(** ** More notions used to state the properties *)

(** The record a closure of [processChanges] has captured. *)
Definition record_of (job : jobFunc) : FileInfo :=
  match job with
  | func_writeFile _ p2 _ => p2
  | func_deleteFile p1 _ => p1
  end.

(** The line [deleteFile] prints. *)
Definition Remove_line (w : os.World) (path : string) : os.LogLine :=
  {| os.log_time := os.now w; os.log_action := "Remove"; os.log_path := path |}.

(** The line [writeFile] and [validateDirExistance] print. *)
Definition Write_line (w : os.World) (path : string) : os.LogLine :=
  {| os.log_time := os.now w; os.log_action := "Write"; os.log_path := path |}.

(** [filepath.Walk] has nothing to visit below the root: [Lstat] of the
    root fails, the root is not a directory, or its names cannot be read. *)
Definition nothing_to_read (t : filepath.Tree) : bool :=
  match t with
  | filepath.LstatFails _ => true
  | filepath.Node info readdir _ =>
      negb (fs.IsDir (fs.Mode info)) || bool_decide (is_Some readdir)
  end.

(** A name of a directory entry: not empty, without separator, and neither
    [.] nor [..]. *)
Definition is_name (e : string) : bool :=
  negb (bool_decide (e = "")) && negb (filepath.has_separator e)
  && negb (bool_decide (e = ".")) && negb (bool_decide (e = "..")).

(** The names below a path, each after a separator. *)
Fixpoint rel (rs : list string) : string :=
  match rs with
  | [] => ""
  | n :: rs => "/" +:+ n +:+ rel rs
  end.

(** The clean path of the names [es], from the root directory or not. *)
Definition path_of (rooted : bool) (es : list string) : string :=
  (if rooted then "/" else "") +:+ strings.join_slash es.

(** Every entry of the tree has a name. *)
Fixpoint names_ok (t : filepath.Tree) : bool :=
  match t with
  | filepath.LstatFails _ => true
  | filepath.Node _ _ entries => forest_names_ok entries
  end
with forest_names_ok (f : filepath.Forest) : bool :=
  match f with
  | filepath.NoEntries => true
  | filepath.Entry name t rest =>
      is_name name && names_ok t && forest_names_ok rest
  end.

(** All keys of a snapshot are names below the root, each after a
    separator. *)
Definition keys_below (files : gmap string FileInfo) : Prop :=
  forall k, is_Some (files !! k) ->
    exists rs, rs <> [] /\ Forall (fun e => is_name e = true) rs /\ k = rel rs.

(** All keys of a snapshot are names joined by the separator, with no
    separator in front. *)
Definition keys_flat (files : gmap string FileInfo) : Prop :=
  forall k, is_Some (files !! k) ->
    exists n rs, Forall (fun e => is_name e = true) (n :: rs)
                 /\ k = strings.join_slash (n :: rs).

(** [w'] differs from [w] at most in the files at the names [P] holds
    of, and in what has been printed. *)
Definition changes_within (P : list string -> Prop) (w w' : os.World) : Prop :=
  os.cwd w' = os.cwd w
  /\ forall k, ~ P k -> os.files w' !! k = os.files w !! k.

(** The calls [fromFile] makes on the global viper when it returns, given
    the search path and the configuration name it has computed. *)
Definition calls_of (dir name : string) : list viper.Call :=
  [viper.AddConfigPath dir; viper.SetConfigName name;
   viper.SetConfigType "yml"; viper.ReadInConfig;
   viper.SetDefault "general.loopIntervalMS" 60000;
   viper.SetDefault "general.maxConcurrentWorkers" 100; viper.Unmarshal].

(** Those calls for the file [arg]. *)
Definition location_calls (arg : string) : list viper.Call :=
  calls_of (filepath.Dir arg) (strings.Replace arg (filepath.Dir arg) "" 1).

(** Both directories of a configuration are set. *)
Definition configured (config : Configurations) : Prop :=
  SourceDirectory (General config) <> ""
  /\ DestinationDirectory (General config) <> "".

Fixpoint has_dot (s : string) : bool :=
  match s with
  | EmptyString => false
  | String c s' => Ascii.eqb c "." || has_dot s'
  end.

(** What is in a tree under the names [rs]: the record [filepath.Walk]
    hands to its function there (nil when [Lstat] fails), if the walk gets
    there: through directories whose names can be read. Of two entries of
    one name, which no directory has, the later counts. *)
Fixpoint tree_find (t : filepath.Tree) (rs : list string) {struct t}
  : option FileInfo :=
  match rs with
  | [] => Some (match t with
                | filepath.LstatFails _ => None
                | filepath.Node info _ _ => Some info
                end)
  | n :: rs' =>
      match t with
      | filepath.Node info None entries =>
          if fs.IsDir (fs.Mode info) then forest_find entries n rs' else None
      | _ => None
      end
  end
with forest_find (f : filepath.Forest) (n : string) (rs : list string)
  {struct f} : option FileInfo :=
  match f with
  | filepath.NoEntries => None
  | filepath.Entry name t rest =>
      match forest_find rest n rs with
      | Some x => Some x
      | None => if bool_decide (name = n) then tree_find t rs else None
      end
  end.

(** The entry found, or else what was there. *)
Definition overlay {A} (found old : option A) : option A :=
  match found with Some x => Some x | None => old end.

(** More data for examples: the run with two workers when the operation
    panics, a record with the time of the older [/d/a/b/f], a source
    directory written with a separator at its end, and a viper that finds
    and decodes every file. *)
Definition bounded_7 : LoopState := crash bounded_6.

Definition unchanged_record : fs.fileStat :=
  {| fs.Size := 1; fs.Mode := 420; fs.ModTime := 1500 |}.

Definition example_trailing : Configurations :=
  {| General := {| SourceDirectory := "/s/"; DestinationDirectory := "/d";
                   LoopIntervalMS := 60000; MaxConcurrentWorkers := 2 |} |}.

Definition example_readInConfig : list viper.Call -> option string :=
  fun _ => None.

Definition example_unmarshal : list viper.Call -> Configurations + string :=
  fun _ => inl example_configs.

(* ===================================================================== *)
(** * Part II. Properties                                                  *)
(* ===================================================================== *)

(** ** Outcomes *)

Lemma bind_Returns {A B} (m : Outcome A) (k : A -> Outcome B) b :
  m ≫= k = Returns b -> exists a, m = Returns a /\ k a = Returns b.
Proof. destruct m; simpl; intros H; try discriminate. eauto. Qed.

Lemma bind_of_Returns {A B} (m : Outcome A) (k : A -> Outcome B) a :
  m = Returns a -> m ≫= k = k a.
Proof. by intros ->. Qed.

(** ** The planner *)

Section planner_properties.

Variable range : gmap string FileInfo -> list (string * FileInfo).
Hypothesis range_order : forall m, range m ≡ₚ map_to_list m.
Variable configs : Configurations.

Lemma processChanges_src_hit destFiles (wg : Z) jobs srcPath srcFile :
  is_Some (destFiles !! srcPath) -> 0 < wg ->
  processChanges_src configs (destFiles, wg, jobs) (srcPath, srcFile)
  = Returns (delete srcPath destFiles, wg - 1,
             jobs ++ [write_of configs (srcPath, srcFile)]).
Proof.
  intros Hin Hwg. unfold processChanges_src.
  rewrite bool_decide_eq_true_2 by done.
  unfold sync.Done, sync.Add.
  destruct (Z.ltb_spec (wg + -1) 0) as [Hneg|Hok]; [lia|].
  replace (wg + -1) with (wg - 1) by lia. reflexivity.
Qed.

Lemma processChanges_src_miss destFiles (wg : Z) jobs srcPath srcFile :
  destFiles !! srcPath = None ->
  processChanges_src configs (destFiles, wg, jobs) (srcPath, srcFile)
  = Returns (destFiles, wg, jobs ++ [write_of configs (srcPath, srcFile)]).
Proof.
  intros Hnone. unfold processChanges_src.
  rewrite bool_decide_eq_false_2; [reflexivity|].
  rewrite Hnone. by intros [? ?].
Qed.

(** What the loop over [srcFiles] leaves of [destFiles] and of the
    counter: the counter loses one for each entry the map loses. *)
Lemma for_range_src l :
  forall destFiles (wg : Z) jobs,
    Z.of_nat (size destFiles) <= wg ->
    exists wg',
      for_range (processChanges_src configs) l (destFiles, wg, jobs)
      = Returns (foldl (fun d e => delete e.1 d) destFiles l, wg',
                 jobs ++ map (write_of configs) l)
      /\ wg' - Z.of_nat (size (foldl (fun d e => delete e.1 d) destFiles l))
         = wg - Z.of_nat (size destFiles).
Proof.
  induction l as [|[srcPath srcFile] l IH]; intros destFiles wg jobs Hwg.
  - exists wg. simpl. rewrite app_nil_r. split; [done | lia].
  - cbn [for_range foldl map fst].
    destruct (destFiles !! srcPath) as [v|] eqn:Hv.
    + pose proof (map_size_delete_Some srcPath destFiles (ltac:(eauto))) as Hsz.
      assert (0 < size destFiles)%nat as Hpos.
      { destruct (size destFiles) eqn:Hz; [|lia].
        apply map_size_empty_iff in Hz. subst destFiles.
        by rewrite lookup_empty in Hv. }
      rewrite processChanges_src_hit by (eauto || lia).
      destruct (IH (delete srcPath destFiles) (wg - 1)
                   (jobs ++ [write_of configs (srcPath, srcFile)]))
        as (wg' & Heq & Hcount); [lia|].
      exists wg'. rewrite <- app_assoc in Heq. split; [exact Heq | lia].
    + rewrite processChanges_src_miss by done.
      destruct (IH destFiles wg
                   (jobs ++ [write_of configs (srcPath, srcFile)]))
        as (wg' & Heq & Hcount); [lia|].
      exists wg'. rewrite <- app_assoc in Heq.
      rewrite (delete_id destFiles srcPath Hv).
      split; [exact Heq | lia].
Qed.

Lemma processChanges_dest_eq jobs entry :
  processChanges_dest configs jobs entry
  = Returns (jobs ++ [delete_of configs entry]).
Proof. by destruct entry. Qed.

Lemma for_range_dest l :
  forall jobs,
    for_range (processChanges_dest configs) l jobs
    = Returns (jobs ++ map (delete_of configs) l).
Proof.
  induction l as [|[dstPath dstFile] l IH]; intros jobs.
  - simpl. by rewrite app_nil_r.
  - cbn [for_range map]. rewrite processChanges_dest_eq.
    change (Returns ?x ≫= ?k) with (k x). cbn beta.
    rewrite IH, <- app_assoc. reflexivity.
Qed.

(** Deleting the paths of [l] from [d], one by one. *)
Lemma lookup_foldl_delete (l : list (string * FileInfo)) :
  forall (d : gmap string FileInfo) p,
    foldl (fun d e => delete e.1 d) d l !! p
    = if bool_decide (p ∈ l.*1) then None else d !! p.
Proof.
  induction l as [|[k v] l IH]; intros d p; cbn [foldl].
  - rewrite bool_decide_eq_false_2; [done | set_solver].
  - rewrite IH. cbn [fst]. rewrite fmap_cons. cbn [fst].
    destruct (decide (p = k)) as [->|Hne].
    + rewrite lookup_delete_eq.
      rewrite (bool_decide_eq_true_2 (k ∈ k :: l.*1)) by set_solver.
      by case_bool_decide.
    + rewrite lookup_delete_ne by done.
      case_bool_decide as H1; case_bool_decide as H2; try done.
      * exfalso. apply H2. apply elem_of_cons. by right.
      * exfalso. apply H1. apply elem_of_cons in H2 as [?|?]; done.
Qed.

Lemma elem_of_range_keys (m : gmap string FileInfo) p :
  p ∈ (range m).*1 <-> is_Some (m !! p).
Proof.
  rewrite (range_order m). rewrite list_elem_of_fmap. split.
  - intros [[k v] [-> Hkv]]. apply elem_of_map_to_list in Hkv. eauto.
  - intros [v Hv]. exists (p, v). split; [done|]. by apply elem_of_map_to_list.
Qed.

(** After the first loop [destFiles] holds the destination-only paths. *)
Lemma foldl_delete_range (srcFiles destFiles : gmap string FileInfo) :
  foldl (fun d e => delete e.1 d) destFiles (range srcFiles)
  = destFiles ∖ srcFiles.
Proof.
  apply map_eq; intros p. rewrite lookup_foldl_delete.
  pose proof (elem_of_range_keys srcFiles p) as Hin.
  case_bool_decide as Hp.
  - symmetry. apply lookup_difference_None. right. by apply Hin.
  - destruct (destFiles !! p) as [v|] eqn:Hv.
    + symmetry. apply lookup_difference_Some. split; [done|].
      destruct (srcFiles !! p) eqn:E; [|done]. exfalso. apply Hp, Hin. eauto.
    + symmetry. apply lookup_difference_None. by left.
Qed.

Lemma length_range (m : gmap string FileInfo) : length (range m) = size m.
Proof. rewrite (range_order m). apply length_map_to_list. Qed.

Lemma size_difference_dom (srcFiles destFiles : gmap string FileInfo) :
  (size (destFiles ∖ srcFiles) + size (dom srcFiles ∩ dom destFiles))%nat
  = size destFiles.
Proof.
  rewrite <- !(size_dom (D := gset string)), dom_difference_L.
  rewrite <- size_union.
  - f_equal. apply set_eq. intros p.
    rewrite elem_of_union, elem_of_difference, elem_of_intersection.
    destruct (decide (p ∈ dom srcFiles)); tauto.
  - intros p. rewrite elem_of_difference, elem_of_intersection. tauto.
Qed.

Lemma size_dest_only (srcFiles destFiles : gmap string FileInfo) :
  size (dom destFiles ∖ dom srcFiles) = size (destFiles ∖ srcFiles).
Proof.
  rewrite <- (size_dom (D := gset string) (destFiles ∖ srcFiles)).
  by rewrite dom_difference_L.
Qed.

Lemma filter_is_write_app ws ds :
  List.filter is_write (map (write_of configs) ws ++ map (delete_of configs) ds)
  = map (write_of configs) ws.
Proof.
  rewrite List.filter_app.
  assert (List.filter is_write (map (delete_of configs) ds) = []) as ->.
  { induction ds as [|d ds IH]; [done|]. simpl. exact IH. }
  rewrite app_nil_r. induction ws as [|e ws IH]; [done|]. simpl. by rewrite IH.
Qed.

Lemma filter_is_delete_app ws ds :
  List.filter is_delete (map (write_of configs) ws ++ map (delete_of configs) ds)
  = map (delete_of configs) ds.
Proof.
  rewrite List.filter_app.
  assert (List.filter is_delete (map (write_of configs) ws) = []) as ->.
  { induction ws as [|e ws IH]; [done|]. simpl. exact IH. }
  simpl. induction ds as [|d ds IH]; [done|]. simpl. by rewrite IH.
Qed.

(** The plan of a cycle, in closed form. *)
Lemma planCycle_eq (srcFiles destFiles : gmap string FileInfo) :
  planCycle range configs srcFiles destFiles
  = Returns (map (write_of configs) (range srcFiles)
               ++ map (delete_of configs) (range (destFiles ∖ srcFiles)),
             Z.of_nat (size srcFiles) + Z.of_nat (size (destFiles ∖ srcFiles))).
Proof.
  unfold planCycle, sync.Add, sync.zero.
  destruct (Z.ltb_spec (0 + (Z.of_nat (size srcFiles) + Z.of_nat (size destFiles))) 0)
    as [Hneg|Hok]; [lia|].
  change (Returns ?x ≫= ?k) with (k x). cbn beta. unfold processChanges.
  destruct (for_range_src (range srcFiles) destFiles
              (0 + (Z.of_nat (size srcFiles) + Z.of_nat (size destFiles))) [])
    as (wg' & Heq & Hcount); [lia|].
  rewrite foldl_delete_range in Heq, Hcount.
  etrans; [apply (bind_of_Returns _ _ _ Heq)|]. cbn beta iota.
  rewrite for_range_dest.
  change (Returns ?x ≫= ?k) with (k x). cbn beta.
  unfold mret, Outcome_ret. do 2 f_equal. lia.
Qed.

(** C2. The count the cycle barrier expects. For every pair of
    snapshots, lines 26 to 31 of [RunScanLoop] ([wg.Add] of the two
    lengths, then [processChanges]) return, and leave in the WaitGroup
    [|srcFiles| + |destFiles| - |paths in both|], which is the number of
    operations returned: one Write for each source path and one Delete
    for each path only the destination has. *)
Theorem C2_expected_completion_count
  (srcFiles destFiles : gmap string FileInfo) :
  exists jobFunctions wg,
    planCycle range configs srcFiles destFiles = Returns (jobFunctions, wg)
    /\ wg = Z.of_nat (size srcFiles) + Z.of_nat (size destFiles)
            - Z.of_nat (size (dom srcFiles ∩ dom destFiles))
    /\ wg = Z.of_nat (length jobFunctions)
    /\ length (List.filter is_write jobFunctions) = size srcFiles
    /\ length (List.filter is_delete jobFunctions)
       = size (dom destFiles ∖ dom srcFiles).
Proof.
  eexists _, _. split; [apply planCycle_eq|].
  pose proof (size_difference_dom srcFiles destFiles) as Hsz.
  rewrite filter_is_write_app, filter_is_delete_app.
  rewrite length_app, !length_map, !length_range.
  rewrite size_dest_only.
  repeat split; lia.
Qed.

Lemma occurrences_NoDup p (l : list (string * FileInfo)) :
  NoDup l.*1 ->
  occurrences p l = if bool_decide (p ∈ l.*1) then 1%nat else 0%nat.
Proof.
  unfold occurrences. induction l as [|[k v] l IH]; intros Hnd.
  - rewrite bool_decide_eq_false_2; [done | set_solver].
  - rewrite fmap_cons in Hnd. cbn [fst] in Hnd.
    apply NoDup_cons in Hnd as [Hk Hnd]. specialize (IH Hnd).
    rewrite fmap_cons. cbn [fst]. rewrite filter_cons. cbn [fst].
    destruct (decide (k = p)) as [->|Hne].
    + rewrite (bool_decide_eq_true_2 (p ∈ p :: l.*1)) by set_solver.
      rewrite bool_decide_eq_false_2 in IH by done.
      cbn [length]. by rewrite IH.
    + rewrite IH. case_bool_decide as H1; case_bool_decide as H2; try done.
      * exfalso. apply H2. apply elem_of_cons. by right.
      * exfalso. apply H1. apply elem_of_cons in H2 as [?|?]; done.
Qed.

Lemma occurrences_map_to_list p (l : list (string * FileInfo))
  (m : gmap string FileInfo) :
  l ≡ₚ map_to_list m ->
  occurrences p l = if bool_decide (is_Some (m !! p)) then 1%nat else 0%nat.
Proof.
  intros Hl. rewrite occurrences_NoDup.
  - assert (p ∈ l.*1 <-> is_Some (m !! p)) as Hin.
    { rewrite Hl, list_elem_of_fmap. split.
      - intros [[k v] [-> Hkv]]. apply elem_of_map_to_list in Hkv. eauto.
      - intros [v Hv]. exists (p, v). split; [done|].
        by apply elem_of_map_to_list. }
    case_bool_decide as H1; case_bool_decide as H2; first [done | tauto].
  - rewrite Hl. apply NoDup_fst_map_to_list.
Qed.

(** C3. One operation per path. For every pair of snapshots the plan of
    a cycle is a Write for each entry of the source snapshot, each entry
    once (whatever the destination holds), followed by a Delete for each
    entry of the destination snapshot whose path the source lacks, each
    once; so a path of the source gets exactly one Write, a path only the
    destination has gets exactly one Delete, any other path gets none,
    and no path gets both. *)
Theorem C3_one_operation_per_path
  (srcFiles destFiles : gmap string FileInfo) :
  exists writes deletes wg,
    planCycle range configs srcFiles destFiles
    = Returns (map (write_of configs) writes
                 ++ map (delete_of configs) deletes, wg)
    /\ writes ≡ₚ map_to_list srcFiles
    /\ deletes ≡ₚ map_to_list (destFiles ∖ srcFiles)
    /\ (forall p, occurrences p writes
                  = if bool_decide (is_Some (srcFiles !! p)) then 1%nat else 0%nat)
    /\ (forall p, occurrences p deletes
                  = if bool_decide (is_Some (destFiles !! p)
                                    /\ srcFiles !! p = None)
                    then 1%nat else 0%nat)
    /\ (forall p, ~ ((0 < occurrences p writes)%nat
                     /\ (0 < occurrences p deletes)%nat)).
Proof.
  exists (range srcFiles), (range (destFiles ∖ srcFiles)). eexists.
  split; [apply planCycle_eq|].
  pose proof (range_order srcFiles) as Hw.
  pose proof (range_order (destFiles ∖ srcFiles)) as Hd.
  assert (forall p, occurrences p (range (destFiles ∖ srcFiles))
                    = if bool_decide (is_Some (destFiles !! p)
                                      /\ srcFiles !! p = None)
                      then 1%nat else 0%nat) as Hdel.
  { intros p. rewrite (occurrences_map_to_list p _ _ Hd).
    pose proof (lookup_difference_is_Some destFiles srcFiles p) as Hiff.
    case_bool_decide as H1; case_bool_decide as H2; first [done | tauto]. }
  repeat split; try done.
  - intros p. by apply occurrences_map_to_list.
  - intros p [Hpw Hpd].
    rewrite (occurrences_map_to_list p _ _ Hw) in Hpw. rewrite Hdel in Hpd.
    case_bool_decide as H1; [|lia]. case_bool_decide as H2; [|lia].
    destruct H1 as [v Hv]. destruct H2 as [? Hnone]. congruence.
Qed.

End planner_properties.

(** ** The tree scanner *)

(** [strings.Replace(path, root, "", 1)] strips [root] when [path] starts
    with it. *)
Lemma HasPrefix_app (prefix rest : string) :
  strings.HasPrefix (prefix +:+ rest) prefix = true.
Proof.
  induction prefix as [|a prefix IH]; [done|].
  simpl. by rewrite Ascii.eqb_refl.
Qed.

Lemma replace_from_skip (old new r rest : string) :
  strings.replace_from (r +:+ rest) old new (String.length r) (Some O) = rest.
Proof.
  induction r as [|a r IH]; simpl.
  - by destruct rest.
  - exact IH.
Qed.

Lemma Replace_strips_prefix (root rest : string) :
  strings.Replace (root +:+ rest) root "" 1 = rest.
Proof.
  unfold strings.Replace. case_bool_decide as Hroot.
  - by subst root.
  - cbn [orb Z.eqb Z.ltb Z.compare]. destruct root as [|a r]; [done|].
    change (Z.to_nat 1) with 1%nat.
    change ((String a r) +:+ rest) with (String a (r +:+ rest)).
    cbn [strings.replace_from].
    change (String a (r +:+ rest)) with ((String a r) +:+ rest).
    rewrite HasPrefix_app.
    cbn [String.length option_map Nat.pred].
    replace (S (String.length r) - 1)%nat with (String.length r) by lia.
    cbn [String.append]. apply replace_from_skip.
Qed.

Lemma append_nonempty_ne (root rest : string) :
  rest <> "" -> root <> root +:+ rest.
Proof.
  intros Hrest. induction root as [|a root IH]; simpl.
  - intros Heq. apply Hrest. symmetry. exact Heq.
  - intros Heq. injection Heq as Heq. by apply IH.
Qed.

(** What the function literal of [getDirFiles] does with an entry whose
    path starts with the root. *)
Lemma getDirFiles_func_strips srcDir rest info err files :
  rest <> "" ->
  getDirFiles_func srcDir (srcDir +:+ rest) info err files
  = (None, <[rest := info]> files).
Proof.
  intros Hrest. unfold getDirFiles_func.
  rewrite bool_decide_eq_true_2.
  - by rewrite Replace_strips_prefix.
  - by apply append_nonempty_ne.
Qed.

Lemma walk_names_Node {S} (fn : string -> FileInfo -> option error -> S -> option error * S)
  path name info readdir entries rest s :
  filepath.walk_names fn path
    (filepath.Entry name (filepath.Node info readdir entries) rest) s
  = let '(r, s) := filepath.walk fn (filepath.Join [path; name])
                     (filepath.Node info readdir entries) s in
    match r with
    | Some e =>
        if negb (fs.IsDir (fs.Mode info)) || negb (filepath.is_skip e)
        then (Some e, s)
        else filepath.walk_names fn path rest s
    | None => filepath.walk_names fn path rest s
    end.
Proof. reflexivity. Qed.

(** The function literal never returns an error, so neither does
    [filepath.Walk]: it has no error of its own to return. *)
Lemma walk_getDirFiles_func srcDir :
  (forall t path files,
      (filepath.walk (getDirFiles_func srcDir) path t files).1 = None)
  /\ (forall names path files,
      (filepath.walk_names (getDirFiles_func srcDir) path names files).1 = None).
Proof.
  assert (forall path info err files,
             (getDirFiles_func srcDir path info err files).1 = None) as Hfn
    by done.
  apply Tree_Forest_mutind.
  - intros err path files. apply Hfn.
  - intros info readdir entries IH path files.
    cbn [filepath.walk]. destruct (negb (fs.IsDir (fs.Mode info))); [apply Hfn|].
    destruct (getDirFiles_func srcDir path (Some info) readdir files)
      as [err1 files'] eqn:Hcall.
    pose proof (Hfn path (Some info) readdir files) as H1.
    rewrite Hcall in H1. cbn [fst] in H1. subst err1.
    destruct (bool_decide (is_Some readdir) || bool_decide (is_Some None));
      [done | apply IH].
  - done.
  - intros name t IHt rest IHrest path files.
    destruct t as [err|info readdir entries]; [cbn [filepath.walk_names]
                                              | rewrite walk_names_Node].
    + destruct (getDirFiles_func srcDir (filepath.Join [path; name]) None
                  (Some err) files) as [r files'] eqn:Hcall.
      pose proof (Hfn (filepath.Join [path; name]) None (Some err) files) as H1.
      rewrite Hcall in H1. cbn [fst] in H1. subst r. apply IHrest.
    + destruct (filepath.walk (getDirFiles_func srcDir)
                  (filepath.Join [path; name])
                  (filepath.Node info readdir entries) files)
        as [r files'] eqn:Hcall.
      pose proof (IHt (filepath.Join [path; name]) files) as H1.
      rewrite Hcall in H1. cbn [fst] in H1. subst r. apply IHrest.
Qed.

Lemma Walk_getDirFiles_func srcDir tree files :
  (filepath.Walk (getDirFiles_func srcDir) srcDir tree files).1 = None.
Proof.
  unfold filepath.Walk. destruct tree as [err|info readdir entries].
  - done.
  - destruct (filepath.walk (getDirFiles_func srcDir) srcDir
                (filepath.Node info readdir entries) files)
      as [r files'] eqn:Hcall.
    pose proof (proj1 (walk_getDirFiles_func srcDir)
                  (filepath.Node info readdir entries) srcDir files) as H1.
    rewrite Hcall in H1. cbn [fst] in H1. by subst r.
Qed.

(** C6 (as the code behaves). [getDirFiles] returns a snapshot for every
    root and every state of the tree: its [panic(err)] is never reached,
    since the function it hands to [filepath.Walk] returns nil whatever
    error it is given. A root whose [Lstat] fails yields the empty
    snapshot, and a directory whose names cannot be read yields a snapshot
    without the entries below it. *)
Theorem C6_getDirFiles_returns_despite_errors :
  (forall srcDir tree, exists files, getDirFiles srcDir tree = Returns files)
  /\ getDirFiles "/missing"
       (filepath.LstatFails (PathError "lstat" "/missing" ENOENT))
     = Returns ∅
  /\ getDirFiles "/src"
       (filepath.Node a_directory None
          (filepath.Entry "sub" (unreadable_directory "/src/sub")
             filepath.NoEntries))
     = Returns {[ "/sub" := Some a_directory ]}.
Proof.
  split; [|split].
  - intros srcDir tree. unfold getDirFiles.
    pose proof (Walk_getDirFiles_func srcDir tree ∅) as Hnil.
    destruct (filepath.Walk (getDirFiles_func srcDir) srcDir tree ∅)
      as [err files]. cbn [fst] in Hnil. subst err. eauto.
  - reflexivity.
  - vm_compute. reflexivity.
Qed.

(** C7 (as the code behaves). With the root [./src], [filepath.Walk]
    reports the file [a.txt] under the cleaned path [src/a.txt], in which
    [strings.Replace] finds no [./src] to remove: the snapshot's key is
    [src/a.txt], the root directory included, and the Write built from it
    reads from [src/src/a.txt]. *)
Theorem C7_relative_path_keeps_root :
  getDirFiles "./src" (tree_with_one_file "a.txt")
  = Returns {[ "src/a.txt" := Some a_regular_file ]}
  /\ filepath.Join ["./src"; "src/a.txt"] = "src/src/a.txt".
Proof. split; vm_compute; reflexivity. Qed.

(** ** File modes *)

Lemma land_masked (a b c t : Z) :
  Z.land t c = 0 ->
  Z.land (Z.lor (Z.ldiff a c) (Z.land b c)) t = Z.land a t.
Proof.
  intros Ht. apply Z.bits_inj'. intros k Hk.
  assert (Z.testbit t k && Z.testbit c k = false) as Hd.
  { rewrite <- Z.land_spec, Ht. apply Z.bits_0. }
  rewrite !Z.land_spec, Z.lor_spec, Z.ldiff_spec, Z.land_spec.
  destruct (Z.testbit a k), (Z.testbit b k), (Z.testbit c k), (Z.testbit t k);
    simpl in *; congruence.
Qed.

Lemma land_set (a b c p : Z) :
  Z.land p c = p ->
  Z.land (Z.lor (Z.ldiff a c) (Z.land b c)) p = Z.land b p.
Proof.
  intros Hp. apply Z.bits_inj'. intros k Hk.
  assert (Z.testbit p k && Z.testbit c k = Z.testbit p k) as Hd.
  { by rewrite <- Z.land_spec, Hp. }
  rewrite !Z.land_spec, Z.lor_spec, Z.ldiff_spec, Z.land_spec.
  destruct (Z.testbit a k), (Z.testbit b k), (Z.testbit c k), (Z.testbit p k);
    simpl in *; congruence.
Qed.

Lemma Perm_chmod_inode mode i :
  fs.Perm (os.i_mode (os.chmod_inode mode i)) = fs.Perm mode.
Proof. unfold fs.Perm, os.chmod_inode. cbn [os.i_mode]. by apply land_set. Qed.

Lemma Perm_Perm m : fs.Perm (fs.Perm m) = fs.Perm m.
Proof.
  unfold fs.Perm. rewrite <- Z.land_assoc. by rewrite Z.land_diag.
Qed.

Lemma Perm_chmod_inode_Perm m i :
  fs.Perm (os.i_mode (os.chmod_inode (fs.Perm m) i)) = fs.Perm m.
Proof. by rewrite Perm_chmod_inode, Perm_Perm. Qed.

Lemma ModeType_chmod_inode mode i :
  Z.land (os.i_mode (os.chmod_inode mode i)) fs.ModeType
  = Z.land (os.i_mode i) fs.ModeType.
Proof. unfold os.chmod_inode. cbn [os.i_mode]. by apply land_masked. Qed.

Lemma ModeDir_chmod_inode mode i :
  Z.land (os.i_mode (os.chmod_inode mode i)) fs.ModeDir
  = Z.land (os.i_mode i) fs.ModeDir.
Proof. unfold os.chmod_inode. cbn [os.i_mode]. by apply land_masked. Qed.

Lemma is_dir_chmod_inode mode i :
  os.is_dir (os.chmod_inode mode i) = os.is_dir i.
Proof. unfold os.is_dir, fs.IsDir. by rewrite ModeDir_chmod_inode. Qed.

Lemma IsRegular_not_IsDir m : fs.IsRegular m = true -> fs.IsDir m = false.
Proof.
  unfold fs.IsRegular, fs.IsDir. intros Hreg. apply Z.eqb_eq in Hreg.
  assert (Z.land m fs.ModeDir = 0) as ->; [|done].
  replace fs.ModeDir with (Z.land fs.ModeType fs.ModeDir) by reflexivity.
  by rewrite Z.land_assoc, Hreg.
Qed.

Lemma is_dir_new_dir w perm : os.is_dir (os.new_dir w perm) = true.
Proof.
  unfold os.is_dir, fs.IsDir, os.new_dir. cbn [os.i_mode].
  rewrite Z.land_lor_distr_l.
  replace (Z.land fs.ModeDir fs.ModeDir) with fs.ModeDir by reflexivity.
  apply negb_true_iff, Z.eqb_neq. intros H0.
  apply Z.lor_eq_0_iff in H0 as [H0 _]. discriminate.
Qed.

(** ** The [os] calls *)

Lemma same_env_refl w : same_env w w.
Proof. by repeat split. Qed.

Lemma same_env_set_files w fsys : same_env w (os.set_files w fsys).
Proof. by repeat split. Qed.

Lemma same_env_trans w1 w2 w3 : same_env w1 w2 -> same_env w2 w3 -> same_env w1 w3.
Proof. unfold same_env. intros (?&?&?&?) (?&?&?&?). repeat split; congruence. Qed.

Lemma resolve_cwd w w' name : os.cwd w' = os.cwd w -> os.resolve w' name = os.resolve w name.
Proof. unfold os.resolve. by intros ->. Qed.

Lemma Stat_Ok w name st :
  os.Stat w name = Ok st
  <-> exists i, os.files w !! os.resolve w name = Some i /\ st = os.stat_of i.
Proof.
  unfold os.Stat. destruct (os.files w !! os.resolve w name) as [i|]; split.
  - intros [= <-]. eauto.
  - intros (i' & [= <-] & ->). done.
  - done.
  - by intros (i' & ? & _).
Qed.

Lemma Stat_Err w name err :
  os.Stat w name = Err err
  <-> os.files w !! os.resolve w name = None /\ err = PathError "stat" name ENOENT.
Proof.
  unfold os.Stat. destruct (os.files w !! os.resolve w name) as [i|]; split.
  - done.
  - by intros [? _].
  - by intros [= <-].
  - by intros [_ ->].
Qed.

Lemma dir_ready_spec w key :
  dir_ready w key = true ->
  is_Some (os.files w !! [])
  /\ forall n i, os.files w !! take n key = Some i -> os.is_dir i = true.
Proof.
  unfold dir_ready. intros [Hroot Hall]%andb_true_iff.
  apply bool_decide_eq_true in Hroot. split; [done|].
  rewrite forallb_forall in Hall. intros n i Hi.
  destruct (Nat.le_gt_cases n (length key)) as [Hle|Hgt].
  - specialize (Hall n). rewrite Hi in Hall. apply Hall.
    apply in_seq. lia.
  - specialize (Hall (length key)). rewrite take_ge in Hi by lia.
    rewrite firstn_all in Hall. rewrite Hi in Hall. apply Hall.
    apply in_seq. lia.
Qed.

(** [os.MkdirAll] where it can succeed: the files that exist stay as they
    are, the name becomes a directory, and each file made is a directory
    on the way to the name, made with the one mode given. *)
Lemma mkdirAll_rev_ok name perm rkey :
  forall w,
    is_Some (os.files w !! []) ->
    (forall n i, os.files w !! take n (rev rkey) = Some i -> os.is_dir i = true) ->
    exists w',
      os.mkdirAll_rev w name rkey perm = Ok w'
      /\ same_env w w'
      /\ (forall k i, os.files w !! k = Some i -> os.files w' !! k = Some i)
      /\ (forall k i', os.files w !! k = None -> os.files w' !! k = Some i' ->
            (exists n, k = take n (rev rkey)) /\ i' = os.new_dir w perm)
      /\ (exists d, os.files w' !! rev rkey = Some d /\ os.is_dir d = true).
Proof.
  induction rkey as [|x rparent IH]; intros w Hroot Hdirs.
  - destruct Hroot as [r Hr]. exists w. cbn [os.mkdirAll_rev rev]. rewrite Hr.
    rewrite (Hdirs 0%nat r Hr).
    split_and!; [done | apply same_env_refl | done | | ].
    + intros k i' Hk Hk'. congruence.
    + exists r. split; [done|]. exact (Hdirs 0%nat r Hr).
  - cbn [os.mkdirAll_rev].
    destruct (os.files w !! rev (x :: rparent)) as [i|] eqn:Hkey.
    + assert (os.is_dir i = true) as Hi.
      { apply (Hdirs (length (rev (x :: rparent)))). by rewrite firstn_all. }
      rewrite Hi. exists w.
      split_and!; [done | apply same_env_refl | done | | eauto].
      intros k i' Hk Hk'. congruence.
    + destruct (IH w Hroot) as (w' & Hmk & Henv & Hkeep & Hnew & d & Hd & Hdir).
      { intros n i Hi. cbn [rev] in Hdirs.
        apply (Hdirs (Nat.min n (length (rev rparent)))).
        rewrite take_app_le by lia.
        destruct (Nat.le_gt_cases n (length (rev rparent))).
        - by rewrite Nat.min_l by lia.
        - rewrite Nat.min_r by lia. rewrite firstn_all.
          by rewrite take_ge in Hi by lia. }
      rewrite Hmk. cbn [rev] in *.
      assert (os.files w' !! (rev rparent ++ [x]) = None) as Hfresh.
      { destruct (os.files w' !! (rev rparent ++ [x])) as [i'|] eqn:E; [|done].
        destruct (Hnew _ _ Hkey E) as [[n Hn] _].
        apply (f_equal length) in Hn.
        rewrite length_app, length_take in Hn. simpl in Hn. lia. }
      unfold os.mkdir_key. rewrite Hfresh.
      unfold os.parent. rewrite removelast_last, Hd, Hdir.
      eexists. split; [reflexivity|].
      destruct Henv as (Hcwd & Humask & Hnow & Hout).
      assert (os.new_dir w' perm = os.new_dir w perm) as Hnd.
      { unfold os.new_dir. by rewrite Humask, Hnow. }
      split_and!.
      * by repeat split.
      * intros k i Hk. cbn [os.files os.set_files].
        rewrite lookup_insert_ne; [by apply Hkeep | congruence].
      * intros k i' Hk Hk'. cbn [os.files os.set_files] in Hk'.
        destruct (decide (rev rparent ++ [x] = k)) as [<-|Hne].
        -- rewrite lookup_insert_eq in Hk'. split; [|congruence].
           exists (length (rev rparent ++ [x])). by rewrite firstn_all.
        -- rewrite lookup_insert_ne in Hk' by done.
           destruct (Hnew _ _ Hk Hk') as [[n ->] ->]. split; [|done].
           exists (Nat.min n (length (rev rparent))).
           rewrite take_app_le by lia.
           destruct (Nat.le_gt_cases n (length (rev rparent))).
           ++ by rewrite Nat.min_l by lia.
           ++ rewrite Nat.min_r by lia. rewrite firstn_all.
              by rewrite take_ge by lia.
      * exists (os.new_dir w' perm). cbn [os.files os.set_files].
        rewrite lookup_insert_eq. split; [done | apply is_dir_new_dir].
Qed.

(** [os.MkdirAll] whenever it succeeds. *)
Lemma mkdirAll_rev_frame name perm rkey :
  forall w w',
    os.mkdirAll_rev w name rkey perm = Ok w' ->
    same_env w w'
    /\ (forall k i, os.files w !! k = Some i -> os.files w' !! k = Some i)
    /\ (forall k i', os.files w !! k = None -> os.files w' !! k = Some i' ->
          (exists n, k = take n (rev rkey)) /\ i' = os.new_dir w perm).
Proof.
  assert (forall w w1 key,
    os.files w !! key = None ->
    same_env w w1 ->
    (forall k i, os.files w !! k = Some i -> os.files w1 !! k = Some i) ->
    (forall k i', os.files w !! k = None -> os.files w1 !! k = Some i' ->
          (exists n, k = take n (removelast key)) /\ i' = os.new_dir w perm) ->
    forall w',
    match os.mkdir_key w1 name key perm with
    | Ok w'' => Ok w''
    | Err e =>
        match os.files w1 !! key with
        | Some i => if os.is_dir i then Ok w1 else Err e
        | None => Err e
        end
    end = Ok w' ->
    same_env w w'
    /\ (forall k i, os.files w !! k = Some i -> os.files w' !! k = Some i)
    /\ (forall k i', os.files w !! k = None -> os.files w' !! k = Some i' ->
          (exists n, k = take n key) /\ i' = os.new_dir w perm)) as Hstep.
  { intros w w1 key Hkey Henv Hkeep Hnew w' Hres.
    assert (forall n, exists n', take n (removelast key) = take n' key) as Hpre.
    { intros n. destruct (decide (key = [])) as [->|Hne];
        [exists 0%nat; by destruct n|].
      destruct (exists_last Hne) as (front & x & ->).
      rewrite removelast_last.
      exists (Nat.min n (length front)). rewrite take_app_le by lia.
      destruct (Nat.le_gt_cases n (length front)).
      - by rewrite Nat.min_l by lia.
      - rewrite Nat.min_r by lia. rewrite firstn_all. by rewrite take_ge by lia. }
    assert (os.new_dir w1 perm = os.new_dir w perm) as Hnd.
    { destruct Henv as (_ & Humask & Hnow & _).
      unfold os.new_dir. by rewrite Humask, Hnow. }
    unfold os.mkdir_key in Hres.
    destruct (os.files w1 !! key) as [i1|] eqn:Hk1.
    - destruct (os.is_dir i1); [|done]. injection Hres as <-.
      split_and!; [done | done |].
      intros k i' Hk Hk'. destruct (Hnew _ _ Hk Hk') as [[n ->] ->].
      split; [apply Hpre | done].
    - destruct (os.files w1 !! os.parent key) as [d|]; [|done].
      destruct (os.is_dir d); [|done]. injection Hres as <-.
      split_and!.
      + eapply same_env_trans; [exact Henv | apply same_env_set_files].
      + intros k i Hk. cbn [os.files os.set_files].
        rewrite lookup_insert_ne; [by apply Hkeep | congruence].
      + intros k i' Hk Hk'. cbn [os.files os.set_files] in Hk'.
        destruct (decide (key = k)) as [<-|Hne].
        * rewrite lookup_insert_eq in Hk'. split; [|congruence].
          exists (length key). by rewrite firstn_all.
        * rewrite lookup_insert_ne in Hk' by done.
          destruct (Hnew _ _ Hk Hk') as [[n ->] ->]. split; [apply Hpre | done]. }
  induction rkey as [|x rparent IH]; intros w w' Hmk; cbn [os.mkdirAll_rev] in Hmk.
  - destruct (os.files w !! rev []) as [i|] eqn:Hkey.
    + destruct (os.is_dir i); [|done]. injection Hmk as <-.
      split_and!; [apply same_env_refl | done |].
      intros k i' Hk Hk'. congruence.
    + exfalso. cbn [rev] in *. unfold os.mkdir_key, os.parent in Hmk.
      cbn [removelast] in Hmk. by rewrite !Hkey in Hmk.
  - destruct (os.files w !! rev (x :: rparent)) as [i|] eqn:Hkey.
    + destruct (os.is_dir i); [|done]. injection Hmk as <-.
      split_and!; [apply same_env_refl | done |].
      intros k i' Hk Hk'. congruence.
    + destruct (os.mkdirAll_rev w name rparent perm) as [w1|e] eqn:Hrec; [|done].
      destruct (IH _ _ Hrec) as (Henv & Hkeep & Hnew).
      apply (Hstep w w1 _ Hkey Henv Hkeep) in Hmk; [done|].
      cbn [rev]. rewrite removelast_last. exact Hnew.
Qed.

Lemma Chmod_Ok w name mode i :
  os.files w !! os.resolve w name = Some i ->
  os.Chmod w name mode
  = Ok (os.set_files w (<[os.resolve w name := os.chmod_inode mode i]> (os.files w))).
Proof. unfold os.Chmod. by intros ->. Qed.

Lemma Chtimes_Ok w name atime mtime i :
  os.files w !! os.resolve w name = Some i ->
  os.Chtimes w name atime mtime
  = Ok (os.set_files w (<[os.resolve w name := os.chtimes_inode mtime i]> (os.files w))).
Proof. unfold os.Chtimes. by intros ->. Qed.

(** ** [validateDirExistance] *)

(** The climb: as long as the source path is not a directory, the call is
    the call on the two parents. *)
Lemma validateDirExistance_climb n :
  forall fuel srcPath destPath w,
    (forall i, (i < n)%nat ->
       exists st, os.Stat w (Nat.iter i filepath.Dir srcPath) = Ok st
                  /\ fs.IsDir (fs.Mode st) = false) ->
    validateDirExistance (n + fuel) srcPath destPath w
    = validateDirExistance fuel (Nat.iter n filepath.Dir srcPath)
                           (Nat.iter n filepath.Dir destPath) w.
Proof.
  induction n as [|n IH]; intros fuel srcPath destPath w Hclimb; [done|].
  destruct (Hclimb 0%nat ltac:(lia)) as (st & Hst & Hnd).
  change (Nat.iter 0 filepath.Dir srcPath) with srcPath in Hst.
  cbn [Nat.add validateDirExistance]. rewrite Hst, Hnd.
  rewrite IH.
  - by rewrite <- !Nat.iter_succ_r.
  - intros i Hi. rewrite <- Nat.iter_succ_r. apply Hclimb. lia.
Qed.

(** At a source directory the call ends: a chmod of the destination when
    it exists, [os.MkdirAll] and a log line when it does not. *)
Lemma validateDirExistance_at_directory fuel srcPath destPath w st :
  os.Stat w srcPath = Ok st -> fs.IsDir (fs.Mode st) = true ->
  validateDirExistance (S fuel) srcPath destPath w
  = match os.files w !! os.resolve w destPath with
    | Some i =>
        Returns (os.set_files w
                   (<[os.resolve w destPath
                      := os.chmod_inode (fs.Perm (fs.Mode st)) i]> (os.files w)))
    | None =>
        match os.MkdirAll w destPath (fs.Perm (fs.Mode st)) with
        | Ok w' => Returns (os.Printf "Write" destPath w')
        | Err err => panic_err err
        end
    end.
Proof.
  intros Hst Hdir. cbn [validateDirExistance]. rewrite Hst, Hdir.
  unfold os.Stat at 1. unfold os.Chmod.
  destruct (os.files w !! os.resolve w destPath) as [i|]; reflexivity.
Qed.


(** For a file, the directory step deals with the parent of the
    destination: afterwards the parent is a directory, every other file
    that existed is as it was, and the only files made are on the way to
    the parent. *)
Lemma validateDirExistance_parent fuel w srcPath path st pd :
  (2 <= fuel)%nat ->
  os.Stat w srcPath = Ok st -> fs.IsDir (fs.Mode st) = false ->
  os.Stat w (filepath.Dir srcPath) = Ok pd -> fs.IsDir (fs.Mode pd) = true ->
  dir_ready w (os.resolve w (filepath.Dir path)) = true ->
  exists w1,
    validateDirExistance fuel srcPath path w = Returns w1
    /\ os.cwd w1 = os.cwd w /\ os.umask w1 = os.umask w /\ os.now w1 = os.now w
    /\ (forall k i, os.files w !! k = Some i ->
                    k <> os.resolve w (filepath.Dir path) ->
                    os.files w1 !! k = Some i)
    /\ (exists d, os.files w1 !! os.resolve w (filepath.Dir path) = Some d
                  /\ os.is_dir d = true)
    /\ (forall k, os.files w !! k = None ->
                  ~ k `prefix_of` os.resolve w (filepath.Dir path) ->
                  os.files w1 !! k = None).
Proof.
  intros Hfuel Hst Hnd Hpd Hdir Hready.
  destruct (dir_ready_spec _ _ Hready) as [Hroot Hdirs].
  replace fuel with (1 + S (fuel - 2))%nat by lia.
  rewrite (validateDirExistance_climb 1).
  2:{ intros i Hi. assert (i = 0%nat) as -> by lia. eauto. }
  change (Nat.iter 1 filepath.Dir ?x) with (filepath.Dir x).
  rewrite (validateDirExistance_at_directory _ _ _ _ _ Hpd Hdir).
  set (key := os.resolve w (filepath.Dir path)) in *.
  destruct (os.files w !! key) as [i|] eqn:Hkey.
  - eexists. split_and!; try reflexivity.
    + intros k i' Hk Hne. cbn [os.files os.set_files].
      by rewrite lookup_insert_ne.
    + eexists. cbn [os.files os.set_files]. rewrite lookup_insert_eq.
      split; [reflexivity|]. rewrite is_dir_chmod_inode.
      apply (Hdirs (length key)). by rewrite firstn_all.
    + intros k Hk _. cbn [os.files os.set_files].
      rewrite lookup_insert_ne; [done | congruence].
  - unfold os.MkdirAll. fold key.
    destruct (mkdirAll_rev_ok (filepath.Dir path) (fs.Perm (fs.Mode pd)) (rev key) w Hroot)
      as (w' & Hmk & (Hcwd & Humask & Hnow & Hout) & Hkeep & Hnew & d & Hd & Hddir).
    { rewrite rev_involutive. exact Hdirs. }
    rewrite Hmk. rewrite rev_involutive in *.
    eexists. split_and!; try reflexivity; try done.
    + intros k i Hk _. cbn [os.files os.Printf]. by apply Hkeep.
    + exists d. by cbn [os.files os.Printf].
    + intros k Hk Hnp. cbn [os.files os.Printf].
      destruct (os.files w' !! k) as [i'|] eqn:E; [|done].
      exfalso. apply Hnp. destruct (Hnew _ _ Hk E) as [[n ->] _].
      exists (drop n key). by rewrite take_drop.
Qed.

(** ** [copyFile] *)

(** C9. The size check of a copy. Whenever [copyFile] gets as far as
    copying (the source is a regular file and the destination could be
    opened), the count of bytes [io.Copy] wrote, which is the count of
    bytes the source yielded, is compared with the size [os.Stat] reported
    for the source: [copyFile] returns when they are equal, and panics,
    which ends the process, when they differ. *)
Theorem C9_copyFile_validates_size
  (w : os.World) (src dst : string) (sourceFileStat : fs.fileStat)
  (destination : os.File) (w1 : os.World) (written : Z) (w2 : os.World) :
  os.Stat w src = Ok sourceFileStat ->
  fs.IsRegular (fs.Mode sourceFileStat) = true ->
  os.Create w dst = Ok (destination, w1) ->
  os.Copy w1 destination (os.resolve w src) = Ok (written, w2) ->
  (exists from, os.files w1 !! os.resolve w src = Some from
                /\ written = Z.of_nat (length (os.i_data from)))
  /\ copyFile src dst w
     = if bool_decide (written = fs.Size sourceFileStat) then Returns w2
       else Panics (size_mismatch written (fs.Size sourceFileStat)).
Proof.
  intros Hstat Hreg Hcreate Hcopy. split.
  - unfold os.Copy in Hcopy. repeat case_match; try done.
    injection Hcopy as <- _. eauto.
  - unfold copyFile. rewrite Hstat, Hreg. cbn [negb].
    apply Stat_Ok in Hstat as (i & Hi & _).
    unfold os.Open. rewrite Hi, Hcreate, Hcopy.
    case_bool_decide as H1; case_bool_decide as H2;
      first [done | by destruct H1].
Qed.

(** ** [writeFile] *)

(** The statements of [writeFile] after the comparison of the times, for a
    regular source file: the copy, [os.Chmod], [os.Chtimes], the log line. *)
Lemma copy_and_stamp w srcPath path (srcFile : fs.fileStat) src_i :
  os.files w !! os.resolve w srcPath = Some src_i ->
  fs.IsRegular (os.i_mode src_i) = true ->
  os.i_size src_i = Z.of_nat (length (os.i_data src_i)) ->
  os.resolve w path <> os.resolve w srcPath ->
  match os.files w !! os.resolve w path with
  | Some dst_i => os.is_dir dst_i = false
  | None => exists d, os.files w !! os.parent (os.resolve w path) = Some d
                      /\ os.is_dir d = true
  end ->
  exists w',
    (w ← copyFile srcPath path w;
     mode ← FileInfo_Mode (Some srcFile);
     match os.Chmod w path (fs.Perm mode) with
     | Err err => panic_err err
     | Ok w =>
         match os.Chtimes w path (fs.ModTime srcFile) (fs.ModTime srcFile) with
         | Err err => panic_err err
         | Ok w => mret (os.Printf "Write" path w)
         end
     end) = Returns w'
    /\ os.now w' = os.now w
    /\ mirrored w' (os.resolve w path) path (os.i_data src_i) srcFile.
Proof.
  intros Hsrc Hreg Hsize Hne Hdst.
  set (ks := os.resolve w srcPath) in *. set (kd := os.resolve w path) in *.
  set (base := match os.files w !! kd with
               | Some dst_i => os.truncate_inode w dst_i
               | None => os.new_file w
               end).
  assert (os.Create w path
          = Ok (kd, os.set_files w (<[kd := base]> (os.files w)))) as Hcreate.
  { unfold os.Create, base. fold kd.
    destruct (os.files w !! kd) as [dst_i|].
    - by rewrite Hdst.
    - destruct Hdst as (d & -> & ->). done. }
  unfold copyFile.
  assert (os.Stat w srcPath = Ok (os.stat_of src_i)) as -> by (apply Stat_Ok; eauto).
  cbn [fs.Mode os.stat_of]. rewrite Hreg. cbn [negb].
  unfold os.Open. fold ks. rewrite Hsrc, Hcreate.
  unfold os.Copy. cbn [os.files os.set_files].
  rewrite lookup_insert_ne by done. rewrite Hsrc, lookup_insert_eq.
  cbn [fs.Size os.stat_of].
  rewrite bool_decide_eq_false_2 by (intros Hw; by apply Hw).
  change (Returns ?x ≫= ?k) with (k x). cbn beta.
  cbn [FileInfo_Mode]. change (Returns ?x ≫= ?k) with (k x). cbn beta.
  unfold os.Chmod. cbn [os.files os.set_files os.resolve os.cwd]. fold kd.
  rewrite lookup_insert_eq.
  unfold os.Chtimes. cbn [os.files os.set_files os.resolve os.cwd]. fold kd.
  rewrite lookup_insert_eq.
  eexists. split; [reflexivity|]. split; [reflexivity|].
  eexists. cbn [os.files os.set_files os.Printf os.stdout os.now].
  rewrite lookup_insert_eq. split; [reflexivity|].
  cbn [os.i_data os.i_size os.i_mode os.i_modTime os.chtimes_inode
       os.chmod_inode os.append_inode].
  assert (os.i_data base = []) as Hbase by (unfold base; by destruct (os.files w !! kd)).
  rewrite Hbase. cbn [app].
  split_and!; try done.
  - apply (Perm_chmod_inode_Perm (fs.Mode srcFile)
             (os.append_inode w (os.i_data src_i) base)).
  - apply last_snoc.
Qed.

(** The same statements when the source is not a regular file and the
    destination exists: no byte moves. *)
Lemma stamp_only w srcPath path (srcFile : fs.fileStat) src_i dst_i :
  os.files w !! os.resolve w srcPath = Some src_i ->
  fs.IsRegular (os.i_mode src_i) = false ->
  os.files w !! os.resolve w path = Some dst_i ->
  exists w',
    (w ← copyFile srcPath path w;
     mode ← FileInfo_Mode (Some srcFile);
     match os.Chmod w path (fs.Perm mode) with
     | Err err => panic_err err
     | Ok w =>
         match os.Chtimes w path (fs.ModTime srcFile) (fs.ModTime srcFile) with
         | Err err => panic_err err
         | Ok w => mret (os.Printf "Write" path w)
         end
     end) = Returns w'
    /\ os.now w' = os.now w
    /\ restamped w' (os.resolve w path) path dst_i srcFile.
Proof.
  intros Hsrc Hreg Hdst.
  set (kd := os.resolve w path) in *.
  unfold copyFile.
  assert (os.Stat w srcPath = Ok (os.stat_of src_i)) as -> by (apply Stat_Ok; eauto).
  cbn [fs.Mode os.stat_of]. rewrite Hreg. cbn [negb].
  change (Returns ?x ≫= ?k) with (k x). cbn beta.
  cbn [FileInfo_Mode]. change (Returns ?x ≫= ?k) with (k x). cbn beta.
  unfold os.Chmod. fold kd. rewrite Hdst.
  unfold os.Chtimes. cbn [os.files os.set_files os.resolve os.cwd]. fold kd.
  rewrite lookup_insert_eq.
  eexists. split; [reflexivity|]. split; [reflexivity|].
  eexists. cbn [os.files os.set_files os.Printf os.stdout os.now].
  rewrite lookup_insert_eq. split; [reflexivity|].
  cbn [os.i_data os.i_size os.i_modTime os.chtimes_inode].
  split_and!; try done.
  - cbn [os.i_mode os.chtimes_inode]. apply ModeType_chmod_inode.
  - cbn [os.i_mode os.chtimes_inode]. apply Perm_chmod_inode_Perm.
  - apply last_snoc.
Qed.

(** The same statements when the source is not a regular file and nothing
    is at the destination: [os.Chmod] fails, and the call panics. *)
Lemma stamp_nothing w srcPath path (srcFile : fs.fileStat) src_i :
  os.files w !! os.resolve w srcPath = Some src_i ->
  fs.IsRegular (os.i_mode src_i) = false ->
  os.files w !! os.resolve w path = None ->
  (w ← copyFile srcPath path w;
   mode ← FileInfo_Mode (Some srcFile);
   match os.Chmod w path (fs.Perm mode) with
   | Err err => panic_err err
   | Ok w =>
       match os.Chtimes w path (fs.ModTime srcFile) (fs.ModTime srcFile) with
       | Err err => panic_err err
       | Ok w => mret (os.Printf "Write" path w)
       end
   end) = Panics (fs.Error (PathError "chmod" path ENOENT)).
Proof.
  intros Hsrc Hreg Hdst. unfold copyFile.
  assert (os.Stat w srcPath = Ok (os.stat_of src_i)) as -> by (apply Stat_Ok; eauto).
  cbn [fs.Mode os.stat_of]. rewrite Hreg. cbn [negb].
  change (Returns ?x ≫= ?k) with (k x). cbn beta.
  cbn [FileInfo_Mode]. change (Returns ?x ≫= ?k) with (k x). cbn beta.
  unfold os.Chmod. by rewrite Hdst.
Qed.

Lemma Done_positive (n : Z) : 0 < n -> sync.Done n = Returns (n - 1).
Proof.
  intros Hn. unfold sync.Done, sync.Add.
  destruct (Z.ltb_spec (n + -1) 0); [lia | reflexivity].
Qed.

(** What the directory step leaves for the rest of [writeFile]: the source
    file and the destination are as they were, and the destination's parent
    is a directory. *)
Lemma after_directory_step fuel w srcPath path src_i pd name :
  (2 <= fuel)%nat ->
  os.files w !! os.resolve w srcPath = Some src_i ->
  os.is_dir src_i = false ->
  os.Stat w (filepath.Dir srcPath) = Ok pd -> fs.IsDir (fs.Mode pd) = true ->
  os.resolve w path = os.resolve w (filepath.Dir path) ++ [name] ->
  dir_ready w (os.resolve w (filepath.Dir path)) = true ->
  exists w1,
    validateDirExistance fuel srcPath path w = Returns w1
    /\ os.now w1 = os.now w
    /\ os.resolve w1 srcPath = os.resolve w srcPath
    /\ os.resolve w1 path = os.resolve w path
    /\ os.files w1 !! os.resolve w srcPath = Some src_i
    /\ os.files w1 !! os.resolve w path = os.files w !! os.resolve w path
    /\ (exists d, os.files w1 !! os.parent (os.resolve w path) = Some d
                  /\ os.is_dir d = true).
Proof.
  intros Hfuel Hsrc Hsrcdir Hpd Hpdir Hname Hready.
  destruct (validateDirExistance_parent fuel w srcPath path (os.stat_of src_i) pd)
    as (w1 & Hvde & Hcwd & _ & Hnow & Hkeep & Hparent & Hnone); try done.
  { apply Stat_Ok. eauto. }
  set (kp := os.resolve w (filepath.Dir path)) in *.
  assert (os.resolve w path <> kp) as Hkd.
  { rewrite Hname. intros Heq. apply (f_equal length) in Heq.
    rewrite length_app in Heq. simpl in Heq. lia. }
  assert (~ os.resolve w path `prefix_of` kp) as Hnp.
  { rewrite Hname. intros [k Hk]. apply (f_equal length) in Hk.
    rewrite !length_app in Hk. simpl in Hk. lia. }
  assert (os.resolve w srcPath <> kp) as Hks.
  { intros Heq. destruct (dir_ready_spec _ _ Hready) as [_ Hdirs].
    specialize (Hdirs (length kp) src_i). rewrite firstn_all, <- Heq in Hdirs.
    specialize (Hdirs Hsrc). congruence. }
  exists w1. split_and!; try done.
  - by apply resolve_cwd.
  - by apply resolve_cwd.
  - by apply Hkeep.
  - destruct (os.files w !! os.resolve w path) as [dst_i|] eqn:Hdst.
    + by apply Hkeep.
    + by apply Hnone.
  - unfold os.parent. rewrite Hname, removelast_last. exact Hparent.
Qed.



(** ** The scan loop *)

Lemma held_middle c gs1 g gs2 :
  held c (gs1 ++ g :: gs2) = held c gs1 ++ held_by c g ++ held c gs2.
Proof. unfold held. by rewrite flat_map_app. Qed.

Lemma held_snoc c gs g : held c (gs ++ [g]) = held c gs ++ held_by c g.
Proof. unfold held. rewrite flat_map_app. simpl. by rewrite app_nil_r. Qed.

Lemma tasks_middle c gs1 g gs2 :
  flat_map (task_of c) (gs1 ++ g :: gs2)
  = flat_map (task_of c) gs1 ++ task_of c g ++ flat_map (task_of c) gs2.
Proof. by rewrite flat_map_app. Qed.

Lemma tasks_snoc c gs g :
  flat_map (task_of c) (gs ++ [g]) = flat_map (task_of c) gs ++ task_of c g.
Proof. rewrite flat_map_app. simpl. by rewrite app_nil_r. Qed.

Lemma filter_middle {A} (f : A -> bool) l1 x l2 :
  length (List.filter f (l1 ++ x :: l2))
  = (length (List.filter f l1) + (if f x then 1 else 0)
     + length (List.filter f l2))%nat.
Proof.
  rewrite List.filter_app, length_app. simpl. destruct (f x); simpl; lia.
Qed.

Lemma filter_snoc {A} (f : A -> bool) l x :
  length (List.filter f (l ++ [x]))
  = (length (List.filter f l) + (if f x then 1 else 0))%nat.
Proof. rewrite filter_middle. simpl. lia. Qed.

Lemma length_zero_nil {A} (l : list A) : length l = 0%nat -> l = [].
Proof. by destruct l. Qed.

Lemma Done_Returns (n m : Z) : sync.Done n = Returns m -> m = n - 1 /\ 0 < n.
Proof.
  unfold sync.Done, sync.Add. destruct (Z.ltb_spec (n + -1) 0); [done|].
  intros [= <-]. lia.
Qed.

Lemma elem_of_middle {A} (x y : A) l1 l2 :
  x ∈ l1 ++ y :: l2 <-> x = y \/ x ∈ l1 ++ l2.
Proof. rewrite !elem_of_app, elem_of_cons. tauto. Qed.

(** Proof steps for the transition system: unfold the updates of a state,
    and split on the cycle a function of cycles was updated at. *)
Ltac loop_unfold :=
  unfold in_flight, undispatched, workers, tasks, running, unplanned,
    behind_barrier in *;
  cbn [cycle pc wg workerChannels goroutines jobFuncs finished crashed
       planned returned with_pc with_goroutines with_channel next_cycle
       crash initial] in *.

Ltac loop_rewrite :=
  repeat match goal with
         | H : pc ?s = _ |- _ => rewrite !H in *; clear H
         | H : goroutines ?s = _ |- _ => rewrite !H in *; clear H
         | H : workerChannels ?s _ = _ :: _ |- _ => rewrite !H in *; clear H
         end.

Ltac loop_lists :=
  rewrite ?held_snoc, ?held_middle, ?tasks_snoc, ?tasks_middle,
    ?filter_snoc, ?filter_middle, ?count_occ_app, ?length_app in *;
  unfold insert, fn_insert in *;
  cbn [held_by task_of live_worker is_running is_task cycle_of length
       count_occ app] in *.

Lemma held_nil c gs : (forall g, g ∈ gs -> cycle_of g <> c) -> held c gs = [].
Proof.
  induction gs as [|g gs IH]; intros Hgs; [done|].
  unfold held. cbn [flat_map]. fold (held c gs).
  rewrite IH by (intros g' Hg'; apply Hgs; by right).
  assert (cycle_of g <> c) as Hg by (apply Hgs; by left).
  destruct g as [c' job []|c' []]; simpl in *; by destruct (decide (c' = c)).
Qed.

Lemma tasks_nil c gs :
  (forall g, g ∈ gs -> cycle_of g <> c) -> flat_map (task_of c) gs = [].
Proof.
  induction gs as [|g gs IH]; intros Hgs; [done|].
  cbn [flat_map]. rewrite IH by (intros g' Hg'; apply Hgs; by right).
  assert (cycle_of g <> c) as Hg by (apply Hgs; by left).
  destruct g as [c' job st|c' st]; simpl in *; [|done].
  by destruct (decide (c' = c)).
Qed.

Lemma filter_length_le {A} (f g : A -> bool) (l : list A) :
  (forall x, x ∈ l -> f x = true -> g x = true) ->
  (length (List.filter f l) <= length (List.filter g l))%nat.
Proof.
  induction l as [|x l IH]; intros Hfg; [done|]. simpl.
  assert (length (List.filter f l) <= length (List.filter g l))%nat as IH'
    by (apply IH; intros y Hy; apply Hfg; by right).
  destruct (f x) eqn:Hf.
  - rewrite (Hfg x) by (done || by left). simpl. lia.
  - destruct (g x); simpl; lia.
Qed.

Ltac loop_cases :=
  loop_unfold; loop_rewrite; loop_lists;
  repeat (case_decide; subst; cbn [length count_occ app] in *; try congruence);
  loop_rewrite; loop_lists;
  repeat match goal with
         | Hnil : _ = [] |- _ => rewrite ?Hnil in *; clear Hnil
         end;
  repeat match goal with
         | |- context [if ?a <? ?b then _ else _] => destruct (Z.ltb_spec a b)
         end;
  repeat (case_match; try discriminate); subst;
  cbn [length count_occ app] in *;
  rewrite ?count_occ_app, ?length_app in *; cbn [length count_occ] in *.

Section loop_properties.

Variable range : gmap string FileInfo -> list (string * FileInfo).
Hypothesis range_order : forall m, range m ≡ₚ map_to_list m.
Variable configs : Configurations.

Lemma planCycle_counter srcFiles destFiles jobs n :
  planCycle range configs srcFiles destFiles = Returns (jobs, n) ->
  n = Z.of_nat (length jobs).
Proof.
  rewrite (planCycle_eq range range_order configs). intros [= <- <-].
  rewrite length_app, !length_map, !(length_range range range_order). lia.
Qed.

Lemma in_flight_initial c : in_flight initial c = [].
Proof. unfold in_flight, undispatched. simpl. by destruct (decide _). Qed.

Lemma barrier_invariant_initial : barrier_invariant initial.
Proof.
  constructor; intros c; rewrite ?in_flight_initial; try done.
  intros _. split_and!; try done. intros g Hg. by apply elem_of_nil in Hg.
Qed.

Lemma barrier_invariant_step s s' :
  barrier_invariant s -> step range configs s s' -> barrier_invariant s'.
Proof.
  intros Hinv Hstep.
  assert (forall c x,
             count_occ jobFunc_eq_dec (jobFuncs s c) x
             = (count_occ jobFunc_eq_dec (finished s c) x
                + count_occ jobFunc_eq_dec (in_flight s c) x)%nat) as Hcount.
  { intros c x.
    rewrite (proj1 (Permutation_count_occ jobFunc_eq_dec _ _)
               (inv_accounted s Hinv c)).
    by rewrite count_occ_app. }
  pose proof (inv_counter s Hinv) as Hwg.
  pose proof (inv_unplanned s Hinv) as Hun.
  assert (forall c, behind_barrier s c -> length (in_flight s c) = 0%nat)
    as Hset by (intros c Hc; by rewrite (inv_settled s Hinv c Hc)).
  clear Hinv.
  destruct Hstep.
  all: try match goal with
           | Hpc : pc ?st = AtScan |- _ =>
               destruct (Hun (cycle st) (or_intror (conj eq_refl Hpc)))
                 as (Hfresh_j & Hfresh_f & Hfresh_c & Hfresh_g);
               pose proof (held_nil _ _ Hfresh_g) as Hfresh_h
           end.
  all: try match goal with
           | Hplan : planCycle _ _ _ _ = Returns _ |- _ =>
               apply planCycle_counter in Hplan
           end.
  all: try match goal with
           | Hdone : sync.Done _ = Returns _ |- _ =>
               apply Done_Returns in Hdone as [-> Hpositive]
           end.
  all: constructor; intros c0.
  (* the operations are accounted for *)
  all: try (apply (Permutation_count_occ jobFunc_eq_dec); intros x;
            specialize (Hcount c0 x); loop_cases;
            repeat (case_match; try congruence); lia).
  (* the counter counts the operations in flight *)
  all: try (match goal with |- wg _ _ = _ => idtac end;
            pose proof (Hwg c0) as Hwg0; loop_cases; lia).
  (* nothing is in flight behind the barrier *)
  all: try (match goal with |- _ -> in_flight _ _ = [] => idtac end;
            intros Hbb; apply length_zero_nil;
            pose proof (Hwg c0) as Hwg0; pose proof (Hset c0) as Hset0;
            unfold sync.Wait_returns in *;
            loop_cases; cbn [past_barrier] in *;
            intuition (try discriminate; try lia)).
  (* a cycle that is not planned yet has nothing *)
  all: intros Hup; pose proof (Hun c0) as Hun0; loop_cases.
  all: try solve [destruct Hup as [?|[? ?]]; first [lia | discriminate]].
  all: destruct Hun0 as (Hj & Hf & Hc & Hg);
    [ destruct Hup as [?|[? ?]];
      first [ discriminate | left; lia | right; split; [lia | done] ] | ].
  all: apply Forall_forall in Hg.
  all: split_and!; try done; try congruence.
  all: try (apply Forall_forall;
            rewrite ?Forall_app, ?Forall_cons, ?Forall_nil in *;
            cbn [cycle_of] in *; intuition (try lia; try congruence)).
  all: exfalso; rewrite ?Forall_app, ?Forall_cons in Hg; cbn [cycle_of] in Hg;
    intuition congruence.
Qed.


Lemma barrier_invariant_reachable s :
  reachable range configs s -> barrier_invariant s.
Proof.
  induction 1 as [|s s' _ IH Hstep].
  - apply barrier_invariant_initial.
  - by apply (barrier_invariant_step s s').
Qed.

Lemma pool_invariant_initial :
  pool_invariant (MaxConcurrentWorkers (General configs)) initial.
Proof.
  constructor; try done.
  - destruct (_ <? 1); split_and!; try done; intros g Hg;
      by apply elem_of_nil in Hg.
  - intros c. unfold workers, workers_expected. simpl. by destruct (decide _).
  - intros c. simpl. lia.
  - intros c _. unfold tasks, undispatched. simpl. by destruct (decide _).
Qed.

Lemma pool_invariant_step s s' :
  barrier_invariant s ->
  pool_invariant (MaxConcurrentWorkers (General configs)) s ->
  step range configs s s' ->
  pool_invariant (MaxConcurrentWorkers (General configs)) s'.
Proof.
  intros Hbar [Hmode Hindex Hworkers Hchannel Htasks] Hstep.
  pose proof (inv_unplanned s Hbar) as Hun. clear Hbar.
  destruct (MaxConcurrentWorkers (General configs) <? 1) eqn:Hkb;
    [apply Z.ltb_lt in Hkb as Hk | apply Z.ltb_ge in Hkb as Hk].
  all: destruct Hmode as (Hall & Hmode).
  all: apply Forall_forall in Hall.
  all: destruct Hstep.
  all: try match goal with
           | Hpc : pc ?st = AtScan |- _ =>
               destruct (Hun (cycle st) (or_intror (conj eq_refl Hpc)))
                 as (Hfresh_j & Hfresh_f & Hfresh_c & Hfresh_g);
               pose proof (tasks_nil _ _ Hfresh_g) as Hfresh_t
           end.
  all: clear Hun.
  all: constructor; rewrite ?Hkb.
  (* the mode *)
  all: try (match goal with |- (forall g, _ -> is_task g = _) /\ _ => idtac end;
            loop_unfold; loop_rewrite; cbn [pc] in *;
            rewrite ?Forall_app, ?Forall_cons in Hall; cbn [is_task] in Hall;
            split_and!;
            [ apply Forall_forall;
              rewrite ?Forall_app, ?Forall_cons, ?Forall_nil;
              cbn [is_task]; intuition (try discriminate)
            | .. ];
            try (intros c0; unfold insert, fn_insert; case_decide);
            intuition (try discriminate; try done)).
  (* the loop indices *)
  all: try (match goal with |- match pc _ with _ => _ end => idtac end;
            loop_unfold; loop_rewrite; cbn [pc] in *;
            first [done | lia | tauto]).
  (* the channel *)
  all: try (match goal with |- forall c, Z.of_nat (length _) <= _ => idtac end;
            intros c0; pose proof (Hchannel c0) as Hchannel0;
            loop_cases; lia).
  (* the workers *)
  all: try (match goal with |- forall c, Z.of_nat (workers _ c) = _ => idtac end;
            intros c0; pose proof (Hworkers c0) as Hworkers0;
            unfold workers_expected in *; loop_unfold; loop_rewrite;
            rewrite ?Forall_app, ?Forall_cons in Hall; cbn [is_task] in Hall;
            loop_lists; cbn [pc] in *;
            repeat (case_decide; subst; try congruence);
            repeat (case_bool_decide; subst; try congruence);
            first [done | lia | tauto | intuition (try discriminate; try lia)]).
  (* the tasks *)
  all: intros c0 Hlt; try lia; pose proof (Htasks c0 Hlt) as Htasks0.
  all: loop_unfold; loop_rewrite;
    rewrite ?Forall_app, ?Forall_cons in Hall; cbn [is_task] in Hall;
    try (exfalso; intuition discriminate).
  all: loop_cases; rewrite <- ?app_assoc; cbn [app];
    first [done | congruence | tauto].
Qed.

Lemma pool_invariant_reachable s :
  reachable range configs s ->
  pool_invariant (MaxConcurrentWorkers (General configs)) s.
Proof.
  induction 1 as [|s s' Hs IH Hstep].
  - apply pool_invariant_initial.
  - apply (pool_invariant_step s s'); [|done|done].
    by apply barrier_invariant_reachable.
Qed.

Lemma held_nil_inv c gs g : held c gs = [] -> g ∈ gs -> held_by c g = [].
Proof.
  intros Hnil Hg. apply list_elem_of_split in Hg as (gs1 & gs2 & ->).
  rewrite held_middle in Hnil.
  apply app_eq_nil in Hnil as [_ Hnil]. by apply app_eq_nil in Hnil as [? _].
Qed.

(** An operation that is executing belongs to the current cycle. *)
Lemma running_in_current_cycle s g :
  barrier_invariant s -> g ∈ goroutines s -> is_running g = true ->
  cycle_of g = cycle s.
Proof.
  intros Hinv Hg Hrun.
  destruct (lt_eq_lt_dec (cycle_of g) (cycle s)) as [[Hlt|Heq]|Hgt]; [|done|].
  - exfalso. pose proof (inv_settled s Hinv (cycle_of g) (or_introl Hlt)) as Hnil.
    unfold in_flight in Hnil.
    apply app_eq_nil in Hnil as [_ Hnil]. apply app_eq_nil in Hnil as [_ Hnil].
    pose proof (held_nil_inv _ _ _ Hnil Hg) as Hheld.
    destruct g as [c job []|c []]; simpl in *; try done;
      by destruct (decide (c = c)).
  - exfalso.
    destruct (inv_unplanned s Hinv (cycle_of g) (or_introl Hgt)) as (_ & _ & _ & Hno).
    by apply (Hno g).
Qed.

(** C1. The barrier. In every state the loop can reach, for every cycle
    the driver has passed the [wg.Wait()] of, and so for every cycle before
    the one whose scan is about to start or has started, each operation
    [processChanges] returned in that cycle has returned, once: none is
    left with the driver, none is in the channel, and no goroutine is about
    to run one or is running one. *)
Theorem C1_barrier_before_next_scan (s : LoopState) (c : nat) :
  reachable range configs s ->
  behind_barrier s c ->
  finished s c ≡ₚ jobFuncs s c
  /\ undispatched s c = []
  /\ workerChannels s c = []
  /\ (forall g, g ∈ goroutines s -> held_by c g = []).
Proof.
  intros Hreach Hbehind.
  pose proof (barrier_invariant_reachable s Hreach) as Hinv.
  pose proof (inv_settled s Hinv c Hbehind) as Hnil.
  pose proof (inv_accounted s Hinv c) as Hacc.
  rewrite Hnil, app_nil_r in Hacc.
  unfold in_flight in Hnil.
  apply app_eq_nil in Hnil as [Hu Hnil]. apply app_eq_nil in Hnil as [Hc Hh].
  split_and!; try done.
  intros g Hg. by apply (held_nil_inv c (goroutines s)).
Qed.


End loop_properties.

(** ** The properties on the examples *)

Lemma C2_expected_completion_count_witness :
  exists jobFunctions wg,
    planCycle map_to_list example_configs example_srcFiles example_destFiles
    = Returns (jobFunctions, wg)
    /\ wg = Z.of_nat (size example_srcFiles) + Z.of_nat (size example_destFiles)
            - Z.of_nat (size (dom example_srcFiles ∩ dom example_destFiles))
    /\ wg = Z.of_nat (length jobFunctions)
    /\ length (List.filter is_write jobFunctions) = size example_srcFiles
    /\ length (List.filter is_delete jobFunctions)
       = size (dom example_destFiles ∖ dom example_srcFiles).
Proof.
  apply (C2_expected_completion_count map_to_list).
  intros m. reflexivity.
Defined.

Lemma C3_one_operation_per_path_witness :
  exists writes deletes wg,
    planCycle map_to_list example_configs example_srcFiles example_destFiles
    = Returns (map (write_of example_configs) writes
                 ++ map (delete_of example_configs) deletes, wg)
    /\ writes ≡ₚ map_to_list example_srcFiles
    /\ deletes ≡ₚ map_to_list (example_destFiles ∖ example_srcFiles)
    /\ (forall p, occurrences p writes
                  = if bool_decide (is_Some (example_srcFiles !! p))
                    then 1%nat else 0%nat)
    /\ (forall p, occurrences p deletes
                  = if bool_decide (is_Some (example_destFiles !! p)
                                    /\ example_srcFiles !! p = None)
                    then 1%nat else 0%nat)
    /\ (forall p, ~ ((0 < occurrences p writes)%nat
                     /\ (0 < occurrences p deletes)%nat)).
Proof.
  apply (C3_one_operation_per_path map_to_list).
  intros m. reflexivity.
Defined.

(** The plan of the example: four Writes, and one Delete for [/old]. *)
Example planCycle_example :
  exists jobFunctions,
    planCycle map_to_list example_configs example_srcFiles example_destFiles
    = Returns (jobFunctions, 5)
    /\ jobFunctions ≡ₚ
       [ func_writeFile "/s/a" (Some (os.stat_of (dir_inode 448))) "/d/a";
         func_writeFile "/s/a/b" (Some (os.stat_of (dir_inode 493))) "/d/a/b";
         func_writeFile "/s/a/b/f" (Some f_record) "/d/a/b/f";
         func_writeFile "/s/pipe" (Some pipe_record) "/d/pipe";
         func_deleteFile (Some (os.stat_of (file_inode 420 1500 []))) "/d/old" ].
Proof.
  eexists. split; [vm_compute; reflexivity|].
  apply (bool_decide_unpack _). vm_compute. reflexivity.
Qed.


(** On the example the Write of [/s/a/b/f] replaces the older file. *)
Example writeFile_example :
  exists w',
    writeFile 2 "/s/a/b/f" (Some f_record) "/d/a/b/f" 1 example_world
    = Returns (w', 0)
    /\ os.files w' !! ["d"; "a"; "b"; "f"] = Some (file_inode 420 2000 [Byte.x58])
    /\ os.stdout w' = [ {| os.log_time := 5000; os.log_action := "Write";
                           os.log_path := "/d/a/b/f" |} ].
Proof.
  eexists. split; [vm_compute; reflexivity|].
  split; vm_compute; reflexivity.
Qed.



(** On the example the directory step of that Write changes the mode of
    [/d/a/b] from 0711 to 0755 and nothing else. *)
Example validateDirExistance_example :
  validateDirExistance 2 "/s/a/b/f" "/d/a/b/f" example_world
  = Returns (os.set_files example_world
               (<[["d"; "a"; "b"] := dir_inode 493]> (os.files example_world))).
Proof. vm_compute. reflexivity. Qed.

Lemma C9_copyFile_validates_size_witness :
  let w := example_world in
  exists (destination : os.File) w1 written w2,
    os.Create w "/d/new" = Ok (destination, w1)
    /\ os.Copy w1 destination (os.resolve w "/s/a/b/f") = Ok (written, w2)
    /\ (exists from, os.files w1 !! os.resolve w "/s/a/b/f" = Some from
                     /\ written = Z.of_nat (length (os.i_data from)))
    /\ copyFile "/s/a/b/f" "/d/new" w
       = if bool_decide (written = fs.Size f_record) then Returns w2
         else Panics (size_mismatch written (fs.Size f_record)).
Proof.
  intros w.
  destruct (os.Create w "/d/new") as [[destination w1]|err] eqn:Hcreate;
    [|by vm_compute in Hcreate].
  destruct (os.Copy w1 destination (os.resolve w "/s/a/b/f"))
    as [[written w2]|err] eqn:Hcopy.
  - exists destination, w1, written, w2. split; [done|]. split; [done|].
    apply (C9_copyFile_validates_size w "/s/a/b/f" "/d/new" f_record
             destination w1 written w2); [|reflexivity|done|done].
    vm_compute. reflexivity.
  - exfalso.
    assert (os.Create w "/d/new"
            = Ok (["d"; "new"],
                  os.set_files w (<[["d"; "new"] := os.new_file w]> (os.files w))))
      as Hc by (vm_compute; reflexivity).
    rewrite Hc in Hcreate. injection Hcreate as <- <-.
    revert Hcopy. vm_compute. discriminate.
Defined.

(** A regular file whose size is not the count of its bytes (a size of 5
    reported for the one byte a reader gets): the copy panics. *)
Example copyFile_size_mismatch :
  copyFile "/s/grown" "/d/grown"
    (os.set_files example_world
       (<[["s"; "grown"] := {| os.i_mode := 420; os.i_modTime := 2000;
                               os.i_size := 5; os.i_data := [Byte.x58] |}]>
          (os.files example_world)))
  = Panics "written != sourceFileStat.Size(); 1 != 5".
Proof. vm_compute. reflexivity. Qed.


(** On the example the Write of the named pipe [/s/fifo] leaves a named
    pipe at [/d/fifo], with the mode bits 0640 and the time of the record. *)
Example writeFile_fifo_example :
  exists w',
    writeFile 2 "/s/fifo" (Some fifo_record) "/d/fifo" 1 example_world
    = Returns (w', 0)
    /\ os.files w' !! ["d"; "fifo"] = Some (pipe_inode 416 3000).
Proof.
  eexists. split; [vm_compute; reflexivity|]. vm_compute. reflexivity.
Qed.


(** The run without a limit, up to the scan of cycle 1. *)
Lemma unbounded_run : reachable map_to_list example_unbounded unbounded_7.
Proof.
  assert (reachable map_to_list example_unbounded unbounded_1) as R1.
  { eapply reachable_step; [apply reachable_initial|].
    apply (step_plan map_to_list example_unbounded initial
             (tree_with_one_file "a.txt")
             (filepath.LstatFails (PathError "lstat" "/d" ENOENT))
             {[ "/a.txt" := Some a_regular_file ]} ∅ [example_job] 1);
      try reflexivity; vm_compute; reflexivity. }
  assert (reachable map_to_list example_unbounded unbounded_2) as R2.
  { eapply reachable_step; [exact R1|]. by apply step_go. }
  assert (reachable map_to_list example_unbounded unbounded_3) as R3.
  { eapply reachable_step; [exact R2|]. by apply step_go_end. }
  assert (reachable map_to_list example_unbounded unbounded_4) as R4.
  { eapply reachable_step; [exact R3|]. by apply step_task_starts. }
  assert (reachable map_to_list example_unbounded unbounded_5) as R5.
  { eapply reachable_step; [exact R4|].
    by apply (step_task_returns map_to_list example_unbounded unbounded_4
                [] [] 0%nat example_job 0). }
  assert (reachable map_to_list example_unbounded unbounded_6) as R6.
  { eapply reachable_step; [exact R5|].
    by apply (step_wait map_to_list example_unbounded unbounded_5). }
  eapply reachable_step; [exact R6|]. by apply step_sleep.
Qed.

(** The run with two workers, up to the first worker inside the
    operation. *)
Lemma bounded_run : reachable map_to_list example_configs bounded_6.
Proof.
  assert (reachable map_to_list example_configs bounded_1) as R1.
  { eapply reachable_step; [apply reachable_initial|].
    apply (step_plan map_to_list example_configs initial
             (tree_with_one_file "a.txt")
             (filepath.LstatFails (PathError "lstat" "/d" ENOENT))
             {[ "/a.txt" := Some a_regular_file ]} ∅ [example_job] 1);
      try reflexivity; vm_compute; reflexivity. }
  assert (reachable map_to_list example_configs bounded_2) as R2.
  { eapply reachable_step; [exact R1|].
    by apply (step_spawn map_to_list example_configs bounded_1 0 [example_job]). }
  assert (reachable map_to_list example_configs bounded_3) as R3.
  { eapply reachable_step; [exact R2|].
    by apply (step_spawn map_to_list example_configs bounded_2 (0 + 1)
                [example_job]). }
  assert (reachable map_to_list example_configs bounded_4) as R4.
  { eapply reachable_step; [exact R3|].
    by apply (step_spawn_end map_to_list example_configs bounded_3 (0 + 1 + 1)
                [example_job]). }
  assert (reachable map_to_list example_configs bounded_5) as R5.
  { eapply reachable_step; [exact R4|].
    by apply (step_send map_to_list example_configs bounded_4 example_job []). }
  eapply reachable_step; [exact R5|].
  by apply (step_worker_receives map_to_list example_configs bounded_5
              [] [Worker 0 WorkerSelect] 0%nat example_job []).
Qed.

Lemma C1_barrier_before_next_scan_witness :
  finished unbounded_7 0 ≡ₚ jobFuncs unbounded_7 0
  /\ undispatched unbounded_7 0 = []
  /\ workerChannels unbounded_7 0 = []
  /\ (forall g, g ∈ goroutines unbounded_7 -> held_by 0 g = []).
Proof.
  apply (C1_barrier_before_next_scan map_to_list
           (fun m => Permutation_refl (map_to_list m))
           example_unbounded unbounded_7 0 unbounded_run).
  left. simpl. lia.
Defined.

(** In that run the one operation of cycle 0 has returned when the scan of
    cycle 1 is about to start. *)
Example unbounded_run_finished :
  cycle unbounded_7 = 1%nat /\ pc unbounded_7 = AtScan
  /\ jobFuncs unbounded_7 0 = [example_job]
  /\ finished unbounded_7 0 = [example_job].
Proof. by split_and!. Qed.


(** In that run one operation is executing and both workers are alive. *)
Example bounded_run_state :
  running bounded_6 = 1%nat /\ workers bounded_6 0 = 2%nat.
Proof. by split. Qed.

(** ** Strings and paths

    The paths the program meets in a sound configuration are clean: names
    joined by the separator, from the root directory or not. On those,
    [filepath.Clean], [filepath.Join], [filepath.Dir] and
    [strings.Replace] have closed forms. *)

Ltac append_cons :=
  repeat first
    [ progress change (String ?c ?s +:+ ?t) with (String c (s +:+ t))
    | progress change (EmptyString +:+ ?t) with t ].

Lemma append_nil_r (s : string) : s +:+ "" = s.
Proof. induction s as [|a s IH]; [done|]. append_cons. by f_equal. Qed.

Lemma append_assoc (s1 s2 s3 : string) : (s1 +:+ s2) +:+ s3 = s1 +:+ s2 +:+ s3.
Proof. induction s1 as [|a s1 IH]; [done|]. append_cons. by f_equal. Qed.

Lemma is_name_spec e :
  is_name e = true ->
  e <> "" /\ filepath.has_separator e = false /\ e <> "." /\ e <> "..".
Proof.
  unfold is_name. rewrite !andb_true_iff, !negb_true_iff.
  intros [[[H1 H2] H3] H4].
  apply bool_decide_eq_false in H1, H3, H4. done.
Qed.

Lemma split_slash_nonempty s : strings.split_slash s <> [].
Proof.
  induction s as [|c s IH]; [done|]. simpl.
  destruct (Ascii.eqb c "/"); [done|]. by destruct (strings.split_slash s).
Qed.

Lemma split_slash_no_separator s :
  filepath.has_separator s = false -> strings.split_slash s = [s].
Proof.
  induction s as [|c s IH]; [done|]. simpl.
  intros [Hc Hs]%orb_false_iff. rewrite Hc, (IH Hs). done.
Qed.

Lemma split_slash_app a b :
  strings.split_slash (a +:+ "/" +:+ b)
  = strings.split_slash a ++ strings.split_slash b.
Proof.
  induction a as [|c a IH]; [done|].
  change (String c a +:+ "/" +:+ b) with (String c (a +:+ "/" +:+ b)).
  cbn [strings.split_slash]. rewrite IH.
  destruct (Ascii.eqb c "/"); [done|].
  pose proof (split_slash_nonempty a) as Hne.
  by destruct (strings.split_slash a).
Qed.

Lemma join_slash_cons n rs : strings.join_slash (n :: rs) = n +:+ rel rs.
Proof.
  revert n. induction rs as [|m rs IH]; intros n.
  - simpl. by rewrite append_nil_r.
  - change (strings.join_slash (n :: m :: rs))
      with (n +:+ "/" +:+ strings.join_slash (m :: rs)).
    by rewrite IH.
Qed.

Lemma rel_app rs1 rs2 : rel (rs1 ++ rs2) = rel rs1 +:+ rel rs2.
Proof.
  induction rs1 as [|n rs1 IH]; [done|].
  cbn [app rel]. rewrite IH. by rewrite !append_assoc.
Qed.

Lemma path_of_app rooted es rs :
  es <> [] -> path_of rooted (es ++ rs) = path_of rooted es +:+ rel rs.
Proof.
  intros Hes. destruct es as [|x es]; [done|]. unfold path_of.
  cbn [app]. rewrite !join_slash_cons, rel_app.
  by rewrite !append_assoc.
Qed.

Lemma split_slash_rel rs :
  Forall (fun e => is_name e = true) rs ->
  forall x, strings.split_slash (x +:+ rel rs) = strings.split_slash x ++ rs.
Proof.
  induction 1 as [|n rs Hn Hrs IH]; intros x.
  - simpl. by rewrite append_nil_r, app_nil_r.
  - cbn [rel]. rewrite split_slash_app, IH.
    destruct (is_name_spec n Hn) as (_ & Hsep & _).
    by rewrite (split_slash_no_separator n Hsep).
Qed.

Lemma split_slash_join es :
  es <> [] -> Forall (fun e => is_name e = true) es ->
  strings.split_slash (strings.join_slash es) = es.
Proof.
  intros Hes Hall. destruct es as [|x es]; [done|].
  rewrite join_slash_cons. apply Forall_cons in Hall as [Hx Hall].
  rewrite (split_slash_rel es Hall).
  destruct (is_name_spec x Hx) as (_ & Hsep & _).
  by rewrite (split_slash_no_separator x Hsep).
Qed.

Lemma clean_elem_name rooted out e :
  is_name e = true -> filepath.clean_elem rooted out e = e :: out.
Proof.
  intros (H1 & _ & H2 & H3)%is_name_spec. unfold filepath.clean_elem.
  by rewrite !bool_decide_eq_false_2.
Qed.

Lemma fold_clean_elem_names rooted es :
  Forall (fun e => is_name e = true) es ->
  forall out, fold_left (filepath.clean_elem rooted) es out = rev es ++ out.
Proof.
  induction 1 as [|e es He Hes IH]; intros out; [done|].
  cbn [fold_left rev]. rewrite clean_elem_name by done.
  by rewrite IH, <- app_assoc.
Qed.

Lemma HasPrefix_name_join x es :
  is_name x = true -> strings.HasPrefix (strings.join_slash (x :: es)) "/" = false.
Proof.
  intros (Hne & Hsep & _)%is_name_spec. rewrite join_slash_cons.
  destruct x as [|c x]; [done|]. simpl in Hsep.
  apply orb_false_iff in Hsep as [Hc _]. append_cons.
  cbn [strings.HasPrefix]. rewrite Ascii.eqb_sym. by rewrite Hc.
Qed.

Lemma split_slash_rooted s :
  strings.split_slash ("/" +:+ s) = "" :: strings.split_slash s.
Proof. reflexivity. Qed.

(** [filepath.Clean] leaves a clean path as it is. *)
Lemma Clean_path_of rooted es :
  es <> [] -> Forall (fun e => is_name e = true) es ->
  filepath.Clean (path_of rooted es) = path_of rooted es.
Proof.
  intros Hes Hall. unfold filepath.Clean, path_of, filepath.clean_elems.
  cbv zeta. destruct rooted.
  - rewrite (HasPrefix_app "/"), split_slash_rooted. cbn [fold_left].
    change (filepath.clean_elem true [] "") with (@nil string).
    rewrite split_slash_join, fold_clean_elem_names by done.
    by rewrite app_nil_r, rev_involutive.
  - change ("" +:+ ?x) with x.
    destruct es as [|x es]; [done|].
    rewrite HasPrefix_name_join by (by apply Forall_cons in Hall as [? _]).
    rewrite split_slash_join, fold_clean_elem_names by done.
    rewrite app_nil_r, rev_involutive.
    rewrite bool_decide_eq_false_2; [done|].
    apply Forall_cons in Hall as [(Hne & _)%is_name_spec _].
    rewrite join_slash_cons. by destruct x.
Qed.

Lemma path_of_nonempty rooted es :
  es <> [] -> Forall (fun e => is_name e = true) es -> path_of rooted es <> "".
Proof.
  intros Hes Hall. unfold path_of. destruct rooted; [done|].
  destruct es as [|x es]; [done|].
  apply Forall_cons in Hall as [(Hne & _)%is_name_spec _].
  rewrite join_slash_cons. by destruct x.
Qed.

(** [filepath.Join] of a clean path and a name. *)
Lemma Join_path_of rooted es name :
  es <> [] -> Forall (fun e => is_name e = true) es -> is_name name = true ->
  filepath.Join [path_of rooted es; name] = path_of rooted (es ++ [name]).
Proof.
  intros Hes Hall Hname. cbn [filepath.Join].
  rewrite bool_decide_eq_false_2 by (by apply path_of_nonempty).
  change (strings.join_slash [path_of rooted es; name])
    with (path_of rooted es +:+ "/" +:+ name).
  replace (path_of rooted es +:+ "/" +:+ name)
    with (path_of rooted (es ++ [name])).
  - apply Clean_path_of; [by destruct es|].
    apply Forall_app. split; [done|]. by apply Forall_cons.
  - rewrite path_of_app by done. cbn [rel]. by rewrite append_nil_r.
Qed.

Lemma rel_nonempty rs : rs <> [] -> rel rs <> "".
Proof. by destruct rs. Qed.

Lemma Replace_path_of rooted es rs :
  es <> [] ->
  strings.Replace (path_of rooted (es ++ rs)) (path_of rooted es) "" 1 = rel rs.
Proof. intros Hes. rewrite path_of_app by done. apply Replace_strips_prefix. Qed.

Lemma HasPrefix_name_app x t :
  is_name x = true -> strings.HasPrefix (x +:+ t) "/" = false.
Proof.
  intros (Hne & Hsep & _)%is_name_spec.
  destruct x as [|c x]; [done|]. simpl in Hsep.
  apply orb_false_iff in Hsep as [Hc _]. append_cons.
  cbn [strings.HasPrefix]. rewrite Ascii.eqb_sym. by rewrite Hc.
Qed.

Lemma split_slash_rel_alone rs :
  rs <> [] -> Forall (fun e => is_name e = true) rs ->
  strings.split_slash (rel rs) = "" :: rs.
Proof.
  intros Hrs Hall. destruct rs as [|n rs]; [done|]. cbn [rel].
  rewrite split_slash_rooted. f_equal.
  apply Forall_cons in Hall as [Hn Hall]. rewrite (split_slash_rel rs Hall).
  destruct (is_name_spec n Hn) as (_ & Hsep & _).
  by rewrite (split_slash_no_separator n Hsep).
Qed.

Lemma HasPrefix_path_of rooted es t :
  es <> [] -> Forall (fun e => is_name e = true) es ->
  strings.HasPrefix (path_of rooted es +:+ t) "/" = rooted.
Proof.
  intros Hes Hall. unfold path_of. destruct rooted.
  - rewrite append_assoc. apply (HasPrefix_app "/").
  - change ("" +:+ ?x) with x. destruct es as [|x es]; [done|].
    rewrite join_slash_cons, append_assoc.
    apply HasPrefix_name_app. by apply Forall_cons in Hall as [? _].
Qed.

Lemma split_slash_path_of rooted es :
  es <> [] -> Forall (fun e => is_name e = true) es ->
  strings.split_slash (path_of rooted es) = (if rooted then [""] else []) ++ es.
Proof.
  intros Hes Hall. unfold path_of. destruct rooted.
  - rewrite split_slash_rooted. by rewrite split_slash_join.
  - change ("" +:+ ?x) with x. by rewrite split_slash_join.
Qed.

(** [filepath.Join] of a clean path and the names below it. *)
Lemma Join_rel rooted es rs :
  es <> [] -> rs <> [] ->
  Forall (fun e => is_name e = true) es ->
  Forall (fun e => is_name e = true) rs ->
  filepath.Join [path_of rooted es; rel rs] = path_of rooted (es ++ rs).
Proof.
  intros Hes Hrs Hall Hrel. cbn [filepath.Join].
  rewrite bool_decide_eq_false_2 by (by apply path_of_nonempty).
  change (strings.join_slash [path_of rooted es; rel rs])
    with (path_of rooted es +:+ "/" +:+ rel rs).
  unfold filepath.Clean, filepath.clean_elems. cbv zeta.
  rewrite HasPrefix_path_of by done.
  rewrite split_slash_app, split_slash_path_of, split_slash_rel_alone by done.
  assert (fold_left (filepath.clean_elem rooted)
            (((if rooted then [""] else []) ++ es) ++ "" :: rs) []
          = rev (es ++ rs)) as ->.
  { rewrite !fold_left_app.
    assert (fold_left (filepath.clean_elem rooted)
              (if rooted then [""] else []) [] = []) as -> by (by destruct rooted).
    cbn [fold_left]. rewrite fold_clean_elem_names by done.
    change (filepath.clean_elem rooted ?o "") with o.
    rewrite fold_clean_elem_names by done.
    by rewrite rev_app_distr, app_nil_r. }
  rewrite rev_involutive. unfold path_of. destruct rooted; [done|].
  rewrite bool_decide_eq_false_2; [done|].
  apply (path_of_nonempty false); [by destruct es|]. by apply Forall_app.
Qed.

Lemma join_slash_nonempty n rs :
  is_name n = true -> strings.join_slash (n :: rs) <> "".
Proof.
  intros (Hne & _)%is_name_spec. rewrite join_slash_cons. by destruct n.
Qed.

Lemma join_slash_app l rs :
  l <> [] -> strings.join_slash (l ++ rs) = strings.join_slash l +:+ rel rs.
Proof.
  intros Hl. destruct l as [|x l]; [done|]. cbn [app].
  by rewrite !join_slash_cons, rel_app, append_assoc.
Qed.

Lemma join_slash_snoc_append front x n :
  strings.join_slash (front ++ [x +:+ n])
  = strings.join_slash (front ++ [x]) +:+ n.
Proof.
  destruct front as [|y front].
  - done.
  - cbn [app]. rewrite !join_slash_cons, !rel_app. cbn [rel].
    by rewrite !append_nil_r, !append_assoc.
Qed.

(** [filepath.Join] of a clean path written with a separator at its end
    and names joined by the separator. *)
Lemma Join_trailing rooted es n rs :
  es <> [] -> Forall (fun e => is_name e = true) es ->
  Forall (fun e => is_name e = true) (n :: rs) ->
  filepath.Join [path_of rooted es +:+ "/"; strings.join_slash (n :: rs)]
  = path_of rooted (es ++ n :: rs).
Proof.
  intros Hes Hall Hrs. cbn [filepath.Join].
  rewrite bool_decide_eq_false_2.
  2:{ pose proof (path_of_nonempty rooted es Hes Hall).
      by destruct (path_of rooted es). }
  change (strings.join_slash [path_of rooted es +:+ "/"; ?k])
    with ((path_of rooted es +:+ "/") +:+ "/" +:+ k).
  unfold filepath.Clean, filepath.clean_elems. cbv zeta.
  rewrite (append_assoc (path_of rooted es)), HasPrefix_path_of by done.
  rewrite <- (append_assoc (path_of rooted es)).
  rewrite split_slash_app.
  change (path_of rooted es +:+ "/") with (path_of rooted es +:+ "/" +:+ "").
  rewrite split_slash_app, (split_slash_path_of rooted es) by done.
  rewrite (split_slash_join (n :: rs)); [|done|done].
  assert (fold_left (filepath.clean_elem rooted)
            ((((if rooted then [""] else []) ++ es) ++ strings.split_slash "")
             ++ n :: rs) []
          = rev (es ++ n :: rs)) as ->.
  { rewrite !fold_left_app.
    assert (fold_left (filepath.clean_elem rooted)
              (if rooted then [""] else []) [] = []) as -> by (by destruct rooted).
    cbn [strings.split_slash]. rewrite (fold_clean_elem_names rooted es) by done.
    change (fold_left ?f ("" :: ?l) ?o) with (fold_left f l (f o "")).
    change (filepath.clean_elem rooted ?o "") with o.
    rewrite (fold_clean_elem_names rooted (n :: rs)) by done.
    by rewrite rev_app_distr, app_nil_r. }
  rewrite rev_involutive. unfold path_of. destruct rooted; [done|].
  rewrite bool_decide_eq_false_2; [done|].
  apply (path_of_nonempty false); [by destruct es|]. by apply Forall_app.
Qed.

(** Name resolution and [filepath.Dir] on the clean paths from the root
    directory. *)
Lemma resolve_path_of w es :
  Forall (fun e => is_name e = true) es -> os.resolve w (path_of true es) = es.
Proof.
  intros Hall. unfold os.resolve.
  assert (strings.HasPrefix (path_of true es) "/" = true) as ->
    by apply (HasPrefix_app "/").
  assert (forall out, fold_left os.resolve_elem es out = rev es ++ out) as Hfold.
  { clear w. induction Hall as [|e es He Hes IH]; intros out; [done|].
    cbn [fold_left rev]. rewrite <- app_assoc, IH. f_equal.
    destruct (is_name_spec e He) as (H1 & _ & H2 & H3).
    unfold os.resolve_elem. by rewrite !bool_decide_eq_false_2. }
  destruct (decide (es = [])) as [->|Hes]; [done|].
  unfold path_of. rewrite split_slash_rooted, split_slash_join by done.
  cbn [fold_left]. change (os.resolve_elem [] "") with (@nil string).
  by rewrite Hfold, app_nil_r, rev_involutive.
Qed.

Lemma has_separator_app p t : filepath.has_separator (p +:+ "/" +:+ t) = true.
Proof.
  induction p as [|c p IH]; [done|].
  change (String c p +:+ ?x) with (String c (p +:+ x)).
  cbn [filepath.has_separator]. rewrite IH. apply orb_true_r.
Qed.

Lemma through_last_separator_none s :
  filepath.has_separator s = false -> filepath.through_last_separator s = "".
Proof.
  destruct s as [|c s]; [done|]. cbn [filepath.through_last_separator].
  by intros ->.
Qed.

Lemma through_last_separator_app p base :
  filepath.has_separator base = false ->
  filepath.through_last_separator (p +:+ "/" +:+ base) = p +:+ "/".
Proof.
  intros Hbase. induction p as [|c p IH].
  - change ("" +:+ ?x) with x. change ("/" +:+ base) with (String "/" base).
    cbn [filepath.through_last_separator filepath.has_separator].
    rewrite Ascii.eqb_refl. cbn [orb].
    by rewrite (through_last_separator_none base Hbase).
  - change (String c p +:+ ?x) with (String c (p +:+ x)).
    cbn [filepath.through_last_separator].
    change (String c (p +:+ "/" +:+ base)) with (String c p +:+ "/" +:+ base).
    rewrite has_separator_app. by rewrite IH.
Qed.

Lemma Clean_trailing_separator rooted es :
  es <> [] -> Forall (fun e => is_name e = true) es ->
  filepath.Clean (path_of rooted es +:+ "/") = path_of rooted es.
Proof.
  intros Hes Hall. unfold filepath.Clean, filepath.clean_elems. cbv zeta.
  rewrite HasPrefix_path_of by done.
  change (path_of rooted es +:+ "/") with (path_of rooted es +:+ "/" +:+ "").
  rewrite split_slash_app, split_slash_path_of by done.
  assert (fold_left (filepath.clean_elem rooted)
            (((if rooted then [""] else []) ++ es) ++ strings.split_slash "") []
          = rev es) as ->.
  { rewrite !fold_left_app.
    assert (fold_left (filepath.clean_elem rooted)
              (if rooted then [""] else []) [] = []) as -> by (by destruct rooted).
    cbn [strings.split_slash fold_left].
    change (filepath.clean_elem rooted ?o "") with o.
    rewrite fold_clean_elem_names by done. by rewrite app_nil_r. }
  rewrite rev_involutive. unfold path_of. destruct rooted; [done|].
  rewrite bool_decide_eq_false_2; [done|]. by apply (path_of_nonempty false).
Qed.

Lemma Dir_path_of_snoc rooted front base :
  front <> [] -> Forall (fun e => is_name e = true) front ->
  is_name base = true ->
  filepath.Dir (path_of rooted (front ++ [base])) = path_of rooted front.
Proof.
  intros Hfront Hall Hbase.
  destruct (is_name_spec base Hbase) as (_ & Hsep & _).
  unfold filepath.Dir. rewrite path_of_app by done. cbn [rel].
  rewrite append_nil_r, through_last_separator_app by done.
  by apply Clean_trailing_separator.
Qed.

Lemma Dir_path_of es :
  Forall (fun e => is_name e = true) es ->
  filepath.Dir (path_of true es) = path_of true (removelast es).
Proof.
  intros Hall. destruct (decide (es = [])) as [->|Hes]; [done|].
  destruct (exists_last Hes) as (front & base & ->).
  rewrite removelast_last. apply Forall_app in Hall as [Hfront Hbase].
  apply Forall_cons in Hbase as [Hbase _].
  destruct (decide (front = [])) as [->|Hfront']; [|by apply Dir_path_of_snoc].
  destruct (is_name_spec base Hbase) as (_ & Hsep & _).
  unfold filepath.Dir.
  change (path_of true ([] ++ [base])) with ("" +:+ "/" +:+ base).
  by rewrite through_last_separator_app.
Qed.

Lemma removelast_prefix {A} (l : list A) : removelast l `prefix_of` l.
Proof.
  destruct (decide (l = [])) as [->|Hl]; [done|].
  destruct (exists_last Hl) as (front & x & ->). rewrite removelast_last.
  by exists [x].
Qed.

Lemma Forall_removelast {A} (P : A -> Prop) (l : list A) :
  Forall P l -> Forall P (removelast l).
Proof.
  intros Hall. destruct (decide (l = [])) as [->|Hl]; [done|].
  destruct (exists_last Hl) as (front & x & ->). rewrite removelast_last.
  by apply Forall_app in Hall as [? _].
Qed.

Lemma length_lt_1 (s : string) : (String.length s <? 1)%nat = bool_decide (s = "").
Proof. by destruct s. Qed.

(** [filepath.Clean], and so [filepath.Dir], never returns the empty
    string. *)
Lemma Clean_nonempty path : filepath.Clean path <> "".
Proof.
  unfold filepath.Clean. cbv zeta.
  destruct (strings.HasPrefix path "/"); [done|].
  by case_bool_decide.
Qed.

Lemma Dir_nonempty path : filepath.Dir path <> "".
Proof. apply Clean_nonempty. Qed.

Lemma Dir_no_separator name :
  filepath.has_separator name = false -> filepath.Dir name = ".".
Proof.
  intros Hsep. unfold filepath.Dir.
  by rewrite through_last_separator_none.
Qed.

(** [strings.Replace(s, ".", "", 1)] removes the first dot. *)
Lemma replace_from_first_dot a b :
  has_dot a = false ->
  strings.replace_from (a +:+ String "." b) "." "" 0 (Some 1%nat) = a +:+ b.
Proof.
  intros Ha. induction a as [|c a IH].
  - append_cons. cbn. by destruct b.
  - simpl in Ha. apply orb_false_iff in Ha as [Hc Ha]. append_cons.
    cbn [strings.replace_from strings.HasPrefix].
    rewrite Ascii.eqb_sym, Hc. by rewrite IH.
Qed.

Lemma Replace_first_dot a b :
  has_dot a = false -> strings.Replace (a +:+ "." +:+ b) "." "" 1 = a +:+ b.
Proof.
  intros Ha. unfold strings.Replace. cbn.
  change ("." +:+ b) with (String "." b). by apply replace_from_first_dot.
Qed.

Lemma replace_from_no_dot a :
  has_dot a = false -> strings.replace_from a "." "" 0 (Some 1%nat) = a.
Proof.
  intros Ha. induction a as [|c a IH]; [done|].
  simpl in Ha. apply orb_false_iff in Ha as [Hc Ha].
  cbn [strings.replace_from strings.HasPrefix].
  rewrite Ascii.eqb_sym, Hc. by rewrite IH.
Qed.

Lemma Replace_no_dot a :
  has_dot a = false -> strings.Replace a "." "" 1 = a.
Proof.
  intros Ha. unfold strings.Replace. cbn. by apply replace_from_no_dot.
Qed.

Lemma rel_inj rs rs' :
  Forall (fun e => is_name e = true) rs ->
  Forall (fun e => is_name e = true) rs' ->
  rel rs = rel rs' -> rs = rs'.
Proof.
  intros Hrs Hrs' Heq.
  destruct rs as [|n rs], rs' as [|n' rs']; [done | | |];
    try (cbn [rel] in Heq; change ("/" +:+ ?x) with (String "/" x) in Heq;
         discriminate).
  assert (n :: rs <> []) as Hn by done.
  assert (n' :: rs' <> []) as Hn' by done.
  pose proof (split_slash_rel_alone (n :: rs) Hn Hrs) as H1.
  pose proof (split_slash_rel_alone (n' :: rs') Hn' Hrs') as H2.
  rewrite Heq in H1. rewrite H1 in H2. by injection H2 as -> ->.
Qed.

Lemma path_of_inj rooted es rs rs' :
  es <> [] ->
  Forall (fun e => is_name e = true) rs ->
  Forall (fun e => is_name e = true) rs' ->
  path_of rooted (es ++ rs) = path_of rooted (es ++ rs') -> rs = rs'.
Proof.
  intros Hes Hrs Hrs'. rewrite !path_of_app by done.
  intros Heq%String.app_inj. by apply rel_inj.
Qed.

(** ** More on the tree scanner *)

Lemma walk_Node {S} (fn : string -> FileInfo -> option error -> S -> option error * S)
  path info readdir entries s :
  filepath.walk fn path (filepath.Node info readdir entries) s
  = if negb (fs.IsDir (fs.Mode info)) then fn path (Some info) None s
    else
      let '(err1, s) := fn path (Some info) readdir s in
      if bool_decide (is_Some readdir) || bool_decide (is_Some err1)
      then (err1, s)
      else filepath.walk_names fn path entries s.
Proof. reflexivity. Qed.

Lemma getDirFiles_func_root srcDir info err files :
  getDirFiles_func srcDir srcDir info err files = (None, files).
Proof.
  unfold getDirFiles_func. rewrite bool_decide_eq_false_2; [done | by intros H].
Qed.

Lemma getDirFiles_nothing_to_read dir tree :
  nothing_to_read tree = true -> getDirFiles dir tree = Returns ∅.
Proof.
  intros Hnothing. unfold getDirFiles, filepath.Walk.
  destruct tree as [err|info readdir entries].
  - by rewrite getDirFiles_func_root.
  - cbn [filepath.walk nothing_to_read] in *.
    destruct (negb (fs.IsDir (fs.Mode info)));
      rewrite getDirFiles_func_root; [done|].
    cbn [orb] in Hnothing. by rewrite Hnothing.
Qed.

Lemma getDirFiles_Returns srcDir tree :
  exists files, getDirFiles srcDir tree = Returns files.
Proof.
  unfold getDirFiles.
  pose proof (Walk_getDirFiles_func srcDir tree ∅) as Hnil.
  destruct (filepath.Walk (getDirFiles_func srcDir) srcDir tree ∅)
    as [err files]. cbn [fst] in Hnil. subst err. eauto.
Qed.

(** The function literal of [getDirFiles] at a path below a clean root:
    the key is the names below the root. *)
Lemma getDirFiles_func_below rooted es rs info err files :
  es <> [] ->
  getDirFiles_func (path_of rooted es) (path_of rooted (es ++ rs)) info err files
  = (None, if bool_decide (rs = []) then files else <[rel rs := info]> files).
Proof.
  intros Hes. rewrite path_of_app by done. case_bool_decide as Hrs.
  - subst rs. cbn [rel]. rewrite append_nil_r. unfold getDirFiles_func.
    rewrite bool_decide_eq_false_2; [done | by intros H].
  - apply getDirFiles_func_strips. by apply rel_nonempty.
Qed.

Section two_roots.
Variables (r1 r2 : bool) (es1 es2 : list string).
Hypothesis es1_names : Forall (fun e => is_name e = true) es1.
Hypothesis es2_names : Forall (fun e => is_name e = true) es2.
Hypothesis es1_nonempty : es1 <> [].
Hypothesis es2_nonempty : es2 <> [].

Lemma walk_two_roots :
  (forall t, names_ok t = true ->
     forall rs files, Forall (fun e => is_name e = true) rs ->
       filepath.walk (getDirFiles_func (path_of r1 es1))
         (path_of r1 (es1 ++ rs)) t files
       = filepath.walk (getDirFiles_func (path_of r2 es2))
           (path_of r2 (es2 ++ rs)) t files)
  /\ (forall names, forest_names_ok names = true ->
       forall rs files, Forall (fun e => is_name e = true) rs ->
         filepath.walk_names (getDirFiles_func (path_of r1 es1))
           (path_of r1 (es1 ++ rs)) names files
         = filepath.walk_names (getDirFiles_func (path_of r2 es2))
             (path_of r2 (es2 ++ rs)) names files).
Proof.
  apply Tree_Forest_mutind.
  - intros err _ rs files Hrs. cbn [filepath.walk].
    by rewrite !getDirFiles_func_below.
  - intros info readdir entries IH Hok rs files Hrs. cbn [filepath.walk].
    rewrite !getDirFiles_func_below by done.
    destruct (negb (fs.IsDir (fs.Mode info))); [done|].
    destruct (bool_decide (is_Some readdir) || bool_decide (is_Some None));
      [done|]. by apply IH.
  - done.
  - intros name t IHt rest IHrest Hok rs files Hrs.
    cbn [forest_names_ok] in Hok.
    apply andb_true_iff in Hok as [[Hname Ht]%andb_true_iff Hrest].
    assert (Forall (fun e => is_name e = true) (rs ++ [name])) as Hrs'.
    { apply Forall_app. split; [done|]. by apply Forall_cons. }
    assert (forall r es, es <> [] -> Forall (fun e => is_name e = true) es ->
              filepath.Join [path_of r (es ++ rs); name]
              = path_of r (es ++ rs ++ [name])) as Hjoin.
    { intros r es Hes Hall. rewrite Join_path_of; [by rewrite <- app_assoc| |
        |done].
      - by destruct es.
      - by apply Forall_app. }
    destruct t as [err|info readdir entries];
      [cbn [filepath.walk_names] | rewrite !walk_names_Node].
    + rewrite !Hjoin by done. rewrite !getDirFiles_func_below by done.
      by apply IHrest.
    + rewrite !Hjoin by done.
      rewrite (IHt Ht (rs ++ [name]) files Hrs').
      destruct (filepath.walk (getDirFiles_func (path_of r2 es2))
                  (path_of r2 (es2 ++ rs ++ [name]))
                  (filepath.Node info readdir entries) files) as [[e|] files'].
      * destruct (negb (fs.IsDir (fs.Mode info)) || negb (filepath.is_skip e));
          [done|]. by apply IHrest.
      * by apply IHrest.
Qed.

End two_roots.

(** X6. The snapshot does not depend on where the tree is rooted: for
    two clean roots (names joined by the separator, from the root
    directory or not) and a tree whose entries have names, [getDirFiles]
    returns the same map. The keys of the source snapshot and of the
    destination snapshot are so comparable, which the diff of
    [processChanges] relies on. *)
Theorem getDirFiles_root_independent
  (r1 r2 : bool) (es1 es2 : list string) (tree : filepath.Tree) :
  es1 <> [] -> es2 <> [] ->
  Forall (fun e => is_name e = true) es1 ->
  Forall (fun e => is_name e = true) es2 ->
  names_ok tree = true ->
  getDirFiles (path_of r1 es1) tree = getDirFiles (path_of r2 es2) tree.
Proof.
  intros Hes1 Hes2 Hall1 Hall2 Hok. unfold getDirFiles, filepath.Walk.
  destruct tree as [err|info readdir entries].
  - pose proof (getDirFiles_func_below r1 es1 [] None (Some err) ∅ Hes1) as H1.
    pose proof (getDirFiles_func_below r2 es2 [] None (Some err) ∅ Hes2) as H2.
    rewrite app_nil_r in H1, H2. by rewrite H1, H2.
  - pose proof (proj1 (walk_two_roots r1 r2 es1 es2 Hall1 Hall2 Hes1 Hes2)
                  _ Hok [] ∅ (Forall_nil_2 _)) as Hw.
    rewrite !app_nil_r in Hw. by rewrite Hw.
Qed.


Lemma keys_below_record rs info files :
  Forall (fun e => is_name e = true) rs -> keys_below files ->
  keys_below (if bool_decide (rs = []) then files else <[rel rs := info]> files).
Proof.
  intros Hrs Hfiles. case_bool_decide as Hnil; [done|].
  intros k [Hk|Hk]%lookup_insert_is_Some; [|apply Hfiles; tauto].
  subst k. by exists rs.
Qed.

Lemma walk_keys_below rooted es :
  es <> [] -> Forall (fun e => is_name e = true) es ->
  (forall t, names_ok t = true ->
     forall rs files, Forall (fun e => is_name e = true) rs ->
       keys_below files ->
       keys_below (filepath.walk (getDirFiles_func (path_of rooted es))
                     (path_of rooted (es ++ rs)) t files).2)
  /\ (forall names, forest_names_ok names = true ->
       forall rs files, Forall (fun e => is_name e = true) rs ->
         keys_below files ->
         keys_below (filepath.walk_names (getDirFiles_func (path_of rooted es))
                       (path_of rooted (es ++ rs)) names files).2).
Proof.
  intros Hes Hall. apply Tree_Forest_mutind.
  - intros err _ rs files Hrs Hfiles. cbn [filepath.walk].
    rewrite getDirFiles_func_below by done. by apply keys_below_record.
  - intros info readdir entries IH Hok rs files Hrs Hfiles.
    cbn [filepath.walk]. rewrite !getDirFiles_func_below by done.
    pose proof (keys_below_record rs (Some info) files Hrs Hfiles) as Hrec.
    destruct (negb (fs.IsDir (fs.Mode info))); [done|].
    destruct (bool_decide (is_Some readdir) || bool_decide (is_Some None));
      [done|]. by apply IH.
  - done.
  - intros name t IHt rest IHrest Hok rs files Hrs Hfiles.
    cbn [forest_names_ok] in Hok.
    apply andb_true_iff in Hok as [[Hname Ht]%andb_true_iff Hrest].
    assert (Forall (fun e => is_name e = true) (rs ++ [name])) as Hrs'.
    { apply Forall_app. split; [done|]. by apply Forall_cons. }
    assert (filepath.Join [path_of rooted (es ++ rs); name]
            = path_of rooted (es ++ rs ++ [name])) as Hjoin.
    { rewrite Join_path_of; [by rewrite <- app_assoc| | |done].
      - by destruct es.
      - by apply Forall_app. }
    destruct t as [err|info readdir entries];
      [cbn [filepath.walk_names] | rewrite walk_names_Node].
    + rewrite Hjoin, getDirFiles_func_below by done.
      apply IHrest; try done. by apply keys_below_record.
    + rewrite Hjoin.
      pose proof (IHt Ht (rs ++ [name]) files Hrs' Hfiles) as Hsub.
      destruct (filepath.walk (getDirFiles_func (path_of rooted es))
                  (path_of rooted (es ++ rs ++ [name]))
                  (filepath.Node info readdir entries) files) as [[e|] files'];
        cbn [snd] in Hsub.
      * destruct (negb (fs.IsDir (fs.Mode info)) || negb (filepath.is_skip e));
          [done|]. by apply IHrest.
      * by apply IHrest.
Qed.

(** The keys of the snapshot of a clean root. *)
Lemma getDirFiles_keys_below rooted es tree files :
  es <> [] -> Forall (fun e => is_name e = true) es ->
  names_ok tree = true ->
  getDirFiles (path_of rooted es) tree = Returns files -> keys_below files.
Proof.
  intros Hes Hall Hok. unfold getDirFiles, filepath.Walk.
  assert (keys_below (∅ : gmap string FileInfo)) as Hempty.
  { intros k [? Hk]. by rewrite lookup_empty in Hk. }
  destruct tree as [err|info readdir entries].
  - pose proof (getDirFiles_func_below rooted es [] None (Some err) ∅ Hes) as H1.
    rewrite app_nil_r in H1. rewrite H1. cbn. by intros [= <-].
  - pose proof (proj1 (walk_keys_below rooted es Hes Hall) _ Hok [] ∅
                  (Forall_nil_2 _) Hempty) as Hw.
    rewrite app_nil_r in Hw.
    destruct (filepath.walk (getDirFiles_func (path_of rooted es))
                (path_of rooted es) (filepath.Node info readdir entries) ∅)
      as [[e|] files']; cbn [snd] in Hw.
    + destruct (filepath.is_skip e); [by intros [= <-]|done].
    + by intros [= <-].
Qed.

(** The function literal of [getDirFiles] at a path below a root written
    with a separator at its end. *)
Lemma getDirFiles_func_trailing rooted es n rs info err files :
  es <> [] -> is_name n = true ->
  getDirFiles_func (path_of rooted es +:+ "/")
    (path_of rooted (es ++ n :: rs)) info err files
  = (None, <[strings.join_slash (n :: rs) := info]> files).
Proof.
  intros Hes Hn. rewrite path_of_app by done. cbn [rel].
  rewrite <- join_slash_cons, <- append_assoc.
  apply getDirFiles_func_strips. by apply join_slash_nonempty.
Qed.

Lemma keys_flat_insert n rs info files :
  Forall (fun e => is_name e = true) (n :: rs) -> keys_flat files ->
  keys_flat (<[strings.join_slash (n :: rs) := info]> files).
Proof.
  intros Hrs Hfiles k [Hk|Hk]%lookup_insert_is_Some; [|apply Hfiles; tauto].
  subst k. by exists n, rs.
Qed.

Section trailing.
Variables (rooted : bool) (es : list string).
Hypothesis es_nonempty : es <> [].
Hypothesis es_names : Forall (fun e => is_name e = true) es.

Lemma walk_keys_flat :
  (forall t, names_ok t = true ->
     forall n rs files, Forall (fun e => is_name e = true) (n :: rs) ->
       keys_flat files ->
       keys_flat (filepath.walk (getDirFiles_func (path_of rooted es +:+ "/"))
                    (path_of rooted (es ++ n :: rs)) t files).2)
  /\ (forall names, forest_names_ok names = true ->
       forall n rs files, Forall (fun e => is_name e = true) (n :: rs) ->
         keys_flat files ->
         keys_flat (filepath.walk_names
                      (getDirFiles_func (path_of rooted es +:+ "/"))
                      (path_of rooted (es ++ n :: rs)) names files).2).
Proof.
  apply Tree_Forest_mutind.
  - intros err _ n rs files Hrs Hfiles. cbn [filepath.walk].
    rewrite getDirFiles_func_trailing by (done || by apply Forall_cons in Hrs as [? _]).
    by apply keys_flat_insert.
  - intros info readdir entries IH Hok n rs files Hrs Hfiles.
    cbn [filepath.walk].
    rewrite !getDirFiles_func_trailing
      by (done || by apply Forall_cons in Hrs as [? _]).
    pose proof (keys_flat_insert n rs (Some info) files Hrs Hfiles) as Hrec.
    destruct (negb (fs.IsDir (fs.Mode info))); [done|].
    destruct (bool_decide (is_Some readdir) || bool_decide (is_Some None));
      [done|]. by apply IH.
  - done.
  - intros name t IHt rest IHrest Hok n rs files Hrs Hfiles.
    cbn [forest_names_ok] in Hok.
    apply andb_true_iff in Hok as [[Hname Ht]%andb_true_iff Hrest].
    assert (Forall (fun e => is_name e = true) (n :: rs ++ [name])) as Hrs'.
    { apply Forall_cons in Hrs as [Hn Hrs]. apply Forall_cons. split; [done|].
      apply Forall_app. split; [done|]. by apply Forall_cons. }
    assert (filepath.Join [path_of rooted (es ++ n :: rs); name]
            = path_of rooted (es ++ n :: rs ++ [name])) as Hjoin.
    { rewrite Join_path_of; [by rewrite <- app_assoc| | |done].
      - by destruct es.
      - by apply Forall_app. }
    assert (is_name n = true) as Hn by (by apply Forall_cons in Hrs as [? _]).
    destruct t as [err|info readdir entries];
      [cbn [filepath.walk_names] | rewrite walk_names_Node].
    + rewrite Hjoin, getDirFiles_func_trailing by done.
      apply IHrest; try done. by apply keys_flat_insert.
    + rewrite Hjoin.
      pose proof (IHt Ht n (rs ++ [name]) files Hrs' Hfiles) as Hsub.
      destruct (filepath.walk (getDirFiles_func (path_of rooted es +:+ "/"))
                  (path_of rooted (es ++ n :: rs ++ [name]))
                  (filepath.Node info readdir entries) files) as [[e|] files'];
        cbn [snd] in Hsub.
      * destruct (negb (fs.IsDir (fs.Mode info)) || negb (filepath.is_skip e));
          [done|]. by apply IHrest.
      * by apply IHrest.
Qed.

(** The names of the root itself. *)
Lemma walk_names_root_keys_flat names :
  forest_names_ok names = true ->
  forall files, keys_flat files ->
    keys_flat (filepath.walk_names (getDirFiles_func (path_of rooted es +:+ "/"))
                 (path_of rooted es +:+ "/") names files).2.
Proof.
  induction names as [|name t rest IH]; intros Hok files Hfiles; [done|].
  cbn [forest_names_ok] in Hok.
  apply andb_true_iff in Hok as [[Hname Ht]%andb_true_iff Hrest].
  assert (filepath.Join [path_of rooted es +:+ "/"; name]
          = path_of rooted (es ++ [name])) as Hjoin.
  { apply (Join_trailing rooted es name []); try done. by apply Forall_cons. }
  assert (Forall (fun e => is_name e = true) [name]) as Hrs
    by (by apply Forall_cons).
  destruct t as [err|info readdir entries];
    [cbn [filepath.walk_names] | rewrite walk_names_Node].
  - rewrite Hjoin, getDirFiles_func_trailing by done.
    apply IH; try done. by apply keys_flat_insert.
  - rewrite Hjoin.
    pose proof (proj1 walk_keys_flat _ Ht name [] files Hrs Hfiles) as Hsub.
    destruct (filepath.walk (getDirFiles_func (path_of rooted es +:+ "/"))
                (path_of rooted (es ++ [name]))
                (filepath.Node info readdir entries) files) as [[e|] files'];
      cbn [snd] in Hsub.
    + destruct (negb (fs.IsDir (fs.Mode info)) || negb (filepath.is_skip e));
        [done|]. by apply IH.
    + by apply IH.
Qed.

Lemma getDirFiles_keys_flat tree files :
  names_ok tree = true ->
  getDirFiles (path_of rooted es +:+ "/") tree = Returns files ->
  keys_flat files.
Proof.
  intros Hok. unfold getDirFiles, filepath.Walk.
  assert (keys_flat (∅ : gmap string FileInfo)) as Hempty.
  { intros k [? Hk]. by rewrite lookup_empty in Hk. }
  destruct tree as [err|info readdir entries].
  - rewrite getDirFiles_func_root. by intros [= <-].
  - rewrite walk_Node, !getDirFiles_func_root.
    destruct (negb (fs.IsDir (fs.Mode info))); [by intros [= <-]|].
    destruct (bool_decide (is_Some readdir)
              || bool_decide (is_Some (@None error)));
      [by intros [= <-]|].
    pose proof (walk_names_root_keys_flat entries Hok ∅ Hempty) as Hw.
    destruct (filepath.walk_names _ _ entries ∅) as [[e|] files'];
      cbn [snd] in Hw.
    + destruct (filepath.is_skip e); [by intros [= <-]|done].
    + by intros [= <-].
Qed.

End trailing.

(** X9. An entry whose [Lstat] fails during the walk is recorded with a
    nil [os.FileInfo] (the function literal ignores the error it is
    given), and an operation that has captured a nil record never
    returns: [deleteFile] dereferences it at once, [writeFile] after the
    directory step, if that has not panicked before. *)
Theorem nil_record_never_returns :
  (forall root name info err,
      fs.IsDir (fs.Mode info) = true ->
      root <> filepath.Join [root; name] ->
      getDirFiles root
        (filepath.Node info None
           (filepath.Entry name (filepath.LstatFails err) filepath.NoEntries))
      = Returns {[ strings.Replace (filepath.Join [root; name]) root "" 1 := None ]})
  /\ (forall fuel job wg w r,
        record_of job = None -> call fuel job wg w <> Returns r).
Proof.
  split.
  - intros root name info err Hdir Hne.
    assert (forall i e files,
               getDirFiles_func root root i e files = (None, files)) as Hroot.
    { intros. unfold getDirFiles_func.
      rewrite bool_decide_eq_false_2; [done | by intros H]. }
    unfold getDirFiles, filepath.Walk. cbn [filepath.walk]. rewrite Hdir.
    cbn [negb]. rewrite Hroot.
    rewrite (bool_decide_eq_false_2 (is_Some (@None error)))
      by (by intros [? ?]).
    cbn [orb filepath.walk_names]. unfold getDirFiles_func.
    rewrite bool_decide_eq_true_2 by done. cbn [filepath.is_skip].
    by rewrite insert_empty.
  - intros fuel [p1 p2 p3|p1 p2] wg w r Hnil; simpl in Hnil; subst.
    + cbn [call]. unfold writeFile, writeFile_body.
      destruct (validateDirExistance fuel p1 p3 w); done.
    + done.
Qed.

Section snapshot_entries.
Variables (rooted : bool) (es : list string).
Hypothesis es_nonempty : es <> [].
Hypothesis es_names : Forall (fun e => is_name e = true) es.

Local Abbreviation fn := (getDirFiles_func (path_of rooted es)).

Lemma walk_finds :
  (forall t, names_ok t = true ->
     forall rs0 files, Forall (fun e => is_name e = true) rs0 -> rs0 <> [] ->
       (forall rs', Forall (fun e => is_name e = true) rs' ->
          (filepath.walk fn (path_of rooted (es ++ rs0)) t files).2
            !! rel (rs0 ++ rs')
          = overlay (tree_find t rs') (files !! rel (rs0 ++ rs')))
       /\ (forall rs, Forall (fun e => is_name e = true) rs ->
             ~ rs0 `prefix_of` rs ->
             (filepath.walk fn (path_of rooted (es ++ rs0)) t files).2 !! rel rs
             = files !! rel rs))
  /\ (forall names, forest_names_ok names = true ->
       forall rs0 files, Forall (fun e => is_name e = true) rs0 ->
         (forall n rs', Forall (fun e => is_name e = true) (n :: rs') ->
            (filepath.walk_names fn (path_of rooted (es ++ rs0)) names files).2
              !! rel (rs0 ++ n :: rs')
            = overlay (forest_find names n rs')
                      (files !! rel (rs0 ++ n :: rs')))
         /\ (forall rs, Forall (fun e => is_name e = true) rs ->
               ~ rs0 `prefix_of` rs \/ rs = rs0 ->
               (filepath.walk_names fn (path_of rooted (es ++ rs0)) names
                  files).2 !! rel rs
               = files !! rel rs)).
Proof.
  assert (forall rs0 rs' : list string, rs0 ++ rs' = rs0 -> rs' = []) as Happ.
  { intros rs0 rs' Heq. apply (f_equal length) in Heq.
    rewrite length_app in Heq. destruct rs'; [done | simpl in Heq; lia]. }
  assert (forall (rs0 : list string) n rs', rs0 ++ n :: rs' <> rs0) as Hlonger.
  { intros rs0 n rs' Heq. by apply Happ in Heq. }
  assert (forall rs0 info files,
    Forall (fun e => is_name e = true) rs0 -> rs0 <> [] ->
    (forall rs', Forall (fun e => is_name e = true) rs' ->
       (<[rel rs0 := info]> files : gmap string FileInfo) !! rel (rs0 ++ rs')
       = overlay (match rs' with [] => Some info | _ :: _ => None end)
                 (files !! rel (rs0 ++ rs')))
    /\ (forall rs, Forall (fun e => is_name e = true) rs ->
          ~ rs0 `prefix_of` rs ->
          (<[rel rs0 := info]> files : gmap string FileInfo) !! rel rs
          = files !! rel rs)) as Hleaf.
  { intros rs0 info files Hrs0 Hne. split.
    - intros rs' Hrs'. destruct rs' as [|n rs'].
      + rewrite app_nil_r. apply lookup_insert_eq.
      + apply lookup_insert_ne. intros Heq. apply rel_inj in Heq; try done.
        * by apply (Hlonger rs0 n rs').
        * by apply Forall_app.
    - intros rs Hrs Hnp. apply lookup_insert_ne. intros Heq.
      apply rel_inj in Heq; try done. subst rs. by apply Hnp. }
  apply Tree_Forest_mutind.
  - (* Lstat fails *)
    intros err _ rs0 files Hrs0 Hne. cbn [filepath.walk].
    rewrite getDirFiles_func_below by done.
    rewrite bool_decide_eq_false_2 by done. cbn [snd].
    destruct (Hleaf rs0 None files Hrs0 Hne) as [HA HB]. split; [|done].
    intros rs' Hrs'. rewrite HA by done. by destruct rs'.
  - (* a file or a directory *)
    intros info readdir entries IH Hok rs0 files Hrs0 Hne.
    rewrite walk_Node.
    rewrite !getDirFiles_func_below by done.
    rewrite bool_decide_eq_false_2 by done.
    destruct (Hleaf rs0 (Some info) files Hrs0 Hne) as [HA HB].
    destruct (fs.IsDir (fs.Mode info)) eqn:Hdir; cbn [negb snd].
    2:{ split; [|done]. intros rs' Hrs'. rewrite HA by done.
        destruct rs' as [|n rs']; [done|]. cbn [tree_find]. rewrite Hdir.
        by destruct readdir. }
    rewrite (bool_decide_eq_false_2 (is_Some (@None error)))
      by (by intros [? ?]).
    rewrite orb_false_r. case_bool_decide as Hread; cbn [snd].
    { split; [|done]. intros rs' Hrs'. rewrite HA by done.
      destruct rs' as [|n rs']; [done|]. cbn [tree_find].
      destruct Hread as [e ->]. done. }
    assert (readdir = None) as -> by (destruct readdir; [exfalso; eauto | done]).
    destruct (IH Hok rs0 (<[rel rs0 := Some info]> files) Hrs0) as [IHA IHB].
    split.
    + intros rs' Hrs'. destruct rs' as [|n rs'].
      * rewrite app_nil_r. rewrite IHB by (done || by right).
        by rewrite lookup_insert_eq.
      * rewrite IHA by done. cbn [tree_find]. rewrite Hdir.
        f_equal. specialize (HA (n :: rs') Hrs'). by rewrite HA.
    + intros rs Hrs Hnp. rewrite IHB by (done || by left). by apply HB.
  - (* no names *)
    intros _ rs0 files Hrs0. cbn [filepath.walk_names snd]. by split.
  - (* a name, and the names after it *)
    intros name t IHt rest IHrest Hok rs0 files Hrs0.
    cbn [forest_names_ok] in Hok.
    apply andb_true_iff in Hok as [[Hname Ht]%andb_true_iff Hrest].
    assert (Forall (fun e => is_name e = true) (rs0 ++ [name])) as Hrs1.
    { apply Forall_app. split; [done|]. by apply Forall_cons. }
    assert (rs0 ++ [name] <> []) as Hne1 by (by destruct rs0).
    assert (filepath.Join [path_of rooted (es ++ rs0); name]
            = path_of rooted (es ++ rs0 ++ [name])) as Hjoin.
    { rewrite Join_path_of; [by rewrite <- app_assoc| | |done].
      - by destruct es.
      - by apply Forall_app. }
    (* the files after this name, whatever it is *)
    assert (exists files1,
      filepath.walk_names fn (path_of rooted (es ++ rs0))
        (filepath.Entry name t rest) files
      = filepath.walk_names fn (path_of rooted (es ++ rs0)) rest files1
      /\ (forall rs', Forall (fun e => is_name e = true) rs' ->
            files1 !! rel ((rs0 ++ [name]) ++ rs')
            = overlay (tree_find t rs') (files !! rel ((rs0 ++ [name]) ++ rs')))
      /\ (forall rs, Forall (fun e => is_name e = true) rs ->
            ~ (rs0 ++ [name]) `prefix_of` rs ->
            files1 !! rel rs = files !! rel rs))
      as (files1 & Hstep & H1A & H1B).
    { destruct t as [err|info readdir entries].
      - exists (<[rel (rs0 ++ [name]) := None]> files).
        cbn [filepath.walk_names]. rewrite Hjoin.
        rewrite getDirFiles_func_below by done.
        rewrite bool_decide_eq_false_2 by done.
        split; [done|].
        destruct (Hleaf (rs0 ++ [name]) None files Hrs1 Hne1) as [HA HB].
        split; [|done]. intros rs' Hrs'. rewrite HA by done. by destruct rs'.
      - exists (filepath.walk fn (path_of rooted (es ++ rs0 ++ [name]))
                  (filepath.Node info readdir entries) files).2.
        rewrite walk_names_Node, Hjoin.
        pose proof (proj1 (walk_getDirFiles_func (path_of rooted es))
                      (filepath.Node info readdir entries)
                      (path_of rooted (es ++ rs0 ++ [name])) files) as Hnil.
        destruct (IHt Ht (rs0 ++ [name]) files Hrs1 Hne1) as [HA HB].
        destruct (filepath.walk fn (path_of rooted (es ++ rs0 ++ [name]))
                    (filepath.Node info readdir entries) files) as [r files1].
        cbn [fst snd] in *. subst r. split; [done|].
        by split. }
    rewrite Hstep.
    destruct (IHrest Hrest rs0 files1 Hrs0) as [IHA IHB]. split.
    + intros n rs' Hrs'. rewrite IHA by done. cbn [forest_find].
      destruct (forest_find rest n rs') as [x|]; [done|]. cbn [overlay].
      apply Forall_cons in Hrs' as [Hn Hrs'].
      case_bool_decide as Hnn.
      * subst n. specialize (H1A rs' Hrs'). rewrite <- app_assoc in H1A.
        exact H1A.
      * apply H1B.
        -- apply Forall_app. split; [done|]. by apply Forall_cons.
        -- intros [k Hk]. rewrite <- app_assoc in Hk.
           apply app_inv_head in Hk. by injection Hk.
    + intros rs Hrs Hcase. rewrite IHB by done. apply H1B; [done|].
      intros [k Hk]. destruct Hcase as [Hnp | ->].
      * apply Hnp. exists ([name] ++ k). by rewrite Hk, <- app_assoc.
      * rewrite <- app_assoc in Hk. by apply (Hlonger rs0 name k).
Qed.

End snapshot_entries.

(** What a snapshot of a clean root holds for the names [rs]. *)
Lemma getDirFiles_lookup rooted es tree files n rs :
  es <> [] -> Forall (fun e => is_name e = true) es ->
  names_ok tree = true ->
  getDirFiles (path_of rooted es) tree = Returns files ->
  Forall (fun e => is_name e = true) (n :: rs) ->
  files !! rel (n :: rs) = tree_find tree (n :: rs).
Proof.
  intros Hes Hall Hok Hscan Hrs.
  revert Hscan. unfold getDirFiles, filepath.Walk.
  destruct tree as [err|info readdir entries].
  - rewrite getDirFiles_func_root. by intros [= <-].
  - rewrite walk_Node, !getDirFiles_func_root. cbn [tree_find].
    destruct (fs.IsDir (fs.Mode info)) eqn:Hdir; cbn [negb].
    2:{ intros [= <-]. by destruct readdir. }
    rewrite (bool_decide_eq_false_2 (is_Some (@None error)))
      by (by intros [? ?]).
    rewrite orb_false_r. case_bool_decide as Hread.
    { intros [= <-]. by destruct Hread as [e ->]. }
    assert (readdir = None) as -> by (destruct readdir; [exfalso; eauto | done]).
    pose proof (proj2 (walk_finds rooted es Hes Hall) entries Hok [] ∅
                  (Forall_nil_2 _)) as [HA _].
    rewrite app_nil_r in HA. specialize (HA n rs Hrs). cbn [app] in HA.
    pose proof (proj2 (walk_getDirFiles_func (path_of rooted es)) entries
                  (path_of rooted es) ∅) as Hnil.
    destruct (filepath.walk_names (getDirFiles_func (path_of rooted es))
                (path_of rooted es) entries ∅) as [r files1].
    cbn [fst snd] in *. subst r. intros [= <-]. rewrite HA.
    rewrite lookup_empty. by destruct (forest_find entries n rs).
Qed.

(** X22. The snapshot of a clean root holds the tree: its keys are names
    below the root, each after a separator, and for such names it holds
    exactly what the tree has there, that is the record of every entry
    the walk reaches through directories whose names can be read (nil
    where [Lstat] fails), and nothing for an entry it does not reach. No
    entry is left out, and none is made up. *)
Theorem getDirFiles_finds_every_entry
  (rooted : bool) (es : list string) (tree : filepath.Tree)
  (files : gmap string FileInfo) :
  es <> [] -> Forall (fun e => is_name e = true) es ->
  names_ok tree = true ->
  getDirFiles (path_of rooted es) tree = Returns files ->
  keys_below files
  /\ forall rs, rs <> [] -> Forall (fun e => is_name e = true) rs ->
       files !! rel rs = tree_find tree rs.
Proof.
  intros Hes Hall Hok Hscan.
  split; [by apply (getDirFiles_keys_below rooted es tree)|].
  intros rs Hne Hrs. destruct rs as [|n rs]; [done|].
  by apply (getDirFiles_lookup rooted es).
Qed.

(** ** The scanner and the planner together *)

Section plan_below_roots.

Variable range : gmap string FileInfo -> list (string * FileInfo).
Hypothesis range_order : forall m, range m ≡ₚ map_to_list m.

(** X7. With a clean source directory and a clean destination directory
    in the configuration, and trees whose entries have names, every
    operation of the plan of a cycle addresses the mirror: a Write reads
    the path of names [rs] below the source directory and writes the path
    of the same names below the destination directory, a Delete removes a
    path of names below the destination directory; [rs] is never empty,
    so no operation addresses a root itself or a path outside the two
    directories. *)
Theorem operations_stay_below_roots
  (configs : Configurations) (r r' : bool) (es es' : list string)
  (srcTree destTree : filepath.Tree) (srcFiles destFiles : gmap string FileInfo)
  (jobs : list jobFunc) (n : sync.WaitGroup) :
  SourceDirectory (General configs) = path_of r es ->
  DestinationDirectory (General configs) = path_of r' es' ->
  es <> [] -> es' <> [] ->
  Forall (fun e => is_name e = true) es ->
  Forall (fun e => is_name e = true) es' ->
  names_ok srcTree = true -> names_ok destTree = true ->
  getDirFiles (SourceDirectory (General configs)) srcTree = Returns srcFiles ->
  getDirFiles (DestinationDirectory (General configs)) destTree
  = Returns destFiles ->
  planCycle range configs srcFiles destFiles = Returns (jobs, n) ->
  forall job, job ∈ jobs ->
    exists rs info,
      rs <> [] /\ Forall (fun e => is_name e = true) rs
      /\ (job = func_writeFile (path_of r (es ++ rs)) info
                               (path_of r' (es' ++ rs))
          \/ job = func_deleteFile info (path_of r' (es' ++ rs))).
Proof.
  intros Hsrc Hdst Hes Hes' Hall Hall' Hoks Hokd Hscan Hscand Hplan job Hjob.
  rewrite Hsrc in Hscan. rewrite Hdst in Hscand.
  pose proof (getDirFiles_keys_below _ _ _ _ Hes Hall Hoks Hscan) as Hks.
  pose proof (getDirFiles_keys_below _ _ _ _ Hes' Hall' Hokd Hscand) as Hkd.
  rewrite (planCycle_eq range range_order) in Hplan. injection Hplan as <- _.
  apply elem_of_app in Hjob as [Hjob|Hjob];
    apply list_elem_of_fmap in Hjob as ([key info] & -> & Hin).
  - rewrite (range_order srcFiles) in Hin. apply elem_of_map_to_list in Hin.
    destruct (Hks key) as (rs & Hrs & Hrel & ->); [eauto|].
    exists rs, info. split_and!; try done. left.
    unfold write_of. cbn [fst snd]. rewrite Hsrc, Hdst.
    rewrite Join_rel by done. by rewrite (path_of_app r' es' rs Hes').
  - rewrite (range_order (destFiles ∖ srcFiles)) in Hin.
    apply elem_of_map_to_list in Hin.
    apply lookup_difference_Some in Hin as [Hin _].
    destruct (Hkd key) as (rs & Hrs & Hrel & ->); [eauto|].
    exists rs, info. split_and!; try done. right.
    unfold delete_of. cbn [fst snd]. rewrite Hdst.
    by rewrite Join_rel.
Qed.

(** X5. When there is nothing to read at the source directory ([Lstat]
    of it fails, it is not a directory, or its names cannot be read),
    [getDirFiles] returns the empty snapshot rather than failing, and the
    plan of the cycle is then one Delete for every entry of the
    destination snapshot, with the counter at their number. *)
Theorem unavailable_source_deletes_destination
  (configs : Configurations) (srcTree : filepath.Tree)
  (destFiles : gmap string FileInfo) :
  nothing_to_read srcTree = true ->
  getDirFiles (SourceDirectory (General configs)) srcTree = Returns ∅
  /\ exists deletes,
       planCycle range configs ∅ destFiles
       = Returns (map (delete_of configs) deletes, Z.of_nat (size destFiles))
       /\ deletes ≡ₚ map_to_list destFiles.
Proof.
  intros Hnothing. split; [by apply getDirFiles_nothing_to_read|].
  exists (range destFiles). split; [|apply range_order].
  rewrite (planCycle_eq range range_order).
  assert (range ∅ = []) as ->.
  { apply Permutation_nil. by rewrite (range_order ∅), map_to_list_empty. }
  by rewrite map_difference_empty, map_size_empty.
Qed.

End plan_below_roots.

(** X8. A source directory written with a separator at its end. The
    keys of its snapshot are then the names below it joined by the
    separator, with no separator in front, and the destination of a Write,
    which [processChanges] builds by concatenation, is not below the
    destination directory: its last name and the first name of the key
    run together. The Write still reads the path [filepath.Walk]
    visited. *)
Theorem trailing_separator_writes_beside_destination
  (configs : Configurations) (r r' : bool) (es front : list string)
  (base : string) (tree : filepath.Tree) (srcFiles : gmap string FileInfo)
  (k : string) (info : FileInfo) :
  SourceDirectory (General configs) = path_of r es +:+ "/" ->
  DestinationDirectory (General configs) = path_of r' (front ++ [base]) ->
  es <> [] -> Forall (fun e => is_name e = true) es ->
  names_ok tree = true ->
  getDirFiles (SourceDirectory (General configs)) tree = Returns srcFiles ->
  srcFiles !! k = Some info ->
  exists n rs,
    Forall (fun e => is_name e = true) (n :: rs)
    /\ k = strings.join_slash (n :: rs)
    /\ write_of configs (k, info)
       = func_writeFile (path_of r (es ++ n :: rs)) info
           (path_of r' (front ++ (base +:+ n) :: rs)).
Proof.
  intros Hsrc Hdst Hes Hall Hok Hscan Hk. rewrite Hsrc in Hscan.
  destruct (getDirFiles_keys_flat r es Hes Hall tree srcFiles Hok Hscan k)
    as (n & rs & Hrs & ->); [eauto|].
  exists n, rs. split_and!; try done.
  unfold write_of. cbn [fst snd]. rewrite Hsrc, Hdst.
  rewrite Join_trailing by done. f_equal.
  unfold path_of. rewrite append_assoc. f_equal.
  change (front ++ (base +:+ n) :: rs) with (front ++ [base +:+ n] ++ rs).
  rewrite app_assoc, (join_slash_app (front ++ [base +:+ n]) rs)
    by (by destruct front).
  by rewrite join_slash_snoc_append, join_slash_cons, append_assoc.
Qed.

Section plan_of_trees.

Variable range : gmap string FileInfo -> list (string * FileInfo).
Hypothesis range_order : forall m, range m ≡ₚ map_to_list m.

(** X23. The plan of a cycle, from the two trees. With clean source and
    destination directories and trees whose entries have names: the
    Write of the names [rs], from below the source directory to below
    the destination directory, with the record [info], is in the plan
    exactly when the source tree has [info] at [rs]; the Delete below
    the destination directory with the record [info] is in the plan
    exactly when the destination tree has [info] at [rs] and the source
    tree has nothing there. *)
Theorem plan_mirrors_trees
  (configs : Configurations) (r r' : bool) (es es' : list string)
  (srcTree destTree : filepath.Tree) (srcFiles destFiles : gmap string FileInfo)
  (jobs : list jobFunc) (n : sync.WaitGroup) :
  SourceDirectory (General configs) = path_of r es ->
  DestinationDirectory (General configs) = path_of r' es' ->
  es <> [] -> es' <> [] ->
  Forall (fun e => is_name e = true) es ->
  Forall (fun e => is_name e = true) es' ->
  names_ok srcTree = true -> names_ok destTree = true ->
  getDirFiles (SourceDirectory (General configs)) srcTree = Returns srcFiles ->
  getDirFiles (DestinationDirectory (General configs)) destTree
  = Returns destFiles ->
  planCycle range configs srcFiles destFiles = Returns (jobs, n) ->
  forall rs info, rs <> [] -> Forall (fun e => is_name e = true) rs ->
    (func_writeFile (path_of r (es ++ rs)) info (path_of r' (es' ++ rs)) ∈ jobs
     <-> tree_find srcTree rs = Some info)
    /\ (func_deleteFile info (path_of r' (es' ++ rs)) ∈ jobs
        <-> tree_find destTree rs = Some info /\ tree_find srcTree rs = None).
Proof.
  intros Hsrc Hdst Hes Hes' Hall Hall' Hoks Hokd Hscan Hscand Hplan
         rs info Hne Hrs.
  rewrite Hsrc in Hscan. rewrite Hdst in Hscand.
  pose proof (getDirFiles_keys_below _ _ _ _ Hes Hall Hoks Hscan) as Hks.
  pose proof (getDirFiles_keys_below _ _ _ _ Hes' Hall' Hokd Hscand) as Hkd.
  assert (forall rs2, rs2 <> [] -> Forall (fun e => is_name e = true) rs2 ->
            srcFiles !! rel rs2 = tree_find srcTree rs2) as Hfs.
  { intros [|n2 rs2] ? ?; [done|]. by apply (getDirFiles_lookup r es). }
  assert (forall rs2, rs2 <> [] -> Forall (fun e => is_name e = true) rs2 ->
            destFiles !! rel rs2 = tree_find destTree rs2) as Hfd.
  { intros [|n2 rs2] ? ?; [done|]. by apply (getDirFiles_lookup r' es'). }
  rewrite (planCycle_eq range range_order) in Hplan. injection Hplan as <- _.
  assert (forall key i, srcFiles !! key = Some i ->
            exists rs2, rs2 <> [] /\ Forall (fun e => is_name e = true) rs2
              /\ key = rel rs2
              /\ write_of configs (key, i)
                 = func_writeFile (path_of r (es ++ rs2)) i
                     (path_of r' (es' ++ rs2))) as Hw.
  { intros key i Hkey. destruct (Hks key) as (rs2 & ? & ? & ->); [eauto|].
    exists rs2. split_and!; try done. unfold write_of. cbn [fst snd].
    rewrite Hsrc, Hdst, Join_rel by done.
    by rewrite (path_of_app r' es' rs2 Hes'). }
  assert (forall key i, destFiles !! key = Some i ->
            exists rs2, rs2 <> [] /\ Forall (fun e => is_name e = true) rs2
              /\ key = rel rs2
              /\ delete_of configs (key, i)
                 = func_deleteFile i (path_of r' (es' ++ rs2))) as Hd.
  { intros key i Hkey. destruct (Hkd key) as (rs2 & ? & ? & ->); [eauto|].
    exists rs2. split_and!; try done. unfold delete_of. cbn [fst snd].
    by rewrite Hdst, Join_rel. }
  split; split.
  - intros [Hin|Hin]%elem_of_app;
      apply list_elem_of_fmap in Hin as ([key i] & Heq & Hin).
    + rewrite (range_order srcFiles) in Hin. apply elem_of_map_to_list in Hin.
      destruct (Hw key i Hin) as (rs2 & Hne2 & Hrs2 & -> & Hwrite).
      rewrite Hwrite in Heq. injection Heq as Hp <- _.
      apply path_of_inj in Hp; try done. subst rs2.
      by rewrite <- Hfs.
    + rewrite (range_order (destFiles ∖ srcFiles)) in Hin.
      apply elem_of_map_to_list in Hin.
      apply lookup_difference_Some in Hin as [Hin _].
      destruct (Hd key i Hin) as (rs2 & _ & _ & _ & Hdel).
      by rewrite Hdel in Heq.
  - intros Hfound. rewrite <- Hfs in Hfound by done.
    apply elem_of_app. left. apply list_elem_of_fmap.
    exists (rel rs, info). split.
    + destruct (Hw _ _ Hfound) as (rs2 & Hne2 & Hrs2 & Hkey & ->).
      apply rel_inj in Hkey; try done. by subst rs2.
    + rewrite (range_order srcFiles). by apply elem_of_map_to_list.
  - intros [Hin|Hin]%elem_of_app;
      apply list_elem_of_fmap in Hin as ([key i] & Heq & Hin).
    + rewrite (range_order srcFiles) in Hin. apply elem_of_map_to_list in Hin.
      destruct (Hw key i Hin) as (rs2 & _ & _ & _ & Hwrite).
      by rewrite Hwrite in Heq.
    + rewrite (range_order (destFiles ∖ srcFiles)) in Hin.
      apply elem_of_map_to_list in Hin.
      apply lookup_difference_Some in Hin as [Hin Hnone].
      destruct (Hd key i Hin) as (rs2 & Hne2 & Hrs2 & -> & Hdel).
      rewrite Hdel in Heq. injection Heq as <- Hp.
      apply path_of_inj in Hp; try done. subst rs2.
      by rewrite <- Hfs, <- Hfd.
  - intros [Hfound Hnone]. rewrite <- Hfd in Hfound by done.
    rewrite <- Hfs in Hnone by done.
    apply elem_of_app. right. apply list_elem_of_fmap.
    exists (rel rs, info). split.
    + destruct (Hd _ _ Hfound) as (rs2 & Hne2 & Hrs2 & Hkey & ->).
      apply rel_inj in Hkey; try done. by subst rs2.
    + rewrite (range_order (destFiles ∖ srcFiles)).
      apply elem_of_map_to_list. by apply lookup_difference_Some.
Qed.

End plan_of_trees.

(** ** More on the file operations *)

Ltac outcome_step := change (Returns ?x ≫= ?k) with (k x); cbn beta.

(** ** [deleteFile] *)



(** X12. Two Deletes of one plan. After the Delete of a directory has
    returned, the Delete of a file below that directory (its record not a
    directory) panics: [os.Remove] finds no file. *)
Theorem deleteFile_after_directory_removed
  (w : os.World) (wg : sync.WaitGroup) (p q : string) (dir file : fs.fileStat)
  (w1 : os.World) (wg1 : sync.WaitGroup) :
  fs.IsDir (fs.Mode dir) = true -> fs.IsDir (fs.Mode file) = false ->
  os.resolve w p `prefix_of` os.resolve w q ->
  deleteFile (Some dir) p wg w = Returns (w1, wg1) ->
  deleteFile (Some file) q wg1 w1
  = Panics (fs.Error (PathError "remove" q ENOENT)).
Proof.
  intros Hdir Hfile Hpre Hfirst.
  unfold deleteFile in Hfirst. cbn [FileInfo_IsDir] in Hfirst.
  rewrite Hdir in Hfirst. unfold os.RemoveAll in Hfirst.
  change (Returns ?x ≫= ?k) with (k x) in Hfirst. cbn beta in Hfirst.
  change (mret ?x ≫= ?k) with (k x) in Hfirst. cbn beta in Hfirst.
  destruct (sync.Done wg) as [n| |]; try done.
  change (Returns ?x ≫= ?k) with (k x) in Hfirst. cbn beta in Hfirst.
  injection Hfirst as <- <-.
  unfold deleteFile. cbn [FileInfo_IsDir]. rewrite Hfile. outcome_step.
  unfold os.Remove.
  change (os.resolve _ q) with (os.resolve w q).
  cbn [os.files os.Printf os.set_files].
  rewrite map_lookup_filter_None_2; [done|].
  right. intros i _ Hnot. by apply Hnot.
Qed.

(** ** [writeFile] *)

Lemma writeFile_of_body fuel srcPath srcFile path wg w w' :
  0 < wg ->
  writeFile_body fuel srcPath srcFile path w = Returns w' ->
  writeFile fuel srcPath srcFile path wg w = Returns (w', wg - 1).
Proof.
  intros Hwg Hbody. unfold writeFile. rewrite Hbody. outcome_step.
  rewrite (Done_positive wg Hwg). reflexivity.
Qed.

Lemma writeFile_body_panics fuel srcPath srcFile path wg w msg :
  writeFile_body fuel srcPath srcFile path w = Panics msg ->
  writeFile fuel srcPath srcFile path wg w = Panics msg.
Proof. intros Hbody. unfold writeFile. by rewrite Hbody. Qed.


(** A Write whose destination has the modification time of the record:
    the directory step, and nothing more. *)
Lemma writeFile_unchanged
  (fuel : nat) (w : os.World) (wg : sync.WaitGroup) (srcPath path : string)
  (srcFile pd : fs.fileStat) (src_i parent_i dst_i : os.inode) :
  (2 <= fuel)%nat -> 0 < wg ->
  fs.IsDir (fs.Mode srcFile) = false ->
  os.files w !! os.resolve w srcPath = Some src_i -> os.is_dir src_i = false ->
  os.Stat w (filepath.Dir srcPath) = Ok pd -> fs.IsDir (fs.Mode pd) = true ->
  os.files w !! os.resolve w (filepath.Dir path) = Some parent_i ->
  os.resolve w (filepath.Dir path) <> os.resolve w path ->
  os.files w !! os.resolve w path = Some dst_i ->
  os.i_modTime dst_i = fs.ModTime srcFile ->
  writeFile fuel srcPath (Some srcFile) path wg w
  = Returns (os.set_files w
               (<[os.resolve w (filepath.Dir path)
                  := os.chmod_inode (fs.Perm (fs.Mode pd)) parent_i]> (os.files w)),
             wg - 1).
Proof.
  intros Hfuel Hwg Hrec Hsrc Hsrcdir Hpd Hpdir Hparent Hne Hdst Htime.
  apply writeFile_of_body; [done|]. unfold writeFile_body.
  replace fuel with (1 + S (fuel - 2))%nat by lia.
  rewrite (validateDirExistance_climb 1).
  2:{ intros i Hi. assert (i = 0%nat) as -> by lia.
      exists (os.stat_of src_i). split; [apply Stat_Ok; eauto | done]. }
  change (Nat.iter 1 filepath.Dir ?x) with (filepath.Dir x).
  rewrite (validateDirExistance_at_directory _ _ _ _ _ Hpd Hpdir), Hparent.
  outcome_step. cbn [FileInfo_IsDir]. rewrite Hrec. outcome_step.
  cbn [negb FileInfo_ModTime]. outcome_step.
  unfold os.Stat. change (os.resolve _ path) with (os.resolve w path).
  cbn [os.files os.set_files]. rewrite lookup_insert_ne by done. rewrite Hdst.
  change (mret ?x ≫= ?k) with (k x). cbn beta. cbn [fs.ModTime os.stat_of].
  by rewrite bool_decide_eq_true_2.
Qed.

(** X14. A Write whose destination has the modification time of the
    record (the record not a directory, the source path not a directory,
    its parent a directory, the parent of the destination there): it
    returns, prints nothing and copies nothing, whatever the bytes and
    sizes are; the only file that can differ afterwards is the parent
    directory of the destination, in its permission bits. *)
Theorem writeFile_unchanged_is_quiet
  (fuel : nat) (w : os.World) (wg : sync.WaitGroup) (srcPath path : string)
  (srcFile pd : fs.fileStat) (src_i parent_i dst_i : os.inode) :
  (2 <= fuel)%nat -> 0 < wg ->
  fs.IsDir (fs.Mode srcFile) = false ->
  os.files w !! os.resolve w srcPath = Some src_i -> os.is_dir src_i = false ->
  os.Stat w (filepath.Dir srcPath) = Ok pd -> fs.IsDir (fs.Mode pd) = true ->
  os.files w !! os.resolve w (filepath.Dir path) = Some parent_i ->
  os.resolve w (filepath.Dir path) <> os.resolve w path ->
  os.files w !! os.resolve w path = Some dst_i ->
  os.i_modTime dst_i = fs.ModTime srcFile ->
  exists w',
    writeFile fuel srcPath (Some srcFile) path wg w = Returns (w', wg - 1)
    /\ os.stdout w' = os.stdout w
    /\ (forall k, k <> os.resolve w (filepath.Dir path) ->
          os.files w' !! k = os.files w !! k)
    /\ exists parent',
         os.files w' !! os.resolve w (filepath.Dir path) = Some parent'
         /\ os.i_data parent' = os.i_data parent_i
         /\ os.i_size parent' = os.i_size parent_i
         /\ os.i_modTime parent' = os.i_modTime parent_i
         /\ Z.land (os.i_mode parent') fs.ModeType
            = Z.land (os.i_mode parent_i) fs.ModeType
         /\ fs.Perm (os.i_mode parent') = fs.Perm (fs.Mode pd).
Proof.
  intros Hfuel Hwg Hrec Hsrc Hsrcdir Hpd Hpdir Hparent Hne Hdst Htime.
  eexists. split.
  { by apply (writeFile_unchanged fuel w wg srcPath path srcFile pd src_i
                parent_i dst_i). }
  cbn [os.stdout os.files os.set_files]. split_and!; [done | |].
  - intros k Hk. by rewrite lookup_insert_ne.
  - rewrite lookup_insert_eq. eexists. split_and!; try reflexivity.
    + apply ModeType_chmod_inode.
    + apply Perm_chmod_inode_Perm.
Qed.

(** X16. A Write of a regular file whose destination is a directory with
    another modification time: [os.Create] fails on the directory and the
    Write panics; the directory is not replaced. *)
Theorem writeFile_file_onto_directory_panics
  (fuel : nat) (w : os.World) (wg : sync.WaitGroup) (srcPath path : string)
  (srcFile pd : fs.fileStat) (src_i parent_i dst_i : os.inode) :
  (2 <= fuel)%nat ->
  fs.IsDir (fs.Mode srcFile) = false ->
  os.files w !! os.resolve w srcPath = Some src_i ->
  fs.IsRegular (os.i_mode src_i) = true ->
  os.Stat w (filepath.Dir srcPath) = Ok pd -> fs.IsDir (fs.Mode pd) = true ->
  os.files w !! os.resolve w (filepath.Dir path) = Some parent_i ->
  os.resolve w (filepath.Dir path) <> os.resolve w path ->
  os.files w !! os.resolve w path = Some dst_i -> os.is_dir dst_i = true ->
  os.i_modTime dst_i <> fs.ModTime srcFile ->
  writeFile fuel srcPath (Some srcFile) path wg w
  = Panics (fs.Error (PathError "open" path EISDIR)).
Proof.
  intros Hfuel Hrec Hsrc Hreg Hpd Hpdir Hparent Hne Hdst Hdstdir Htime.
  apply writeFile_body_panics. unfold writeFile_body.
  replace fuel with (1 + S (fuel - 2))%nat by lia.
  rewrite (validateDirExistance_climb 1).
  2:{ intros i Hi. assert (i = 0%nat) as -> by lia.
      exists (os.stat_of src_i). split; [apply Stat_Ok; eauto |].
      by apply IsRegular_not_IsDir. }
  change (Nat.iter 1 filepath.Dir ?x) with (filepath.Dir x).
  rewrite (validateDirExistance_at_directory _ _ _ _ _ Hpd Hpdir), Hparent.
  outcome_step. cbn [FileInfo_IsDir]. rewrite Hrec. outcome_step.
  cbn [negb FileInfo_ModTime]. outcome_step.
  set (w1 := os.set_files w _).
  assert (os.files w1 !! os.resolve w path = Some dst_i) as Hdst1.
  { unfold w1. cbn [os.files os.set_files]. by rewrite lookup_insert_ne. }
  assert (exists src_i', os.files w1 !! os.resolve w srcPath = Some src_i'
                         /\ fs.IsRegular (os.i_mode src_i') = true)
    as (src_i' & Hsrc1 & Hreg1).
  { unfold w1. cbn [os.files os.set_files].
    destruct (decide (os.resolve w (filepath.Dir path) = os.resolve w srcPath))
      as [Heq|Hneq].
    - rewrite Heq, lookup_insert_eq. eexists. split; [reflexivity|].
      rewrite Heq, Hsrc in Hparent. injection Hparent as <-.
      unfold fs.IsRegular in *. by rewrite ModeType_chmod_inode.
    - rewrite lookup_insert_ne by done. eauto. }
  unfold os.Stat at 1. change (os.resolve w1 path) with (os.resolve w path).
  rewrite Hdst1. change (mret ?x ≫= ?k) with (k x). cbn beta.
  cbn [fs.ModTime os.stat_of]. rewrite bool_decide_eq_false_2 by done.
  unfold copyFile, os.Stat, os.Open.
  change (os.resolve w1 srcPath) with (os.resolve w srcPath). rewrite Hsrc1.
  cbn [fs.Mode os.stat_of]. rewrite Hreg1. cbn [negb].
  unfold os.Create. change (os.resolve w1 path) with (os.resolve w path).
  rewrite Hdst1, Hdstdir. reflexivity.
Qed.


Lemma changes_within_refl P w : changes_within P w w.
Proof. by split. Qed.

Lemma changes_within_trans P w1 w2 w3 :
  changes_within P w1 w2 -> changes_within P w2 w3 -> changes_within P w1 w3.
Proof.
  intros [Hc1 Hf1] [Hc2 Hf2]. split; [congruence|].
  intros k Hk. by rewrite Hf2, Hf1.
Qed.

Lemma changes_within_weaken (P Q : list string -> Prop) w w' :
  (forall k, P k -> Q k) -> changes_within P w w' -> changes_within Q w w'.
Proof. intros HPQ [Hc Hf]. split; [done|]. intros k Hk. apply Hf. eauto. Qed.

Lemma changes_within_insert (P : list string -> Prop) w key i :
  P key -> changes_within P w (os.set_files w (<[key := i]> (os.files w))).
Proof.
  intros Hkey. split; [done|]. intros k Hk. cbn [os.files os.set_files].
  apply lookup_insert_ne. by intros ->.
Qed.

Lemma changes_within_Printf P action path w : changes_within P w (os.Printf action path w).
Proof. by split. Qed.

Lemma resolve_changes_within P w w' name :
  changes_within P w w' -> os.resolve w' name = os.resolve w name.
Proof. intros [Hc _]. by apply resolve_cwd. Qed.

Lemma Chmod_changes w name mode w' :
  os.Chmod w name mode = Ok w' -> changes_within (eq (os.resolve w name)) w w'.
Proof.
  unfold os.Chmod. destruct (os.files w !! os.resolve w name); [|done].
  intros [= <-]. by apply changes_within_insert.
Qed.

Lemma Chtimes_changes w name atime mtime w' :
  os.Chtimes w name atime mtime = Ok w' ->
  changes_within (eq (os.resolve w name)) w w'.
Proof.
  unfold os.Chtimes. destruct (os.files w !! os.resolve w name); [|done].
  intros [= <-]. by apply changes_within_insert.
Qed.

Lemma MkdirAll_changes w path perm w' :
  os.MkdirAll w path perm = Ok w' ->
  changes_within (fun k => k `prefix_of` os.resolve w path) w w'.
Proof.
  unfold os.MkdirAll. intros Hmk.
  destruct (mkdirAll_rev_frame _ _ _ _ _ Hmk) as ((Hcwd & _) & Hkeep & Hnew).
  rewrite rev_involutive in Hnew. split; [done|]. intros k Hk.
  destruct (os.files w !! k) as [i|] eqn:Hi; [by apply Hkeep|].
  destruct (os.files w' !! k) as [i'|] eqn:Hi'; [|done].
  exfalso. apply Hk. destruct (Hnew _ _ Hi Hi') as [[n ->] _].
  exists (drop n (os.resolve w path)). by rewrite take_drop.
Qed.

Lemma copyFile_changes src dst w w' :
  copyFile src dst w = Returns w' -> changes_within (eq (os.resolve w dst)) w w'.
Proof.
  unfold copyFile. destruct (os.Stat w src) as [st|]; [|done].
  destruct (negb (fs.IsRegular (fs.Mode st))).
  { intros [= <-]. apply changes_within_refl. }
  destruct (os.Open w src) as [source|]; [|done].
  destruct (os.Create w dst) as [[destination w1]|] eqn:Hcreate; [|done].
  destruct (os.Copy w1 destination source) as [[written w2]|] eqn:Hcopy; [|done].
  case_bool_decide; [done|]. intros [= <-].
  assert (destination = os.resolve w dst
          /\ changes_within (eq (os.resolve w dst)) w w1) as [-> H1].
  { unfold os.Create in Hcreate. cbv zeta in Hcreate.
    repeat case_match; try done; injection Hcreate as <- <-;
      (split; [done | by apply changes_within_insert]). }
  eapply changes_within_trans; [exact H1|].
  unfold os.Copy in Hcopy. repeat case_match; try done.
  injection Hcopy as _ <-. by apply changes_within_insert.
Qed.

Lemma validateDirExistance_changes fuel :
  forall srcPath es w w',
    Forall (fun e => is_name e = true) es ->
    validateDirExistance fuel srcPath (path_of true es) w = Returns w' ->
    changes_within (fun k => k `prefix_of` es) w w'.
Proof.
  induction fuel as [|fuel IH]; intros srcPath es w w' Hall; [done|].
  cbn [validateDirExistance].
  destruct (os.Stat w srcPath) as [srcPathInfo|]; [|done].
  destruct (fs.IsDir (fs.Mode srcPathInfo)).
  - destruct (os.Stat w (path_of true es)) as [?|err].
    + destruct (os.Chmod w _ _) as [w1|] eqn:Hchmod; [|done]. intros [= <-].
      apply Chmod_changes in Hchmod. rewrite resolve_path_of in Hchmod by done.
      eapply changes_within_weaken; [|exact Hchmod]. by intros k <-.
    + destruct (fs.IsNotExist err); [|done].
      destruct (os.MkdirAll w _ _) as [w1|] eqn:Hmk; [|done]. intros [= <-].
      apply MkdirAll_changes in Hmk. rewrite resolve_path_of in Hmk by done.
      eapply changes_within_trans; [exact Hmk | apply changes_within_Printf].
  - rewrite Dir_path_of by done. intros Hrec.
    apply IH in Hrec; [|by apply Forall_removelast].
    eapply changes_within_weaken; [|exact Hrec].
    intros k Hk. etrans; [exact Hk | apply removelast_prefix].
Qed.

(** X18. Whatever the source path, the record and the state of the
    files: a Write to a clean destination path from the root directory
    that returns has changed no file other than the destination and the
    directories on the way to it. *)
Theorem writeFile_changes_only_destination
  (fuel : nat) (srcPath : string) (srcFile : FileInfo) (es : list string)
  (wg : sync.WaitGroup) (w w' : os.World) (wg' : sync.WaitGroup) :
  Forall (fun e => is_name e = true) es ->
  writeFile fuel srcPath srcFile (path_of true es) wg w = Returns (w', wg') ->
  forall k, ~ k `prefix_of` es -> os.files w' !! k = os.files w !! k.
Proof.
  intros Hall Hret.
  assert (changes_within (fun k => k `prefix_of` es) w w') as [_ ?]; [|done].
  unfold writeFile in Hret.
  destruct (writeFile_body fuel srcPath srcFile (path_of true es) w)
    as [w2| |] eqn:Hbody; try done.
  change (Returns ?x ≫= ?k) with (k x) in Hret. cbn beta in Hret.
  destruct (sync.Done wg); try done. injection Hret as <- _.
  unfold writeFile_body in Hbody.
  destruct (validateDirExistance fuel srcPath (path_of true es) w)
    as [w1| |] eqn:Hvde; try done.
  apply validateDirExistance_changes in Hvde; [|done].
  change (Returns ?x ≫= ?k) with (k x) in Hbody. cbn beta in Hbody.
  destruct srcFile as [st|]; [|done]. cbn [FileInfo_IsDir] in Hbody.
  change (Returns ?x ≫= ?k) with (k x) in Hbody. cbn beta in Hbody.
  destruct (fs.IsDir (fs.Mode st)); cbn [negb] in Hbody.
  { by injection Hbody as <-. }
  cbn [FileInfo_ModTime FileInfo_Mode] in Hbody.
  change (Returns ?x ≫= ?k) with (k x) in Hbody. cbn beta in Hbody.
  eapply changes_within_trans; [exact Hvde|].
  assert (os.resolve w1 (path_of true es) = es) as Hkey
    by (by apply resolve_path_of).
  assert (forall w3 w4, changes_within (eq (os.resolve w3 (path_of true es))) w3 w4 ->
            changes_within (fun k => k `prefix_of` es) w3 w4) as Hat.
  { intros w3 w4. rewrite resolve_path_of by done.
    apply changes_within_weaken. by intros k <-. }
  destruct (match os.Stat w1 (path_of true es) with
            | Ok file => mret (bool_decide (fs.ModTime file = fs.ModTime st))
            | Err err => if negb (fs.IsNotExist err) then panic_err err
                         else mret false
            end) as [[|]| |]; try done.
  { by injection Hbody as <-. }
  change (Returns ?x ≫= ?k) with (k x) in Hbody. cbn beta iota in Hbody.
  destruct (copyFile srcPath (path_of true es) w1) as [w3| |] eqn:Hcopy;
    try done.
  change (Returns ?x ≫= ?k) with (k x) in Hbody. cbn beta in Hbody.
  change (Returns ?x ≫= ?k) with (k x) in Hbody. cbn beta in Hbody.
  destruct (os.Chmod w3 _ _) as [w4|] eqn:Hchmod; [|done].
  destruct (os.Chtimes w4 _ _ _) as [w5|] eqn:Htimes; [|done].
  injection Hbody as <-.
  apply copyFile_changes, Hat in Hcopy.
  apply Chmod_changes, Hat in Hchmod. apply Chtimes_changes, Hat in Htimes.
  eapply changes_within_trans; [exact Hcopy|].
  eapply changes_within_trans; [exact Hchmod|].
  eapply changes_within_trans; [exact Htimes|]. apply changes_within_Printf.
Qed.

(** The copy, [os.Chmod], [os.Chtimes] and the log line of [writeFile]
    change the destination and nothing else. *)
Lemma copy_and_stamp_changes w srcPath path (srcFile : fs.fileStat) w' :
  (w ← copyFile srcPath path w;
   mode ← FileInfo_Mode (Some srcFile);
   match os.Chmod w path (fs.Perm mode) with
   | Err err => panic_err err
   | Ok w =>
       match os.Chtimes w path (fs.ModTime srcFile) (fs.ModTime srcFile) with
       | Err err => panic_err err
       | Ok w => mret (os.Printf "Write" path w)
       end
   end) = Returns w' ->
  changes_within (eq (os.resolve w path)) w w'.
Proof.
  intros Hret.
  destruct (copyFile srcPath path w) as [w1| |] eqn:Hcopy; try done.
  change (Returns ?x ≫= ?k) with (k x) in Hret. cbn beta in Hret.
  cbn [FileInfo_Mode] in Hret.
  change (Returns ?x ≫= ?k) with (k x) in Hret. cbn beta in Hret.
  destruct (os.Chmod w1 _ _) as [w2|] eqn:Hchmod; [|done].
  destruct (os.Chtimes w2 _ _ _) as [w3|] eqn:Htimes; [|done].
  injection Hret as <-.
  apply copyFile_changes in Hcopy. apply Chmod_changes in Hchmod.
  apply Chtimes_changes in Htimes.
  rewrite (resolve_changes_within _ _ _ _ Hcopy) in Hchmod.
  assert (changes_within (eq (os.resolve w path)) w w2) as H2
    by (eapply changes_within_trans; eauto).
  rewrite (resolve_changes_within _ _ _ _ H2) in Htimes.
  eapply changes_within_trans; [exact H2|].
  eapply changes_within_trans; [exact Htimes|]. apply changes_within_Printf.
Qed.

(** What a Write of a regular file leaves for the next one. *)
Lemma writeFile_regular_file_leaves
  (fuel : nat) (w : os.World) (wg : sync.WaitGroup)
  (srcPath path : string) (srcFile : fs.fileStat) (src_i : os.inode) :
  (2 <= fuel)%nat -> 0 < wg ->
  fs.IsRegular (fs.Mode srcFile) = true ->
  os.files w !! os.resolve w srcPath = Some src_i ->
  fs.IsRegular (os.i_mode src_i) = true ->
  os.i_size src_i = Z.of_nat (length (os.i_data src_i)) ->
  (exists pd, os.Stat w (filepath.Dir srcPath) = Ok pd
              /\ fs.IsDir (fs.Mode pd) = true) ->
  (exists name, os.resolve w path = os.resolve w (filepath.Dir path) ++ [name]) ->
  dir_ready w (os.resolve w (filepath.Dir path)) = true ->
  os.resolve w path <> os.resolve w srcPath ->
  (forall dst_i, os.files w !! os.resolve w path = Some dst_i ->
                 os.is_dir dst_i = false) ->
  exists w',
    writeFile fuel srcPath (Some srcFile) path wg w = Returns (w', wg - 1)
    /\ os.cwd w' = os.cwd w
    /\ os.files w' !! os.resolve w srcPath = Some src_i
    /\ (exists pd', os.files w' !! os.resolve w (filepath.Dir srcPath) = Some pd'
                    /\ os.is_dir pd' = true)
    /\ is_Some (os.files w' !! os.resolve w (filepath.Dir path))
    /\ (exists dst_i', os.files w' !! os.resolve w path = Some dst_i'
                       /\ os.i_modTime dst_i' = fs.ModTime srcFile).
Proof.
  intros Hfuel Hwg Hreg Hsrc Hsrcreg Hsize (pd & Hpd & Hpdir) (name & Hname)
         Hready Hne Hdstfile.
  pose proof (IsRegular_not_IsDir _ Hsrcreg) as Hsrcdir.
  destruct (validateDirExistance_parent fuel w srcPath path (os.stat_of src_i) pd)
    as (w1 & Hvde & Hcwd & _ & Hnow & Hkeep & (d & Hd & Hddir) & Hnone);
    try done.
  { apply Stat_Ok. eauto. }
  set (ks := os.resolve w srcPath) in *. set (kd := os.resolve w path) in *.
  set (kp := os.resolve w (filepath.Dir path)) in *.
  set (ksp := os.resolve w (filepath.Dir srcPath)) in *.
  assert (kd <> kp) as Hkd.
  { rewrite Hname. intros Heq. apply (f_equal length) in Heq.
    rewrite length_app in Heq. simpl in Heq. lia. }
  assert (~ kd `prefix_of` kp) as Hnp.
  { rewrite Hname. intros [k Hk]. apply (f_equal length) in Hk.
    rewrite !length_app in Hk. simpl in Hk. lia. }
  assert (ks <> kp) as Hks.
  { intros Heq. destruct (dir_ready_spec _ _ Hready) as [_ Hdirs].
    specialize (Hdirs (length kp) src_i). rewrite firstn_all, <- Heq in Hdirs.
    specialize (Hdirs Hsrc). unfold os.is_dir in Hdirs. congruence. }
  assert (os.files w1 !! ks = Some src_i) as Hsrc1 by (by apply Hkeep).
  assert (os.files w1 !! kd = os.files w !! kd) as Hdst1.
  { destruct (os.files w !! kd) as [dst_i|] eqn:Hdst; [by apply Hkeep|].
    by apply Hnone. }
  apply Stat_Ok in Hpd as (pdi & Hpdi & ->). fold ksp in Hpdi.
  cbn [fs.Mode os.stat_of] in Hpdir.
  assert (exists pd1, os.files w1 !! ksp = Some pd1 /\ os.is_dir pd1 = true)
    as (pd1 & Hpd1 & Hpd1dir).
  { destruct (decide (ksp = kp)) as [->|Hne']; [eauto|].
    exists pdi. split; [by apply Hkeep | done]. }
  assert (ksp <> kd) as Hksp.
  { intros Heq. rewrite Heq in Hpdi. specialize (Hdstfile _ Hpdi).
    unfold os.is_dir in Hdstfile. congruence. }
  assert (os.resolve w1 srcPath = ks) as Hrs by (by apply resolve_cwd).
  assert (os.resolve w1 path = kd) as Hrd by (by apply resolve_cwd).
  unfold writeFile, writeFile_body. rewrite Hvde.
  change (Returns ?x ≫= ?k) with (k x). cbn beta.
  cbn [FileInfo_IsDir]. rewrite (IsRegular_not_IsDir _ Hreg).
  change (Returns ?x ≫= ?k) with (k x). cbn beta. cbn [negb FileInfo_ModTime].
  change (Returns ?x ≫= ?k) with (k x). cbn beta.
  unfold os.Stat at 1. rewrite Hrd, Hdst1.
  assert (exists w2,
    (w ← copyFile srcPath path w1;
     mode ← FileInfo_Mode (Some srcFile);
     match os.Chmod w path (fs.Perm mode) with
     | Err err => panic_err err
     | Ok w =>
         match os.Chtimes w path (fs.ModTime srcFile) (fs.ModTime srcFile) with
         | Err err => panic_err err
         | Ok w => mret (os.Printf "Write" path w)
         end
     end) = Returns w2
    /\ changes_within (eq kd) w1 w2
    /\ (exists dst_i', os.files w2 !! kd = Some dst_i'
                       /\ os.i_modTime dst_i' = fs.ModTime srcFile))
    as (w2 & Hcopy & Hch & Hstamped).
  { destruct (copy_and_stamp w1 srcPath path srcFile src_i)
      as (w2 & Hcopy & _ & (i & Hi & _ & _ & _ & Htime & _)).
    - by rewrite Hrs.
    - done.
    - done.
    - by rewrite Hrs, Hrd.
    - rewrite Hrd, Hdst1.
      destruct (os.files w !! kd) as [dst_i|] eqn:Hdst.
      + by apply Hdstfile.
      + unfold os.parent. rewrite Hname, removelast_last. eauto.
    - exists w2. split; [exact Hcopy|]. rewrite Hrd in Hi.
      split; [|eauto].
      rewrite <- Hrd. by apply (copy_and_stamp_changes w1 srcPath path srcFile). }
  assert (forall w3, changes_within (eq kd) w1 w3 ->
            os.cwd w3 = os.cwd w
            /\ os.files w3 !! ks = Some src_i
            /\ (exists pd', os.files w3 !! ksp = Some pd' /\ os.is_dir pd' = true)
            /\ is_Some (os.files w3 !! kp)) as Hrest.
  { intros w3 [Hc Hf]. split_and!.
    - congruence.
    - rewrite Hf by (by intros <-). done.
    - exists pd1. rewrite Hf by (by intros <-). done.
    - rewrite Hf by (by intros <-). eauto. }
  destruct (os.files w !! kd) as [dst_i|] eqn:Hdst.
  - change (mret ?x ≫= ?k) with (k x). cbn beta. cbn [fs.ModTime os.stat_of].
    case_bool_decide as Hsame.
    + change (mret ?x ≫= ?k) with (k x). cbn beta.
      rewrite (Done_positive wg Hwg).
      change (Returns ?x ≫= ?k) with (k x). cbn beta.
      exists w1. destruct (Hrest w1 (changes_within_refl _ _)) as (?&?&?&?).
      split_and!; try done. exists dst_i. by rewrite Hdst1.
    + rewrite Hcopy. change (Returns ?x ≫= ?k) with (k x). cbn beta.
      rewrite (Done_positive wg Hwg).
      change (Returns ?x ≫= ?k) with (k x). cbn beta.
      exists w2. destruct (Hrest w2 Hch) as (?&?&?&?). by split_and!.
  - cbn [fs.IsNotExist negb]. change (mret ?x ≫= ?k) with (k x). cbn beta.
    rewrite Hcopy. change (Returns ?x ≫= ?k) with (k x). cbn beta.
    rewrite (Done_positive wg Hwg).
    change (Returns ?x ≫= ?k) with (k x). cbn beta.
    exists w2. destruct (Hrest w2 Hch) as (?&?&?&?). by split_and!.
Qed.


(** The working directory stays as it is in the directory step. *)
Lemma validateDirExistance_cwd fuel :
  forall srcPath destPath w w',
    validateDirExistance fuel srcPath destPath w = Returns w' ->
    os.cwd w' = os.cwd w.
Proof.
  induction fuel as [|fuel IH]; intros srcPath destPath w w'; [done|].
  cbn [validateDirExistance].
  destruct (os.Stat w srcPath) as [srcPathInfo|]; [|done].
  destruct (fs.IsDir (fs.Mode srcPathInfo)); [|apply IH].
  destruct (os.Stat w destPath) as [?|err].
  - destruct (os.Chmod w _ _) as [w1|] eqn:Hchmod; [|done]. intros [= <-].
    by apply Chmod_changes in Hchmod as [? _].
  - destruct (fs.IsNotExist err); [|done].
    destruct (os.MkdirAll w _ _) as [w1|] eqn:Hmk; [|done]. intros [= <-].
    by apply MkdirAll_changes in Hmk as [? _].
Qed.


(** X25. Whenever [copyFile] returns, for a source and a destination
    that are not one file: the source is as it was; when it is a regular
    file the destination holds its bytes and no others (what was there
    before is gone, nothing is appended), with a size that is their count
    and the size [os.Stat] gave for the source; when it is not a regular
    file nothing has changed at all. *)
Theorem copyFile_returns_copied
  (src dst : string) (w w' : os.World) :
  copyFile src dst w = Returns w' ->
  os.resolve w src <> os.resolve w dst ->
  exists src_i,
    os.files w !! os.resolve w src = Some src_i
    /\ if fs.IsRegular (os.i_mode src_i) then
         os.files w' !! os.resolve w src = Some src_i
         /\ exists i,
              os.files w' !! os.resolve w dst = Some i
              /\ os.i_data i = os.i_data src_i
              /\ os.i_size i = Z.of_nat (length (os.i_data src_i))
              /\ os.i_size i = os.i_size src_i
              /\ os.i_modTime i = os.now w
       else w' = w.
Proof.
  intros Hret Hne. unfold copyFile in Hret.
  destruct (os.Stat w src) as [st|] eqn:Hst; [|done].
  apply Stat_Ok in Hst as (src_i & Hsrc & ->). exists src_i.
  split; [done|]. cbn [fs.Mode os.stat_of] in Hret.
  destruct (fs.IsRegular (os.i_mode src_i)); cbn [negb] in Hret.
  2:{ by injection Hret as <-. }
  unfold os.Open in Hret. rewrite Hsrc in Hret.
  destruct (os.Create w dst) as [[destination w1]|] eqn:Hcreate; [|done].
  assert (exists base,
            destination = os.resolve w dst
            /\ w1 = os.set_files w (<[os.resolve w dst := base]> (os.files w))
            /\ os.i_data base = []) as (base & -> & -> & Hbase).
  { unfold os.Create in Hcreate. cbv zeta in Hcreate.
    repeat case_match; try done; injection Hcreate as <- <-; eauto. }
  unfold os.Copy in Hret. cbn [os.files os.set_files] in Hret.
  rewrite lookup_insert_ne, Hsrc, lookup_insert_eq in Hret by done.
  cbn [fs.Size os.stat_of] in Hret.
  case_bool_decide as Hsize; [done|]. injection Hret as <-.
  cbn [os.files os.set_files]. split.
  - by rewrite !lookup_insert_ne.
  - rewrite lookup_insert_eq. eexists. split; [reflexivity|].
    cbn [os.i_data os.i_size os.i_modTime os.append_inode os.now os.set_files].
    rewrite Hbase. cbn [app]. split_and!; try done.
Qed.

(** ** More on the scan loop *)

Lemma filter_positive_split {A} (f : A -> bool) (l : list A) :
  (0 < length (List.filter f l))%nat ->
  exists l1 x l2, l = l1 ++ x :: l2 /\ f x = true.
Proof.
  induction l as [|y l IH]; simpl; [lia|].
  destruct (f y) eqn:Hy.
  - intros _. by exists [], y, l.
  - intros Hpos. destruct (IH Hpos) as (l1 & x & l2 & -> & Hx).
    by exists (y :: l1), x, l2.
Qed.

Lemma held_positive_split c gs :
  held c gs <> [] ->
  exists gs1 g gs2, gs = gs1 ++ g :: gs2 /\ held_by c g <> [].
Proof.
  induction gs as [|g gs IH]; [done|].
  unfold held. cbn [flat_map]. fold (held c gs).
  destruct (held_by c g) as [|job l] eqn:Hg.
  - intros Hne. destruct (IH Hne) as (gs1 & g' & gs2 & -> & Hg').
    by exists (g :: gs1), g', gs2.
  - intros _. exists [], g, gs. split; [done|]. by rewrite Hg.
Qed.

(** The counter of a cycle is positive while a goroutine holds one of its
    operations. *)
Lemma wg_positive_held s c gs1 g gs2 :
  barrier_invariant s ->
  goroutines s = gs1 ++ g :: gs2 -> held_by c g <> [] ->
  0 < wg s c.
Proof.
  intros Hinv Hgs Hheld. rewrite (inv_counter s Hinv c).
  unfold in_flight. rewrite Hgs, held_middle, !length_app.
  destruct (held_by c g); [done|]. simpl. lia.
Qed.

Section loop_liveness.

Variable range : gmap string FileInfo -> list (string * FileInfo).
Hypothesis range_order : forall m, range m ≡ₚ map_to_list m.
Variable configs : Configurations.

(** X2. The counter of a cycle is never negative, and the [wg.Done()] of
    an operation that is executing never panics: the counter is positive
    then. *)
Theorem WaitGroup_never_negative (s : LoopState) :
  reachable range configs s ->
  (forall c, 0 <= wg s c)
  /\ (forall g c job,
        g ∈ goroutines s ->
        g = Task c job TaskRunning \/ g = Worker c (WorkerRunning job) ->
        sync.Done (wg s c) = Returns (wg s c - 1) /\ 0 <= wg s c - 1).
Proof.
  intros Hreach.
  pose proof (barrier_invariant_reachable range range_order configs s Hreach) as Hinv.
  split.
  - intros c. rewrite (inv_counter s Hinv c). lia.
  - intros g c job Hg Hrun.
    apply list_elem_of_split in Hg as (gs1 & gs2 & Hgs).
    assert (0 < wg s c) as Hpos.
    { apply (wg_positive_held s c gs1 g gs2 Hinv Hgs).
      destruct Hrun as [-> | ->]; simpl; by destruct (decide (c = c)). }
    split; [by apply Done_positive | lia].
Qed.

(** X3. No goroutine outlives its cycle: once the driver is at the sleep
    of a cycle, or in a later cycle, every goroutine started in that cycle
    has returned, the workers included (each has received its
    [doneSignal]). *)
Theorem no_goroutine_outlives_its_cycle (s : LoopState) (c : nat) (g : Goroutine) :
  reachable range configs s ->
  (c < cycle s)%nat \/ (c = cycle s /\ pc s = AtSleep) ->
  g ∈ goroutines s -> cycle_of g = c ->
  (exists job, g = Task c job TaskReturned) \/ g = Worker c WorkerReturned.
Proof.
  intros Hreach Hleft Hg Hc.
  pose proof (barrier_invariant_reachable range range_order configs s Hreach) as Hbar.
  pose proof (pool_invariant_reachable range range_order configs s Hreach) as Hpool.
  assert (behind_barrier s c) as Hbehind.
  { destruct Hleft as [?|[-> Hpc]]; [by left|right]. by rewrite Hpc. }
  pose proof (inv_settled s Hbar c Hbehind) as Hnil.
  unfold in_flight in Hnil.
  apply app_eq_nil in Hnil as [_ Hnil]. apply app_eq_nil in Hnil as [_ Hnil].
  pose proof (held_nil_inv _ _ _ Hnil Hg) as Hheld.
  assert (workers s c = 0%nat) as Hw.
  { pose proof (pool_workers _ s Hpool c) as Hw. unfold workers_expected in Hw.
    destruct (decide (c = cycle s)) as [->|?]; [|lia].
    destruct Hleft as [?|[_ Hpc]]; [lia|]. rewrite Hpc in Hw. lia. }
  destruct g as [c' job st|c' st]; simpl in Hc; subst c'.
  - left. exists job. destruct st; simpl in Hheld;
      destruct (decide (c = c)); done.
  - right. destruct st as [|job|]; [| |done].
    + exfalso. unfold workers in Hw.
      apply list_elem_of_split in Hg as (gs1 & gs2 & Hgs).
      rewrite Hgs, filter_middle in Hw. simpl in Hw.
      rewrite bool_decide_eq_true_2 in Hw by done. lia.
    + simpl in Hheld. by destruct (decide (c = c)).
Qed.

(** A live worker of the cycle can act as soon as the channel holds an
    operation: receive it, or return from the one it is in. *)
Lemma live_worker_steps s c gs1 g gs2 job buf :
  barrier_invariant s -> crashed s = false ->
  goroutines s = gs1 ++ g :: gs2 -> live_worker c g = true ->
  workerChannels s c = job :: buf ->
  exists s', step range configs s s' /\ crashed s' = false.
Proof.
  intros Hinv Hcr Hgs Hlive Hch.
  destruct g as [c' job' st|c' [|job'|]]; simpl in Hlive; try done;
    apply bool_decide_eq_true in Hlive; subst c'.
  - eexists. split; [by eapply step_worker_receives|done].
  - eexists. split; [|shelve].
    eapply step_worker_returns; [done | exact Hgs |].
    apply Done_positive. apply (wg_positive_held s c gs1 _ gs2 Hinv Hgs).
    simpl. by destruct (decide (c = c)).
    Unshelve. done.
Qed.

(** A goroutine that holds an operation can act: enter it, or return from
    it. *)
Lemma holder_steps s c gs1 g gs2 :
  barrier_invariant s -> crashed s = false ->
  goroutines s = gs1 ++ g :: gs2 -> held_by c g <> [] ->
  exists s', step range configs s s' /\ crashed s' = false.
Proof.
  intros Hinv Hcr Hgs Hheld.
  pose proof (wg_positive_held s c gs1 g gs2 Hinv Hgs Hheld) as Hpos.
  destruct g as [c' job []|c' [|job|]]; simpl in Hheld; try done;
    destruct (decide (c' = c)) as [->|]; try done.
  - eexists. split; [by eapply step_task_starts|done].
  - eexists. split; [eapply step_task_returns; [done | exact Hgs | by apply Done_positive]|done].
  - eexists. split; [eapply step_worker_returns; [done | exact Hgs | by apply Done_positive]|done].
Qed.


(** X26. No operation is lost, and none is run twice. In every state the
    loop can reach, the operations [processChanges] returned for a cycle
    are, each as often as the plan has it, in exactly one of four places:
    returned, still with the driver, in the channel, or held by a
    goroutine that is about to run it or is running it. The counter of the
    cycle is the number of those that have not returned. *)
Theorem operations_never_lost_or_duplicated (s : LoopState) (c : nat) :
  reachable range configs s ->
  jobFuncs s c
    ≡ₚ finished s c ++ undispatched s c ++ workerChannels s c
       ++ held c (goroutines s)
  /\ wg s c
     = Z.of_nat (length (undispatched s c) + length (workerChannels s c)
                 + length (held c (goroutines s))).
Proof.
  intros Hreach.
  destruct (barrier_invariant_reachable range range_order configs s Hreach)
    as [Hacc Hcount _ _].
  split; [apply Hacc|].
  rewrite Hcount. unfold in_flight. rewrite !length_app. f_equal. lia.
Qed.

(** X4. The driver never panics: a step that ends the process is taken
    while some goroutine is inside an operation. The two scans and the
    plan always return. *)
Theorem only_an_operation_panics (s s' : LoopState) :
  step range configs s s' -> crashed s' = true ->
  s' = crash s
  /\ exists g, g ∈ goroutines s /\ is_running g = true.
Proof.
  intros Hstep Hcr.
  destruct Hstep as
    [ | s srcTree destTree srcFiles destFiles msg _ _ _ _ Hplan
      | s dir tree msg _ _ _ Hscan
      | | | | | s gs1 gs2 c job _ Hgs
      | | | | | | | s gs1 gs2 c job _ Hgs
      | s g c job msg _ Hg Hrun _ | | | | ];
    try (cbn [crashed planned returned with_pc with_goroutines with_channel
              next_cycle] in Hcr; congruence).
  - by rewrite (planCycle_eq range range_order) in Hplan.
  - destruct (getDirFiles_Returns dir tree) as [files Hfiles]. congruence.
  - split; [done|]. exists (Task c job TaskRunning). split; [|done].
    rewrite Hgs. apply elem_of_middle. by left.
  - split; [done|]. exists (Worker c (WorkerRunning job)). split; [|done].
    rewrite Hgs. apply elem_of_middle. by left.
  - split; [done|]. exists g. split; [done|]. by destruct Hrun as [-> | ->].
Qed.

End loop_liveness.

(** ** The configurations *)

Lemma for_range_snoc {St A : Type} (body : St -> A -> Outcome St) l x :
  forall st,
    for_range body (l ++ [x]) st = (st' ← for_range body l st; body st' x).
Proof.
  induction l as [|y l IH]; intros st; cbn [app for_range].
  - change (Returns ?a ≫= ?k) with (k a). cbn beta.
    by destruct (body st x).
  - destruct (body st y) as [st1| |]; try done.
    change (Returns ?a ≫= ?k) with (k a). cbn beta. apply IH.
Qed.

Section config_properties.

Variable readInConfig : list viper.Call -> option string.
Variable unmarshal : list viper.Call -> Configurations + string.

(** What [fromFile] has done when it returns. *)
Lemma fromFile_Returns name v config v' :
  fromFile readInConfig unmarshal name v = Returns (config, v') ->
  v' = v ++ calls_of (filepath.Dir name)
                     (strings.Replace name (filepath.Dir name) "" 1)
  /\ readInConfig (v ++ take 3 (calls_of (filepath.Dir name)
                     (strings.Replace name (filepath.Dir name) "" 1))) = None
  /\ unmarshal (v ++ take 6 (calls_of (filepath.Dir name)
                     (strings.Replace name (filepath.Dir name) "" 1))) = inl config
  /\ configured config.
Proof.
  unfold fromFile. cbv zeta. rewrite !length_lt_1.
  rewrite (bool_decide_eq_false_2 (filepath.Dir name = ""))
    by apply Dir_nonempty.
  rewrite <- !app_assoc. cbn [app take calls_of].
  destruct (readInConfig _) as [err|] eqn:Hread; [done|].
  destruct (unmarshal _) as [c|err] eqn:Hdec; [|done].
  rewrite !length_lt_1.
  case_bool_decide as Hd; [done|]. case_bool_decide as Hs; [done|].
  intros [= <- <-]. by split_and!.
Qed.

(** X19. Where [fromFile] looks for a file. [filepath.Dir] never returns
    the empty string, so the branch for it is never taken: the search path
    is [filepath.Dir name] and the configuration name is the name with the
    first occurrence of that directory removed. For a clean path with a
    directory part, that is the directory and the last name after a
    separator; for a name without separator, the search path is [.] and
    the first dot of the name is removed, if it has one. *)
Theorem fromFile_location (name : string) (v : list viper.Call)
  (config : Configurations) (v' : list viper.Call) :
  fromFile readInConfig unmarshal name v = Returns (config, v') ->
  v' = v ++ calls_of (filepath.Dir name)
                     (strings.Replace name (filepath.Dir name) "" 1)
  /\ (forall rooted front base,
        name = path_of rooted (front ++ [base]) -> front <> [] ->
        Forall (fun e => is_name e = true) (front ++ [base]) ->
        v' = v ++ calls_of (path_of rooted front) ("/" +:+ base))
  /\ (filepath.has_separator name = false -> has_dot name = false ->
      v' = v ++ calls_of "." name)
  /\ (forall a b,
        name = a +:+ "." +:+ b -> filepath.has_separator name = false ->
        has_dot a = false ->
        v' = v ++ calls_of "." (a +:+ b)).
Proof.
  intros Hret. destruct (fromFile_Returns _ _ _ _ Hret) as (-> & _).
  split_and!; [done | | |].
  - intros rooted front base -> Hfront Hall.
    apply Forall_app in Hall as [Hall Hbase].
    apply Forall_cons in Hbase as [Hbase _].
    rewrite Dir_path_of_snoc, Replace_path_of by done.
    cbn [rel]. by rewrite append_nil_r.
  - intros Hsep Hdot. rewrite (Dir_no_separator name Hsep).
    by rewrite Replace_no_dot.
  - intros a b -> Hsep Ha. rewrite (Dir_no_separator _ Hsep).
    by rewrite Replace_first_dot.
Qed.

Lemma ReadFromFile_snoc filePaths arg v :
  ReadFromFile readInConfig unmarshal (filePaths ++ [arg]) v
  = '(configs, v) ← ReadFromFile readInConfig unmarshal filePaths v;
    '(config, v) ← fromFile readInConfig unmarshal arg v;
    mret (configs ++ [config], v).
Proof.
  unfold ReadFromFile. cbv zeta. rewrite for_range_snoc.
  by destruct (for_range _ filePaths _) as [[configs v1]| |].
Qed.

Lemma ReadFromFile_Returns filePaths :
  forall v configs v',
    ReadFromFile readInConfig unmarshal filePaths v = Returns (configs, v') ->
    length configs = length filePaths /\ Forall configured configs.
Proof.
  induction filePaths as [|arg ps IH] using rev_ind; intros v configs v' Hret.
  - injection Hret as <- <-. by split.
  - rewrite ReadFromFile_snoc in Hret.
    destruct (ReadFromFile readInConfig unmarshal ps v) as [[cs v1]| |] eqn:Hps;
      try done.
    change (Returns ?x ≫= ?k) with (k x) in Hret. cbn beta iota in Hret.
    destruct (fromFile readInConfig unmarshal arg v1) as [[c v2]| |] eqn:Harg;
      try done.
    injection Hret as <- <-.
    destruct (IH _ _ _ Hps) as [Hlen Hall].
    destruct (fromFile_Returns _ _ _ _ Harg) as (_ & _ & _ & Hc).
    rewrite !length_app, Hlen. split; [done|].
    apply Forall_app. split; [done|]. by apply Forall_cons.
Qed.

(** X20. When [ReadFromFile] returns, it returns one configuration for
    each path, each with both directories set, and the global viper has
    received the calls of each file in turn: the search paths of the
    earlier files are still set when a later file is read. *)
Theorem ReadFromFile_reads_each_path
  (filePaths : list string) (v : list viper.Call)
  (configs : list Configurations) (v' : list viper.Call) :
  ReadFromFile readInConfig unmarshal filePaths v = Returns (configs, v') ->
  length configs = length filePaths
  /\ Forall configured configs
  /\ v' = v ++ concat (map location_calls filePaths).
Proof.
  revert configs v'.
  induction filePaths as [|arg ps IH] using rev_ind; intros configs v' Hret.
  - injection Hret as <- <-. by rewrite app_nil_r.
  - rewrite ReadFromFile_snoc in Hret.
    destruct (ReadFromFile readInConfig unmarshal ps v) as [[cs v1]| |] eqn:Hps;
      try done.
    change (Returns ?x ≫= ?k) with (k x) in Hret. cbn beta iota in Hret.
    destruct (fromFile readInConfig unmarshal arg v1) as [[c v2]| |] eqn:Harg;
      try done.
    injection Hret as <- <-.
    destruct (IH _ _ eq_refl) as (Hlen & Hall & ->).
    destruct (fromFile_Returns _ _ _ _ Harg) as (-> & _ & _ & Hc).
    rewrite !length_app, Hlen. split_and!; [done | |].
    + apply Forall_app. split; [done|]. by apply Forall_cons.
    + rewrite map_app, concat_app. cbn [map concat].
      by rewrite app_nil_r, <- app_assoc.
Qed.

Lemma ReadFromFile_fuel filePaths :
  forall v, ReadFromFile readInConfig unmarshal filePaths v <> OutOfFuel.
Proof.
  induction filePaths as [|arg ps IH] using rev_ind; intros v; [done|].
  rewrite ReadFromFile_snoc. specialize (IH v).
  destruct (ReadFromFile readInConfig unmarshal ps v) as [[cs v1]| |]; try done.
  change (Returns ?x ≫= ?k) with (k x). cbn beta iota.
  destruct (fromFile readInConfig unmarshal arg v1) as [[c v2]| |] eqn:Harg;
    try done.
  unfold fromFile in Harg. cbv zeta in Harg. repeat case_match; done.
Qed.

Lemma for_range_started (configs : list Configurations) :
  forall acc,
    for_range (fun started config => mret (started ++ [config])) configs acc
    = Returns (acc ++ configs) :> Outcome (list Configurations).
Proof.
  induction configs as [|c cs IH]; intros acc.
  - simpl. by rewrite app_nil_r.
  - cbn [for_range]. change (mret ?x ≫= ?k) with (k x). cbn beta.
    rewrite IH. by rewrite <- app_assoc.
Qed.

(** X21. [main] with fewer than two arguments panics before it reads
    anything. Otherwise it panics as [ReadFromFile] does on the arguments
    after the first, or it starts one [RunScanLoop] goroutine for each of
    them, each with both directories set, and prints its one line. *)
Theorem main_starts_one_loop_per_argument (Args : list string)
  (v : list viper.Call) :
  match main readInConfig unmarshal Args v with
  | Returns (started, out) =>
      (2 <= length Args)%nat
      /\ S (length started) = length Args
      /\ Forall configured started
      /\ out = ["Running, press Enter key to terminate"]
  | Panics msg =>
      ((length Args < 2)%nat /\ msg = "Config file name argument is missing")
      \/ ((2 <= length Args)%nat
          /\ ReadFromFile readInConfig unmarshal (drop 1 Args) v = Panics msg)
  | OutOfFuel => False
  end.
Proof.
  unfold main. destruct (Nat.ltb_spec (length Args) 2) as [Hlt|Hge].
  - left. done.
  - cbv zeta.
    destruct (ReadFromFile readInConfig unmarshal (drop 1 Args) v)
      as [[configs v1]|msg|] eqn:Hread.
    + change (Returns ?x ≫= ?k) with (k x). cbn beta iota.
      rewrite for_range_started. change (Returns ?x ≫= ?k) with (k x). cbn beta.
      cbn [app]. destruct (ReadFromFile_Returns _ _ _ _ Hread) as [Hlen Hall].
      rewrite length_drop in Hlen. split_and!; try done. lia.
    + right. done.
    + by apply ReadFromFile_fuel in Hread.
Qed.

End config_properties.

(** ** More properties on the examples *)


Lemma WaitGroup_never_negative_witness :
  (forall c, 0 <= wg bounded_6 c)
  /\ (forall g c job,
        g ∈ goroutines bounded_6 ->
        g = Task c job TaskRunning \/ g = Worker c (WorkerRunning job) ->
        sync.Done (wg bounded_6 c) = Returns (wg bounded_6 c - 1)
        /\ 0 <= wg bounded_6 c - 1).
Proof.
  apply (WaitGroup_never_negative map_to_list
           (fun m => Permutation_refl (map_to_list m))
           example_configs bounded_6 bounded_run).
Defined.

Lemma no_goroutine_outlives_its_cycle_witness :
  Task 0 example_job TaskReturned ∈ goroutines unbounded_7
  /\ ((exists job, Task 0 example_job TaskReturned = Task 0 job TaskReturned)
      \/ Task 0 example_job TaskReturned = Worker 0 WorkerReturned).
Proof.
  assert (Task 0 example_job TaskReturned ∈ goroutines unbounded_7) as Hin
    by (apply elem_of_cons; left; reflexivity).
  split; [exact Hin|].
  apply (no_goroutine_outlives_its_cycle map_to_list
           (fun m => Permutation_refl (map_to_list m))
           example_unbounded unbounded_7 0 _ unbounded_run);
    [left; simpl; lia | exact Hin | reflexivity].
Defined.

Lemma only_an_operation_panics_witness :
  bounded_7 = crash bounded_6
  /\ exists g, g ∈ goroutines bounded_6 /\ is_running g = true.
Proof.
  apply (only_an_operation_panics map_to_list
           (fun m => Permutation_refl (map_to_list m))
           example_configs bounded_6 bounded_7); [|reflexivity].
  by apply (step_worker_panics map_to_list example_configs bounded_6
              [] [Worker 0 WorkerSelect] 0%nat example_job).
Defined.

Lemma unavailable_source_deletes_destination_witness :
  getDirFiles (SourceDirectory (General example_configs))
    (filepath.LstatFails (PathError "lstat" "/s" ENOENT)) = Returns ∅
  /\ exists deletes,
       planCycle map_to_list example_configs ∅ example_destFiles
       = Returns (map (delete_of example_configs) deletes,
                  Z.of_nat (size example_destFiles))
       /\ deletes ≡ₚ map_to_list example_destFiles.
Proof.
  apply (unavailable_source_deletes_destination map_to_list
           (fun m => Permutation_refl (map_to_list m)) example_configs
           (filepath.LstatFails (PathError "lstat" "/s" ENOENT))
           example_destFiles).
  reflexivity.
Defined.

Lemma getDirFiles_root_independent_witness :
  getDirFiles (path_of true ["s"]) (tree_with_one_file "a.txt")
  = getDirFiles (path_of false ["backup"; "d"]) (tree_with_one_file "a.txt").
Proof.
  apply (getDirFiles_root_independent true false ["s"] ["backup"; "d"]
           (tree_with_one_file "a.txt")); try done.
  - repeat constructor.
  - repeat constructor.
Defined.

Lemma operations_stay_below_roots_witness :
  names_ok (tree_with_one_file "a.txt") = true
  /\ forall job, job ∈ [example_job] ->
       exists rs info,
         rs <> [] /\ Forall (fun e => is_name e = true) rs
         /\ (job = func_writeFile (path_of true (["s"] ++ rs)) info
                                  (path_of true (["d"] ++ rs))
             \/ job = func_deleteFile info (path_of true (["d"] ++ rs))).
Proof.
  split; [reflexivity|].
  apply (operations_stay_below_roots map_to_list
           (fun m => Permutation_refl (map_to_list m)) example_configs
           true true ["s"] ["d"] (tree_with_one_file "a.txt")
           (filepath.LstatFails (PathError "lstat" "/d" ENOENT))
           {[ "/a.txt" := Some a_regular_file ]} ∅ [example_job] 1);
    first [reflexivity | done | by repeat constructor
          | vm_compute; reflexivity].
Defined.



Lemma deleteFile_after_directory_removed_witness :
  let w := example_world in
  let w1 := os.Printf "Remove" "/d/a"
              (os.set_files w
                 (filter (fun kv => ¬ ["d"; "a"] `prefix_of` kv.1) (os.files w))) in
  deleteFile (Some (os.stat_of (dir_inode 493))) "/d/a" 2 w = Returns (w1, 1)
  /\ deleteFile (Some (os.stat_of (file_inode 384 1500 []))) "/d/a/b/f" 1 w1
     = Panics (fs.Error (PathError "remove" "/d/a/b/f" ENOENT)).
Proof.
  intros w w1.
  assert (deleteFile (Some (os.stat_of (dir_inode 493))) "/d/a" 2 w
          = Returns (w1, 1)) as Hfirst by reflexivity.
  split; [exact Hfirst|].
  apply (deleteFile_after_directory_removed w 2 "/d/a" "/d/a/b/f"
           (os.stat_of (dir_inode 493)) (os.stat_of (file_inode 384 1500 []))
           w1 1); [reflexivity | reflexivity | | exact Hfirst].
  exists ["b"; "f"]. reflexivity.
Defined.



Lemma writeFile_unchanged_is_quiet_witness :
  let w := example_world in
  let parent_i := dir_inode 457 in
  let pd := os.stat_of (dir_inode 493) in
  exists w',
    writeFile 2 "/s/a/b/f" (Some unchanged_record) "/d/a/b/f" 1 w
    = Returns (w', 1 - 1)
    /\ os.stdout w' = os.stdout w
    /\ (forall k, k <> os.resolve w (filepath.Dir "/d/a/b/f") ->
          os.files w' !! k = os.files w !! k)
    /\ exists parent',
         os.files w' !! os.resolve w (filepath.Dir "/d/a/b/f") = Some parent'
         /\ os.i_data parent' = os.i_data parent_i
         /\ os.i_size parent' = os.i_size parent_i
         /\ os.i_modTime parent' = os.i_modTime parent_i
         /\ Z.land (os.i_mode parent') fs.ModeType
            = Z.land (os.i_mode parent_i) fs.ModeType
         /\ fs.Perm (os.i_mode parent') = fs.Perm (fs.Mode pd).
Proof.
  apply (writeFile_unchanged_is_quiet 2 example_world 1 "/s/a/b/f" "/d/a/b/f"
           unchanged_record (os.stat_of (dir_inode 493))
           (file_inode 420 2000 [Byte.x58]) (dir_inode 457)
           (file_inode 384 1500 [Byte.x6f; Byte.x6c; Byte.x64]));
    try lia; try reflexivity; try (vm_compute; reflexivity).
  vm_compute. discriminate.
Defined.

(** On the example the file [/d/a/b/f] keeps its three bytes when the
    record has its time: the source file, of one byte, is not copied. *)
Example writeFile_unchanged_example :
  exists w',
    writeFile 2 "/s/a/b/f" (Some unchanged_record) "/d/a/b/f" 1 example_world
    = Returns (w', 0)
    /\ os.files w' !! ["d"; "a"; "b"; "f"]
       = Some (file_inode 384 1500 [Byte.x6f; Byte.x6c; Byte.x64])
    /\ os.stdout w' = [].
Proof.
  eexists. split; [vm_compute; reflexivity|]. split; vm_compute; reflexivity.
Qed.


Lemma writeFile_file_onto_directory_panics_witness :
  writeFile 2 "/s/a/b/f" (Some f_record) "/d/a" 1 example_world
  = Panics (fs.Error (PathError "open" "/d/a" EISDIR)).
Proof.
  apply (writeFile_file_onto_directory_panics 2 example_world 1 "/s/a/b/f" "/d/a"
           f_record (os.stat_of (dir_inode 493))
           (file_inode 420 2000 [Byte.x58]) (dir_inode 493) (dir_inode 493));
    try lia; try reflexivity; try (vm_compute; reflexivity).
  - vm_compute. discriminate.
  - vm_compute. discriminate.
Defined.


Lemma writeFile_changes_only_destination_witness :
  exists w' wg',
    writeFile 2 "/s/a/b/f" (Some f_record) (path_of true ["d"; "a"; "b"; "f"]) 1
      example_world = Returns (w', wg')
    /\ forall k, ~ k `prefix_of` ["d"; "a"; "b"; "f"] ->
         os.files w' !! k = os.files example_world !! k.
Proof.
  destruct (writeFile 2 "/s/a/b/f" (Some f_record)
              (path_of true ["d"; "a"; "b"; "f"]) 1 example_world)
    as [[w' wg']| |] eqn:Hw.
  - exists w', wg'. split; [reflexivity|].
    apply (writeFile_changes_only_destination 2 "/s/a/b/f" (Some f_record)
             ["d"; "a"; "b"; "f"] 1 example_world w' wg'); [|exact Hw].
    repeat constructor.
  - exfalso. revert Hw. vm_compute. discriminate.
  - exfalso. revert Hw. vm_compute. discriminate.
Defined.


Lemma fromFile_location_witness :
  let name := "mirror.yml" in
  let v' := calls_of "." "mirroryml" in
  fromFile example_readInConfig example_unmarshal name []
  = Returns (example_configs, v')
  /\ v' = [] ++ calls_of (filepath.Dir name)
                   (strings.Replace name (filepath.Dir name) "" 1)
  /\ (forall rooted front base,
        name = path_of rooted (front ++ [base]) -> front <> [] ->
        Forall (fun e => is_name e = true) (front ++ [base]) ->
        v' = [] ++ calls_of (path_of rooted front) ("/" +:+ base))
  /\ (filepath.has_separator name = false -> has_dot name = false ->
      v' = [] ++ calls_of "." name)
  /\ (forall a b,
        name = a +:+ "." +:+ b -> filepath.has_separator name = false ->
        has_dot a = false ->
        v' = [] ++ calls_of "." (a +:+ b)).
Proof.
  intros name v'.
  assert (fromFile example_readInConfig example_unmarshal name []
          = Returns (example_configs, v')) as Hret by (vm_compute; reflexivity).
  split; [exact Hret|].
  apply (fromFile_location example_readInConfig example_unmarshal name []
           example_configs v' Hret).
Defined.

(** A file given with its directory: the search path is the directory, the
    configuration name the last name after a separator. *)
Example fromFile_location_example :
  fromFile example_readInConfig example_unmarshal "conf/mirror" []
  = Returns (example_configs, calls_of "conf" "/mirror").
Proof. vm_compute. reflexivity. Qed.

Lemma ReadFromFile_reads_each_path_witness :
  let filePaths := ["conf/mirror"; "backup"] in
  let v' := calls_of "conf" "/mirror" ++ calls_of "." "backup" in
  ReadFromFile example_readInConfig example_unmarshal filePaths []
  = Returns ([example_configs; example_configs], v')
  /\ length [example_configs; example_configs] = length filePaths
  /\ Forall configured [example_configs; example_configs]
  /\ v' = [] ++ concat (map location_calls filePaths).
Proof.
  intros filePaths v'.
  assert (ReadFromFile example_readInConfig example_unmarshal filePaths []
          = Returns ([example_configs; example_configs], v')) as Hret
    by (vm_compute; reflexivity).
  split; [exact Hret|].
  apply (ReadFromFile_reads_each_path example_readInConfig example_unmarshal
           filePaths [] [example_configs; example_configs] v' Hret).
Defined.

(** [main] without a file argument, and with two. *)
Example main_example :
  main example_readInConfig example_unmarshal ["mirror"] []
  = Panics "Config file name argument is missing"
  /\ main example_readInConfig example_unmarshal
       ["mirror"; "conf/mirror"; "backup"] []
     = Returns ([example_configs; example_configs],
                ["Running, press Enter key to terminate"]).
Proof. split; vm_compute; reflexivity. Qed.

Lemma trailing_separator_writes_beside_destination_witness :
  let srcFiles : gmap string FileInfo := {[ "a.txt" := Some a_regular_file ]} in
  getDirFiles "/s/" (tree_with_one_file "a.txt") = Returns srcFiles
  /\ exists n rs,
       Forall (fun e => is_name e = true) (n :: rs)
       /\ "a.txt" = strings.join_slash (n :: rs)
       /\ write_of example_trailing ("a.txt", Some a_regular_file)
          = func_writeFile (path_of true (["s"] ++ n :: rs))
              (Some a_regular_file)
              (path_of true ([] ++ ("d" +:+ n) :: rs)).
Proof.
  intros srcFiles.
  assert (getDirFiles "/s/" (tree_with_one_file "a.txt") = Returns srcFiles)
    as Hscan by (vm_compute; reflexivity).
  split; [exact Hscan|].
  apply (trailing_separator_writes_beside_destination example_trailing
           true true ["s"] [] "d" (tree_with_one_file "a.txt") srcFiles
           "a.txt" (Some a_regular_file));
    first [reflexivity | done | by repeat constructor | exact Hscan
          | vm_compute; reflexivity].
Defined.

(** On that example the file [/s/a.txt] is written to [/da.txt]. *)
Example trailing_separator_example :
  write_of example_trailing ("a.txt", Some a_regular_file)
  = func_writeFile "/s/a.txt" (Some a_regular_file) "/da.txt".
Proof. vm_compute. reflexivity. Qed.

Lemma getDirFiles_finds_every_entry_witness :
  let files : gmap string FileInfo := {[ "/a.txt" := Some a_regular_file ]} in
  getDirFiles (path_of true ["s"]) (tree_with_one_file "a.txt") = Returns files
  /\ keys_below files
  /\ forall rs, rs <> [] -> Forall (fun e => is_name e = true) rs ->
       files !! rel rs = tree_find (tree_with_one_file "a.txt") rs.
Proof.
  intros files.
  assert (getDirFiles (path_of true ["s"]) (tree_with_one_file "a.txt")
          = Returns files) as Hscan by (vm_compute; reflexivity).
  split; [exact Hscan|].
  apply (getDirFiles_finds_every_entry true ["s"] (tree_with_one_file "a.txt")
           files); [done | by repeat constructor | reflexivity | exact Hscan].
Defined.

Lemma plan_mirrors_trees_witness :
  let srcTree := tree_with_one_file "a.txt" in
  let destTree := filepath.LstatFails (PathError "lstat" "/d" ENOENT) in
  names_ok srcTree = true
  /\ forall rs info, rs <> [] -> Forall (fun e => is_name e = true) rs ->
       (func_writeFile (path_of true (["s"] ++ rs)) info
                       (path_of true (["d"] ++ rs)) ∈ [example_job]
        <-> tree_find srcTree rs = Some info)
       /\ (func_deleteFile info (path_of true (["d"] ++ rs)) ∈ [example_job]
           <-> tree_find destTree rs = Some info /\ tree_find srcTree rs = None).
Proof.
  intros srcTree destTree. split; [reflexivity|].
  apply (plan_mirrors_trees map_to_list
           (fun m => Permutation_refl (map_to_list m)) example_configs
           true true ["s"] ["d"] srcTree destTree
           {[ "/a.txt" := Some a_regular_file ]} ∅ [example_job] 1);
    first [reflexivity | done | by repeat constructor
          | vm_compute; reflexivity].
Defined.


Lemma copyFile_returns_copied_witness :
  let w := example_world in
  exists w',
    copyFile "/s/a/b/f" "/d/a/b/f" w = Returns w'
    /\ exists src_i,
         os.files w !! os.resolve w "/s/a/b/f" = Some src_i
         /\ if fs.IsRegular (os.i_mode src_i) then
              os.files w' !! os.resolve w "/s/a/b/f" = Some src_i
              /\ exists i,
                   os.files w' !! os.resolve w "/d/a/b/f" = Some i
                   /\ os.i_data i = os.i_data src_i
                   /\ os.i_size i = Z.of_nat (length (os.i_data src_i))
                   /\ os.i_size i = os.i_size src_i
                   /\ os.i_modTime i = os.now w
            else w' = w.
Proof.
  intros w.
  destruct (copyFile "/s/a/b/f" "/d/a/b/f" w) as [w'| |] eqn:Hcopy.
  - exists w'. split; [reflexivity|].
    apply (copyFile_returns_copied "/s/a/b/f" "/d/a/b/f" w w' Hcopy).
    vm_compute. discriminate.
  - exfalso. revert Hcopy. vm_compute. discriminate.
  - exfalso. revert Hcopy. vm_compute. discriminate.
Defined.

(** On the example the three bytes of the older [/d/a/b/f] are replaced
    by the one byte of [/s/a/b/f]. *)
Example copyFile_example :
  exists w',
    copyFile "/s/a/b/f" "/d/a/b/f" example_world = Returns w'
    /\ os.files w' !! ["d"; "a"; "b"; "f"]
       = Some {| os.i_mode := 384; os.i_modTime := 5000; os.i_size := 1;
                 os.i_data := [Byte.x58] |}.
Proof. eexists. split; vm_compute; reflexivity. Qed.

Lemma operations_never_lost_or_duplicated_witness :
  jobFuncs bounded_6 0
    ≡ₚ finished bounded_6 0 ++ undispatched bounded_6 0
       ++ workerChannels bounded_6 0 ++ held 0 (goroutines bounded_6)
  /\ wg bounded_6 0
     = Z.of_nat (length (undispatched bounded_6 0)
                 + length (workerChannels bounded_6 0)
                 + length (held 0 (goroutines bounded_6))).
Proof.
  apply (operations_never_lost_or_duplicated map_to_list
           (fun m => Permutation_refl (map_to_list m))
           example_configs bounded_6 0 bounded_run).
Defined.
